(** * rwsem-any: a stress harness for the kernel reader/writer semaphore

    This development embeds [src/lca_v6/misc/rwsem-any.c] as a labelled
    transition system.  Every agent of the program (the module
    initialisation function, the one-shot kernel timer and each spawned
    kernel thread) owns a program counter; one step of the system executes
    one source statement of one agent on the shared variables.  All
    interleavings of these atomic statements are runs of the system. *)

From Stdlib Require Import ZArith List Bool Lia String.
From stdpp Require Import base decidable numbers strings list.
Import ListNotations.

Local Open Scope Z_scope.

(** ** Machine integers *)

(** [atomic_t] wraps a C [int]: arithmetic on it wraps around at 32 bits. *)
Definition wrap_int (z : Z) : Z := (z + 2 ^ 31) mod 2 ^ 32 - 2 ^ 31.

(** Conversion of a C integer to [unsigned long], as the usual arithmetic
    conversions do in [loop < numrd] with [unsigned long loop]. *)
Definition to_ulong (bits z : Z) : Z := z mod 2 ^ bits.

(** ** Module parameters *)

Record config := Config {
  numrd : Z;      (* Number of reader threads *)
  numwr : Z;      (* Number of writer threads *)
  numdg : Z;      (* Number of downgrader threads *)
  elapse : Z;     (* Number of seconds to run for *)
  do_sched : Z    (* True if each thread should schedule regularly *)
}.

(** ** The semaphore under test *)

(** Modelled from the spec: the kernel's [struct rw_semaphore] and its
    operations are not part of the repository.  The specification describes
    the lock state as a signed occupancy ([0] free, [N > 0] readers holding,
    [-1] one writer holding); an acquisition that cannot proceed blocks, which
    is [None] here.  The specification fixes no wake-up order, so the waiters
    are the agents resting at a blocked acquisition and any of them may go
    first once its guard holds. *)
Module RWSem.

(** Modelled from the spec: the lock is created free. *)
Definition init_rwsem : Z := 0.

(** Modelled from the spec: acquire_read blocks while a writer holds the
    lock and otherwise counts the caller among the readers.  The priority
    that the specification lets an implementation give to a waiting writer is
    not modelled: this is the most permissive admission, so the runs of any
    stricter policy are among the runs considered here. *)
Definition down_read (occupancy : Z) : option Z :=
  if 0 <=? occupancy then Some (occupancy + 1) else None.

(** Modelled from the spec: release_read decrements the reader count. *)
Definition up_read (occupancy : Z) : Z := occupancy - 1.

(** Modelled from the spec: acquire_write blocks until the occupancy can go
    from free to the writer-held value. *)
Definition down_write (occupancy : Z) : option Z :=
  if occupancy =? 0 then Some (-1) else None.

(** Modelled from the spec: release_write takes the occupancy back to
    free. *)
Definition up_write (occupancy : Z) : Z := 0.

(** Modelled from the spec: downgrade_write turns the writer into the one
    reader in a single step, never passing through free. *)
Definition downgrade_write (occupancy : Z) : Z := 1.

End RWSem.

(** ** Program text *)

Inductive kind := Read | Write | Down.

Inductive atomic_var :=
  a_readers | a_writers | a_do_stuff
| a_reads_taken | a_writes_taken | a_downgrades_taken.

Inductive func := Fdr | Fur | Fdw | Fuw | Fdgw | Fsched.

(** The statements of the inline helpers. [IfDoSched] is the test
    [if (do_sched)] of [sched], which guards the [Schedule] after it. *)
Inductive stmt :=
| DownRead | UpRead | DownWrite | UpWrite | DowngradeWrite
| AtomicInc (v : atomic_var)
| AtomicDec (v : atomic_var)
| CheckA (v : atomic_var) (val : Z)
| IfDoSched
| Schedule.

(** A statement together with its enclosing function ([__func__]). *)
Definition op : Type := func * stmt.

Global Instance kind_eq_dec : EqDecision kind.
Proof. solve_decision. Defined.
Global Instance atomic_var_eq_dec : EqDecision atomic_var.
Proof. solve_decision. Defined.
Global Instance func_eq_dec : EqDecision func.
Proof. solve_decision. Defined.
Global Instance stmt_eq_dec : EqDecision stmt.
Proof. solve_decision. Defined.

Definition dr : list op :=
  [ (Fdr, DownRead);
    (Fdr, AtomicInc a_readers);
    (Fdr, AtomicInc a_reads_taken);
    (Fdr, CheckA a_writers 0) ].

Definition ur : list op :=
  [ (Fur, CheckA a_writers 0);
    (Fur, AtomicDec a_readers);
    (Fur, UpRead) ].

Definition dw : list op :=
  [ (Fdw, DownWrite);
    (Fdw, AtomicInc a_writers);
    (Fdw, AtomicInc a_writes_taken);
    (Fdw, CheckA a_writers 1);
    (Fdw, CheckA a_readers 0) ].

Definition uw : list op :=
  [ (Fuw, CheckA a_writers 1);
    (Fuw, CheckA a_readers 0);
    (Fuw, AtomicDec a_writers);
    (Fuw, UpWrite) ].

Definition dgw : list op :=
  [ (Fdgw, CheckA a_writers 1);
    (Fdgw, CheckA a_readers 0);
    (Fdgw, AtomicDec a_writers);
    (Fdgw, AtomicInc a_readers);
    (Fdgw, DowngradeWrite);
    (Fdgw, AtomicInc a_downgrades_taken) ].

Definition sched : list op :=
  [ (Fsched, IfDoSched); (Fsched, Schedule) ].

(** The bodies of the three [while (atomic_read(&do_stuff))] loops. *)
Definition reader : list op := dr ++ ur ++ sched.
Definition writer : list op := dw ++ uw ++ sched.
Definition downgrader : list op := dw ++ dgw ++ ur ++ sched.

Definition body (k : kind) : list op :=
  match k with Read => reader | Write => writer | Down => downgrader end.

Definition func_body (f : func) : list op :=
  match f with
  | Fdr => dr | Fur => ur | Fdw => dw | Fuw => uw | Fdgw => dgw
  | Fsched => sched
  end.

(** ** Program counters *)

(** A thread is at [daemonize], inside the loop with the statements [k] of
    the current iteration still to run ([T_run []] is the loop test), at the
    final [printk], at [complete_and_exit], or gone. *)
Inductive tpc :=
| T_daemonize
| T_run (k : list op)
| T_printk
| T_complete
| T_exited.

Record thread := Thread { tkind : kind; targ : Z; tpc_of : tpc }.

Inductive mpc :=
| M_printk_start
| M_init_rwsem
| M_set_do_stuff
| M_for (loop : Z)
| M_if (k : kind) (loop : Z)
| M_init_completion (k : kind) (loop : Z)
| M_kernel_thread (k : kind) (loop : Z)
| M_init_timer
| M_timer_function
| M_timer_expires
| M_add_timer
| M_join (k : kind) (loop : Z)
| M_wait (k : kind) (loop : Z)
| M_clear_do_stuff
| M_del_timer
| M_print_counter
| M_print_reads
| M_print_writes
| M_print_downgrades
| M_return
| M_returned (v : Z).

Inductive handler := h_stop_test.

(** ** Kernel log *)

Inductive msg :=
| msg_starting
| msg_check_failed (var : string) (val x : Z) (fn : string)
| msg_done (k : kind) (N : Z)
| msg_counter (v : Z)
| msg_reads_taken (v : Z)
| msg_writes_taken (v : Z)
| msg_downgrades_taken (v : Z).

Global Instance msg_eq_dec : EqDecision msg.
Proof. solve_decision. Defined.

Definition var_name (v : atomic_var) : string :=
  match v with
  | a_readers => "readers"
  | a_writers => "writers"
  | a_do_stuff => "do_stuff"
  | a_reads_taken => "reads_taken"
  | a_writes_taken => "writes_taken"
  | a_downgrades_taken => "downgrades_taken"
  end.

Definition func_name (f : func) : string :=
  match f with
  | Fdr => "dr" | Fur => "ur" | Fdw => "dw" | Fuw => "uw" | Fdgw => "dgw"
  | Fsched => "sched"
  end.

(** ** Shared state *)

Record state := State {
  rwsem_sem : Z;
  readers : Z;
  writers : Z;
  do_stuff : Z;
  reads_taken : Z;
  writes_taken : Z;
  downgrades_taken : Z;
  rd_comp : list Z;
  wr_comp : list Z;
  dg_comp : list Z;
  timer_function : option handler;
  timer_pending : bool;
  klog : list msg;
  threads : list thread;
  main : mpc
}.

Definition set_rwsem_sem (x : Z) (s : state) : state :=
  State x (readers s) (writers s) (do_stuff s) (reads_taken s)
    (writes_taken s) (downgrades_taken s) (rd_comp s) (wr_comp s) (dg_comp s)
    (timer_function s) (timer_pending s) (klog s) (threads s) (main s).

Definition atomic_read (v : atomic_var) (s : state) : Z :=
  match v with
  | a_readers => readers s
  | a_writers => writers s
  | a_do_stuff => do_stuff s
  | a_reads_taken => reads_taken s
  | a_writes_taken => writes_taken s
  | a_downgrades_taken => downgrades_taken s
  end.

Definition atomic_set (v : atomic_var) (x : Z) (s : state) : state :=
  State (rwsem_sem s)
    (if decide (v = a_readers) then x else readers s)
    (if decide (v = a_writers) then x else writers s)
    (if decide (v = a_do_stuff) then x else do_stuff s)
    (if decide (v = a_reads_taken) then x else reads_taken s)
    (if decide (v = a_writes_taken) then x else writes_taken s)
    (if decide (v = a_downgrades_taken) then x else downgrades_taken s)
    (rd_comp s) (wr_comp s) (dg_comp s)
    (timer_function s) (timer_pending s) (klog s) (threads s) (main s).

Definition atomic_inc (v : atomic_var) (s : state) : state :=
  atomic_set v (wrap_int (atomic_read v s + 1)) s.

Definition atomic_dec (v : atomic_var) (s : state) : state :=
  atomic_set v (wrap_int (atomic_read v s - 1)) s.

Definition comp (k : kind) (s : state) : list Z :=
  match k with Read => rd_comp s | Write => wr_comp s | Down => dg_comp s end.

Definition set_comp (k : kind) (l : list Z) (s : state) : state :=
  State (rwsem_sem s) (readers s) (writers s) (do_stuff s) (reads_taken s)
    (writes_taken s) (downgrades_taken s)
    (if decide (k = Read) then l else rd_comp s)
    (if decide (k = Write) then l else wr_comp s)
    (if decide (k = Down) then l else dg_comp s)
    (timer_function s) (timer_pending s) (klog s) (threads s) (main s).

Definition set_timer (f : option handler) (p : bool) (s : state) : state :=
  State (rwsem_sem s) (readers s) (writers s) (do_stuff s) (reads_taken s)
    (writes_taken s) (downgrades_taken s) (rd_comp s) (wr_comp s) (dg_comp s)
    f p (klog s) (threads s) (main s).

Definition printk (m : msg) (s : state) : state :=
  State (rwsem_sem s) (readers s) (writers s) (do_stuff s) (reads_taken s)
    (writes_taken s) (downgrades_taken s) (rd_comp s) (wr_comp s) (dg_comp s)
    (timer_function s) (timer_pending s) (klog s ++ [m]) (threads s) (main s).

Definition set_threads (l : list thread) (s : state) : state :=
  State (rwsem_sem s) (readers s) (writers s) (do_stuff s) (reads_taken s)
    (writes_taken s) (downgrades_taken s) (rd_comp s) (wr_comp s) (dg_comp s)
    (timer_function s) (timer_pending s) (klog s) l (main s).

Definition set_main (pc : mpc) (s : state) : state :=
  State (rwsem_sem s) (readers s) (writers s) (do_stuff s) (reads_taken s)
    (writes_taken s) (downgrades_taken s) (rd_comp s) (wr_comp s) (dg_comp s)
    (timer_function s) (timer_pending s) (klog s) (threads s) pc.

(** Static storage: every global starts zeroed, the three completion arrays
    have 20 elements each. *)
Definition NCOMP : nat := 20.

Definition loaded : state :=
  State 0 0 0 0 0 0 0 (replicate NCOMP 0) (replicate NCOMP 0)
    (replicate NCOMP 0) None false [] [] M_printk_start.

(** ** Traces *)

Inductive agent := Main | Timer | Thr (i : nat).

Inductive action :=
| A_daemonize
| A_test (b : bool)
| A_op (o : op)
| A_printk
| A_complete.

Inductive event :=
| E_thread (i : nat) (a : action)
| E_main (pc : mpc)
| E_timer.

Global Instance action_eq_dec : EqDecision action.
Proof. solve_decision. Defined.

(** What one agent can do in a state: take a step, wait (a blocked
    acquisition, an unsignalled completion, a timer that is not pending, an
    agent that has finished), or leave the defined behaviour of C: the only
    faults modelled are an access outside a completion array and the expiry
    of a timer that has no function. *)
Inductive result (A : Type) :=
| Ok (a : A)
| Blocked
| Fault.
Arguments Ok {A} a.
Arguments Blocked {A}.
Arguments Fault {A}.

(** ** Statements *)

(** [CHECKA(var, val)] inside the function [f]. *)
Definition CHECKA (v : atomic_var) (val : Z) (f : func) (s : state) : state :=
  let x := atomic_read v s in
  if negb (x =? val)
  then printk (msg_check_failed (var_name v) val x (func_name f)) s
  else s.

Definition down_sem (o : option Z) (s : state) : option state :=
  match o with
  | Some x => Some (set_rwsem_sem x s)
  | None => None
  end.

Definition exec_stmt (f : func) (st : stmt) (s : state) : option state :=
  match st with
  | DownRead => down_sem (RWSem.down_read (rwsem_sem s)) s
  | UpRead => Some (set_rwsem_sem (RWSem.up_read (rwsem_sem s)) s)
  | DownWrite => down_sem (RWSem.down_write (rwsem_sem s)) s
  | UpWrite => Some (set_rwsem_sem (RWSem.up_write (rwsem_sem s)) s)
  | DowngradeWrite =>
      Some (set_rwsem_sem (RWSem.downgrade_write (rwsem_sem s)) s)
  | AtomicInc v => Some (atomic_inc v s)
  | AtomicDec v => Some (atomic_dec v s)
  | CheckA v val => Some (CHECKA v val f s)
  | IfDoSched => Some s
  | Schedule => Some s
  end.

(** [stop_test], the timer function. *)
Definition stop_test (s : state) : state := atomic_set a_do_stuff 0 s.

Definition next_kind (k : kind) : option kind :=
  match k with Read => Some Write | Write => Some Down | Down => None end.

Section Harness.

(** Width of [unsigned long] and the value of the errno constant [ENOANO]:
    both come from the kernel headers of the target. *)
Variable BITS_PER_LONG : Z.
Variable ENOANO : Z.
Variable cfg : config.

Definition num (k : kind) : Z :=
  match k with Read => numrd cfg | Write => numwr cfg | Down => numdg cfg end.

(** [loop < numrd] compares as [unsigned long]. *)
Definition below_num (k : kind) (loop : Z) : bool :=
  loop <? to_ulong BITS_PER_LONG (num k).

(** The statements still to run after [st]: a false [if (do_sched)] skips
    the call it guards. *)
Definition rest_after (st : stmt) (k : list op) : list op :=
  match st with
  | IfDoSched => if do_sched cfg =? 0 then tail k else k
  | _ => k
  end.

Definition set_pc (i : nat) (t : thread) (pc : tpc) (s : state) : state :=
  set_threads (<[i := Thread (tkind t) (targ t) pc]> (threads s)) s.

(** One statement of the kernel thread at index [i] of the thread table. *)
Definition step_thread (i : nat) (s : state) : result (action * state) :=
  match threads s !! i with
  | None => Blocked
  | Some t =>
      match tpc_of t with
      | T_daemonize => Ok (A_daemonize, set_pc i t (T_run []) s)
      | T_run [] =>
          let b := negb (atomic_read a_do_stuff s =? 0) in
          Ok (A_test b, set_pc i t (if b then T_run (body (tkind t)) else T_printk) s)
      | T_run ((f, st) :: k) =>
          match exec_stmt f st s with
          | Some s' => Ok (A_op (f, st), set_pc i t (T_run (rest_after st k)) s')
          | None => Blocked
          end
      | T_printk =>
          Ok (A_printk, set_pc i t T_complete (printk (msg_done (tkind t) (targ t)) s))
      | T_complete =>
          let a := comp (tkind t) s in
          match a !! Z.to_nat (targ t) with
          | Some d =>
              Ok (A_complete,
                  set_pc i t T_exited
                    (set_comp (tkind t) (<[Z.to_nat (targ t) := d + 1]> a) s))
          | None => Fault
          end
      | T_exited => Blocked
      end
  end.

(** Where the spawn loop goes after the [if] for the kind [k]. *)
Definition after_if (k : kind) (loop : Z) : mpc :=
  match next_kind k with
  | Some k' => M_if k' loop
  | None => M_for (to_ulong BITS_PER_LONG (loop + 1))
  end.

Definition after_join (k : kind) : mpc :=
  match next_kind k with
  | Some k' => M_join k' 0
  | None => M_clear_do_stuff
  end.

(** One statement of [rwsem_init_module].  [kernel_thread] is taken to
    succeed (the source ignores its result): the new thread joins the thread
    table, about to call [daemonize], with the loop index as its argument.
    The value of [timer.expires] is not modelled: the statement that computes
    [jiffies + elapse * HZ] is stepped over, so [Fault] stands for an access
    outside a completion array and for a timer without a function, not for
    an overflow of that product. *)
Definition step_main (s : state) : result state :=
  match main s with
  | M_printk_start => Ok (set_main M_init_rwsem (printk msg_starting s))
  | M_init_rwsem =>
      Ok (set_main M_set_do_stuff (set_rwsem_sem RWSem.init_rwsem s))
  | M_set_do_stuff => Ok (set_main (M_for 0) (atomic_set a_do_stuff 1 s))
  | M_for loop =>
      Ok (set_main (if loop <? 20 then M_if Read loop else M_init_timer) s)
  | M_if k loop =>
      Ok (set_main (if below_num k loop then M_init_completion k loop
                    else after_if k loop) s)
  | M_init_completion k loop =>
      let a := comp k s in
      match a !! Z.to_nat loop with
      | Some _ =>
          Ok (set_main (M_kernel_thread k loop)
                (set_comp k (<[Z.to_nat loop := 0]> a) s))
      | None => Fault
      end
  | M_kernel_thread k loop =>
      Ok (set_main (after_if k loop)
            (set_threads (threads s ++ [Thread k (to_ulong 32 loop) T_daemonize]) s))
  | M_init_timer =>
      Ok (set_main M_timer_function (set_timer (timer_function s) false s))
  | M_timer_function =>
      Ok (set_main M_timer_expires (set_timer (Some h_stop_test) (timer_pending s) s))
  | M_timer_expires => Ok (set_main M_add_timer s)
  | M_add_timer =>
      Ok (set_main (M_join Read 0) (set_timer (timer_function s) true s))
  | M_join k loop =>
      Ok (set_main (if below_num k loop then M_wait k loop else after_join k) s)
  | M_wait k loop =>
      let a := comp k s in
      match a !! Z.to_nat loop with
      | Some d =>
          if 0 <? d
          then Ok (set_main (M_join k (to_ulong BITS_PER_LONG (loop + 1)))
                     (set_comp k (<[Z.to_nat loop := d - 1]> a) s))
          else Blocked
      | None => Fault
      end
  | M_clear_do_stuff => Ok (set_main M_del_timer (atomic_set a_do_stuff 0 s))
  | M_del_timer =>
      Ok (set_main M_print_counter (set_timer (timer_function s) false s))
  | M_print_counter =>
      Ok (set_main M_print_reads (printk (msg_counter (rwsem_sem s)) s))
  | M_print_reads =>
      Ok (set_main M_print_writes
            (printk (msg_reads_taken (atomic_read a_reads_taken s)) s))
  | M_print_writes =>
      Ok (set_main M_print_downgrades
            (printk (msg_writes_taken (atomic_read a_writes_taken s)) s))
  | M_print_downgrades =>
      Ok (set_main M_return
            (printk (msg_downgrades_taken (atomic_read a_downgrades_taken s)) s))
  | M_return => Ok (set_main (M_returned (wrap_int (- ENOANO))) s)
  | M_returned _ => Blocked
  end.

(** The pending timer expires: it is taken off the timer list and its
    function runs.  When that happens is left open; the expiry time
    [jiffies + elapse * HZ] only delays it. *)
Definition step_timer (s : state) : result state :=
  if timer_pending s then
    match timer_function s with
    | Some h_stop_test => Ok (stop_test (set_timer (timer_function s) false s))
    | None => Fault
    end
  else Blocked.

Definition step (a : agent) (s : state) : result (event * state) :=
  match a with
  | Main =>
      match step_main s with
      | Ok s' => Ok (E_main (main s), s')
      | Blocked => Blocked
      | Fault => Fault
      end
  | Timer =>
      match step_timer s with
      | Ok s' => Ok (E_timer, s')
      | Blocked => Blocked
      | Fault => Fault
      end
  | Thr i =>
      match step_thread i s with
      | Ok (a, s') => Ok (E_thread i a, s')
      | Blocked => Blocked
      | Fault => Fault
      end
  end.

(** The runs of the module from the moment it is loaded, with the events
    in the order they happened. *)
Inductive Run : list event -> state -> Prop :=
| Run_loaded : Run [] loaded
| Run_step tr s a e s' :
    Run tr s -> step a s = Ok (e, s') -> Run (tr ++ [e]) s'.

(** Running a schedule: the agents step in the given order; the result is
    the events they produce and the state reached. *)
Fixpoint exec (sch : list agent) (s : state) : option (list event * state) :=
  match sch with
  | [] => Some ([], s)
  | a :: sch' =>
      match step a s with
      | Ok (e, s') =>
          match exec sch' s' with
          | Some (tr, s'') => Some (e :: tr, s'')
          | None => None
          end
      | _ => None
      end
  end.

(** The run a schedule gives from the loaded module; a schedule that asks a
    waiting agent to step gives the empty run. *)
Definition run_of (sch : list agent) : list event * state :=
  match exec sch loaded with
  | Some r => r
  | None => ([], loaded)
  end.

(** ** Who holds what *)

(** A thread's place in the program text tells what it holds: it holds the
    semaphore for reading when the next semaphore operation it will run is
    [up_read], for writing when it is [up_write] or [downgrade_write]; it is
    counted in [readers] (or [writers]) when the next update of that counter
    it will run is the decrement. *)
Definition is_sem (st : stmt) : bool :=
  match st with
  | DownRead | UpRead | DownWrite | UpWrite | DowngradeWrite => true
  | _ => false
  end.

Fixpoint next_sem (k : list op) : option stmt :=
  match k with
  | [] => None
  | (_, st) :: k' => if is_sem st then Some st else next_sem k'
  end.

Definition updates (v : atomic_var) (st : stmt) : bool :=
  match st with
  | AtomicInc v' | AtomicDec v' => bool_decide (v' = v)
  | _ => false
  end.

Fixpoint next_update (v : atomic_var) (k : list op) : option stmt :=
  match k with
  | [] => None
  | (_, st) :: k' => if updates v st then Some st else next_update v k'
  end.

Definition holds_read (pc : tpc) : bool :=
  match pc with
  | T_run k => match next_sem k with Some UpRead => true | _ => false end
  | _ => false
  end.

Definition holds_write (pc : tpc) : bool :=
  match pc with
  | T_run k =>
      match next_sem k with
      | Some UpWrite | Some DowngradeWrite => true
      | _ => false
      end
  | _ => false
  end.

Definition counted (v : atomic_var) (pc : tpc) : bool :=
  match pc with
  | T_run k =>
      match next_update v k with Some (AtomicDec _) => true | _ => false end
  | _ => false
  end.

Definition exited (pc : tpc) : bool :=
  match pc with T_exited => true | _ => false end.

Fixpoint count_pc (p : tpc -> bool) (l : list thread) : Z :=
  match l with
  | [] => 0
  | t :: l' => (if p (tpc_of t) then 1 else 0) + count_pc p l'
  end.

Fixpoint tails {A : Type} (l : list A) : list (list A) :=
  match l with
  | [] => [[]]
  | _ :: l' => l :: tails l'
  end.

(** Every way of cutting a list in two. *)
Fixpoint splits {A : Type} (l : list A) : list (list A * list A) :=
  ([], l)
  :: match l with
     | [] => []
     | x :: l' => List.map (fun p => (x :: fst p, snd p)) (splits l')
     end.

(** The program counters a thread of kind [k] can have. *)
Definition pcs (k : kind) : list tpc :=
  T_daemonize :: T_printk :: T_complete :: T_exited
  :: map T_run (tails (body k)).

Definition key (t : thread) : kind * Z := (tkind t, targ t).

Definition pos (k : kind) : Z :=
  match k with Read => 0 | Write => 1 | Down => 2 end.

(** How far the spawn loop has got, counted in [if] statements passed. *)
Definition spawn_progress (pc : mpc) : Z :=
  match pc with
  | M_printk_start | M_init_rwsem | M_set_do_stuff => 0
  | M_for loop => 3 * loop
  | M_if k loop | M_init_completion k loop | M_kernel_thread k loop =>
      3 * loop + pos k
  | _ => 60
  end.

(** How far the three join loops have got. *)
Definition join_progress (pc : mpc) : Z :=
  match pc with
  | M_join k loop | M_wait k loop => 20 * pos k + loop
  | M_clear_do_stuff | M_del_timer | M_print_counter | M_print_reads
  | M_print_writes | M_print_downgrades | M_return | M_returned _ => 60
  | _ => 0
  end.

(** [kernel_thread] has been called for the thread [(k, N)]. *)
Definition spawned (pc : mpc) (k : kind) (N : Z) : Prop :=
  0 <= N < 20 /\ below_num k N = true /\ 3 * N + pos k < spawn_progress pc.

(** [wait_for_completion] has returned for the thread [(k, N)]. *)
Definition joined (pc : mpc) (k : kind) (N : Z) : bool :=
  20 * pos k + N <? join_progress pc.

Definition loop_of (pc : mpc) : Z :=
  match pc with
  | M_for loop | M_if _ loop | M_init_completion _ loop
  | M_kernel_thread _ loop | M_join _ loop | M_wait _ loop => loop
  | _ => 0
  end.

Definition main_ok (s : state) : Prop :=
  match main s with
  | M_for loop | M_join _ loop => 0 <= loop <= 20
  | M_if _ loop => 0 <= loop < 20
  | M_init_completion k loop => 0 <= loop < 20 /\ below_num k loop = true
  | M_kernel_thread k loop =>
      0 <= loop < 20 /\ below_num k loop = true
      /\ comp k s !! Z.to_nat loop = Some 0
  | M_wait k loop => 0 <= loop <= 20 /\ below_num k loop = true
  | M_timer_expires | M_add_timer => timer_function s = Some h_stop_test
  | _ => True
  end.

Definition lock_ok (W R occupancy : Z) : Prop :=
  (W = 0 /\ occupancy = R) \/ (W = 1 /\ R = 0 /\ occupancy = -1).

Definition b2z (b : bool) : Z := if b then 1 else 0.

Definition keys (s : state) : list (kind * Z) := key <$> threads s.

(** The thread table holds exactly the threads spawned so far, once each. *)
Record InvSpawn (s : state) : Prop := {
  inv_spawned : forall k N, (k, N) ∈ keys s -> spawned (main s) k N;
  inv_all : forall k N, spawned (main s) k N -> (k, N) ∈ keys s;
  inv_nodup : NoDup (keys s);
  inv_length : Z.of_nat (length (threads s)) <= spawn_progress (main s)
}.

(** The semaphore and the two occupancy counters agree with the places
    the threads are at. *)
Record InvLock (s : state) : Prop := {
  inv_pcs : forall i t, threads s !! i = Some t -> In (tpc_of t) (pcs (tkind t));
  inv_lock : lock_ok (count_pc holds_write (threads s))
               (count_pc holds_read (threads s)) (rwsem_sem s);
  inv_readers : readers s = count_pc (counted a_readers) (threads s);
  inv_writers : writers s = count_pc (counted a_writers) (threads s)
}.

(** A completion is pending exactly when its thread has exited and has not
    been waited for yet; only exited threads have been waited for. *)
Record InvJoin (s : state) : Prop := {
  inv_main : main_ok s;
  inv_comp_len : forall k, length (comp k s) = NCOMP;
  inv_comp : forall i t, threads s !! i = Some t ->
      comp (tkind t) s !! Z.to_nat (targ t)
      = Some (b2z (exited (tpc_of t) && negb (joined (main s) (tkind t) (targ t))));
  inv_joined : forall i t, threads s !! i = Some t ->
      joined (main s) (tkind t) (targ t) = true -> exited (tpc_of t) = true;
  inv_timer : timer_pending s = true -> timer_function s = Some h_stop_test
}.

Record Inv (s : state) : Prop := {
  inv_spawn : InvSpawn s;
  inv_sem : InvLock s;
  inv_join : InvJoin s
}.

(** ** Observations on traces *)

Fixpoint thread_actions (i : nat) (tr : list event) : list action :=
  match tr with
  | [] => []
  | E_thread j a :: tr' =>
      if decide (j = i) then a :: thread_actions i tr' else thread_actions i tr'
  | _ :: tr' => thread_actions i tr'
  end.

Fixpoint count_act (a : action) (l : list action) : Z :=
  match l with
  | [] => 0
  | b :: l' => (if decide (b = a) then 1 else 0) + count_act a l'
  end.

Fixpoint all_actions (tr : list event) : list action :=
  match tr with
  | [] => []
  | E_thread _ a :: tr' => a :: all_actions tr'
  | _ :: tr' => all_actions tr'
  end.

(** The statement on which a call of [f] returns. *)
Definition return_of (f : func) : op :=
  match f with
  | Fdr => (Fdr, CheckA a_writers 0)
  | Fur => (Fur, UpRead)
  | Fdw => (Fdw, CheckA a_readers 0)
  | Fuw => (Fuw, UpWrite)
  | Fdgw => (Fdgw, AtomicInc a_downgrades_taken)
  | Fsched => (Fsched, Schedule)
  end.

(** How many calls of [f], by any thread, have completed in the trace. *)
Definition completed (f : func) (tr : list event) : Z :=
  count_act (A_op (return_of f)) (all_actions tr).

(** Whether the event is a return from [f]. *)
Definition is_return (f : func) (e : event) : Z :=
  match e with
  | E_thread _ a => if decide (a = A_op (return_of f)) then 1 else 0
  | _ => 0
  end.

(** The counter that a call of [f] bumps. *)
Definition taken_var (f : func) : atomic_var :=
  match f with
  | Fdr | Fur | Fsched => a_reads_taken
  | Fdw | Fuw => a_writes_taken
  | Fdgw => a_downgrades_taken
  end.

(** The thread is inside [f] and has bumped the counter [v] already. *)
Definition in_flight (f : func) (v : atomic_var) (pc : tpc) : bool :=
  match pc with
  | T_run ((f', st) :: k) =>
      bool_decide (f' = f)
      && match next_update v ((f', st) :: k) with None => true | _ => false end
  | _ => false
  end.

(** The acquire/release cycle of each kind of thread, and what one pass
    through the loop executes. *)
Definition cycle (k : kind) : list op :=
  match k with
  | Read => dr ++ ur
  | Write => dw ++ uw
  | Down => dw ++ dgw ++ ur
  end.

Definition sched_run : list op :=
  if do_sched cfg =? 0 then [(Fsched, IfDoSched)] else sched.

Definition iteration (k : kind) : list action :=
  A_test true :: (A_op <$> cycle k ++ sched_run).

(** The part of the current iteration that has been executed when the
    statements [rest] remain. *)
Definition partial (k : kind) (rest : list op) : list action :=
  match rest with
  | [] => []
  | _ => A_test true
         :: (A_op <$> take (length (body k) - length rest) (body k))
  end.

Definition exit_actions (pc : tpc) : list action :=
  match pc with
  | T_printk => [A_test false]
  | T_complete => [A_test false; A_printk]
  | T_exited => [A_test false; A_printk; A_complete]
  | _ => []
  end.

(** The actions a thread of kind [k] at [pc] has performed after [n] full
    passes through its loop. *)
Definition history (k : kind) (n : nat) (pc : tpc) : list action :=
  match pc with
  | T_daemonize => []
  | T_run rest =>
      A_daemonize :: concat (replicate n (iteration k)) ++ partial k rest
  | _ => A_daemonize :: concat (replicate n (iteration k)) ++ exit_actions pc
  end.

Definition is_check_failed (m : msg) : bool :=
  match m with msg_check_failed _ _ _ _ => true | _ => false end.

(** The join loops are over: every [wait_for_completion] has returned. *)
Definition all_joined (s : state) : Prop := join_progress (main s) = 60.

(** The init function has run its final [atomic_set(&do_stuff, 0)]. *)
Definition after_clear (pc : mpc) : bool :=
  match pc with
  | M_del_timer | M_print_counter | M_print_reads | M_print_writes
  | M_print_downgrades | M_return | M_returned _ => true
  | _ => false
  end.

(** The report lines printed so far by the end of [rwsem_init_module]. *)
Definition report (s : state) : list msg :=
  match main s with
  | M_print_reads => [msg_counter 0]
  | M_print_writes => [msg_counter 0; msg_reads_taken (reads_taken s)]
  | M_print_downgrades =>
      [msg_counter 0; msg_reads_taken (reads_taken s);
       msg_writes_taken (writes_taken s)]
  | M_return | M_returned _ =>
      [msg_counter 0; msg_reads_taken (reads_taken s);
       msg_writes_taken (writes_taken s);
       msg_downgrades_taken (downgrades_taken s)]
  | _ => []
  end.

(** The release that ends the acquire/release cycle of a thread. *)
Definition release_of (k : kind) : op :=
  match k with
  | Read | Down => (Fur, UpRead)
  | Write => (Fuw, UpWrite)
  end.

(** The thread has finished a cycle and has not been through [schedule]
    for it yet. *)
Definition yield_due (pc : tpc) : bool :=
  match pc with
  | T_run [(Fsched, IfDoSched); (Fsched, Schedule)]
  | T_run [(Fsched, Schedule)] => true
  | _ => false
  end.

(** What a thread has done since the last full pass through its loop. *)
Definition current (k : kind) (pc : tpc) : list action :=
  match pc with
  | T_daemonize => []
  | T_run rest => partial k rest
  | _ => exit_actions pc
  end.

(** Every thread's actions so far follow the shape of its loop. *)
Definition history_ok (tr : list event) (s : state) : Prop :=
  (forall i, (length (threads s) <= i)%nat -> thread_actions i tr = [])
  /\ (forall i t, threads s !! i = Some t ->
        exists n, thread_actions i tr = history (tkind t) n (tpc_of t)
                  /\ (tpc_of t = T_run [(Fsched, Schedule)] ->
                      do_sched cfg <> 0)).

(** What a thread step leaves alone. *)
Definition comp_effect (t : thread) (pc' : tpc) (s s' : state) : Prop :=
  (tpc_of t = T_complete /\ pc' = T_exited
   /\ exists d, comp (tkind t) s !! Z.to_nat (targ t) = Some d
      /\ forall k, comp k s' =
           if decide (k = tkind t)
           then <[Z.to_nat (targ t) := d + 1]> (comp k s) else comp k s)
  \/ (exited (tpc_of t) = false /\ exited pc' = false
      /\ forall k, comp k s' = comp k s).

(** ** Work left *)

(** [rwsem_init_module] has armed the timer and is waiting for the threads,
    or is past that. *)
Definition joining (pc : mpc) : bool :=
  match pc with
  | M_join _ _ | M_wait _ _ | M_clear_do_stuff | M_del_timer | M_print_counter
  | M_print_reads | M_print_writes | M_print_downgrades | M_return
  | M_returned _ => true
  | _ => false
  end.

(** A bound on the number of statements [rwsem_init_module] has still to
    execute. *)
Definition main_left (pc : mpc) : Z :=
  match pc with
  | M_printk_start => 602
  | M_init_rwsem => 601
  | M_set_do_stuff => 600
  | M_for loop => 319 + 10 * (20 - loop)
  | M_if k loop => 318 - 3 * pos k + 10 * (20 - loop)
  | M_init_completion k loop => 317 - 3 * pos k + 10 * (20 - loop)
  | M_kernel_thread k loop => 316 - 3 * pos k + 10 * (20 - loop)
  | M_init_timer => 303
  | M_timer_function => 302
  | M_timer_expires => 301
  | M_add_timer => 300
  | M_join k loop => 11 + 100 * (2 - pos k) + 2 * (20 - loop)
  | M_wait k loop => 10 + 100 * (2 - pos k) + 2 * (20 - loop)
  | M_clear_do_stuff => 7
  | M_del_timer => 6
  | M_print_counter => 5
  | M_print_reads => 4
  | M_print_writes => 3
  | M_print_downgrades => 2
  | M_return => 1
  | M_returned _ => 0
  end.

(** The number of statements a thread has still to execute once [do_stuff]
    is clear (one less where [sched] skips the call of [schedule]). *)
Definition thread_left (pc : tpc) : Z :=
  match pc with
  | T_daemonize => 4
  | T_run k => 3 + Z.of_nat (length k)
  | T_printk => 2
  | T_complete => 1
  | T_exited => 0
  end.

Fixpoint sum_pc (f : tpc -> Z) (l : list thread) : Z :=
  match l with
  | [] => 0
  | t :: l' => f (tpc_of t) + sum_pc f l'
  end.

Definition work_left (s : state) : Z :=
  main_left (main s) + sum_pc thread_left (threads s).

(** ** The timer and the flag *)

(** How many times the timer has fired in the trace. *)
Fixpoint timer_events (tr : list event) : Z :=
  match tr with
  | [] => 0
  | E_timer :: tr' => 1 + timer_events tr'
  | _ :: tr' => timer_events tr'
  end.

(** [rwsem_init_module] has run its [atomic_set(&do_stuff, 1)]. *)
Definition started (pc : mpc) : bool :=
  match pc with
  | M_printk_start | M_init_rwsem | M_set_do_stuff => false
  | _ => true
  end.

(** [rwsem_init_module] has run its [del_timer]. *)
Definition after_del (pc : mpc) : bool :=
  match pc with
  | M_print_counter | M_print_reads | M_print_writes | M_print_downgrades
  | M_return | M_returned _ => true
  | _ => false
  end.

(** The thread has left its loop. *)
Definition past_loop (pc : tpc) : bool :=
  match pc with
  | T_printk | T_complete | T_exited => true
  | _ => false
  end.

(** ** What the log holds *)

(** The first line of the log, once printed. *)
Definition banner (pc : mpc) : list msg :=
  match pc with
  | M_printk_start => []
  | _ => [msg_starting]
  end.

(** The "done" lines of the threads, in the order of their [printk] in the
    trace; [ks] gives kind and index of each thread of the table. *)
Fixpoint done_lines (ks : list (kind * Z)) (tr : list event) : list msg :=
  match tr with
  | [] => []
  | E_thread i A_printk :: tr' =>
      match ks !! i with
      | Some (k, N) => msg_done k N :: done_lines ks tr'
      | None => done_lines ks tr'
      end
  | _ :: tr' => done_lines ks tr'
  end.

(** The "done" line that the event adds to the log, if any. *)
Definition done_line (ks : list (kind * Z)) (e : event) : list msg :=
  match e with
  | E_thread i A_printk =>
      match ks !! i with Some (k, N) => [msg_done k N] | None => [] end
  | _ => []
  end.

(** The thread has printed its "done" line. *)
Definition done_printed (pc : tpc) : bool :=
  match pc with
  | T_complete | T_exited => true
  | _ => false
  end.

(** The line is one of the four report lines of [rwsem_init_module]. *)
Definition is_report (m : msg) : bool :=
  match m with
  | msg_counter _ | msg_reads_taken _ | msg_writes_taken _
  | msg_downgrades_taken _ => true
  | _ => false
  end.

(** ** Semaphore operations in a trace *)

Definition is_stmt (st : stmt) (e : event) : Z :=
  match e with
  | E_thread _ (A_op (_, st')) => if decide (st' = st) then 1 else 0
  | _ => 0
  end.

(** How many times the statement [st] has been executed, by any thread. *)
Fixpoint count_stmt (st : stmt) (tr : list event) : Z :=
  match tr with
  | [] => 0
  | e :: tr' => is_stmt st e + count_stmt st tr'
  end.

(** ** Writes and downgrades *)

(** The thread is a downgrader that has come back from [dw] and has not yet
    bumped [downgrades_taken] for it. *)
Definition owes_downgrade (pc : tpc) : bool :=
  match pc with
  | T_run k =>
      existsb (fun o => bool_decide (o = return_of Fdgw)) k
      && negb (existsb (fun o => bool_decide (o = return_of Fdw)) k)
  | _ => false
  end.

(** ** Configurations, schedules and states used as examples *)

(** The default parameters, with one thread of each kind. *)
Definition cfg111 : config := Config 1 1 1 5 0.

(** The same with [do_sched] set. *)
Definition cfg_yield : config := Config 1 1 1 5 1.

(** One reader above the size of the completion arrays. *)
Definition cfg21 : config := Config 21 0 0 5 0.

(** A single reader. *)
Definition cfg_reader : config := Config 1 0 0 5 0.

(** With [cfg111] the init function spawns the three threads, arms the timer
    and comes to rest at the first [wait_for_completion]. *)
Definition sched_spawn : list agent := repeat Main 95.

(** The writer has taken the semaphore and bumped [writers]. *)
Definition sched_writing : list agent := sched_spawn ++ repeat (Thr 1) 5.

(** The downgrader stands at [downgrade_write]. *)
Definition sched_downgrading : list agent := sched_spawn ++ repeat (Thr 2) 11.

(** Each thread makes one pass through its loop, the timer fires, the
    threads exit and the init function joins them, reports and returns. *)
Definition sched_full : list agent :=
  sched_spawn ++ repeat (Thr 0) 10 ++ repeat (Thr 1) 12 ++ repeat (Thr 2) 17
  ++ [Timer] ++ repeat (Thr 0) 3 ++ repeat (Thr 1) 3 ++ repeat (Thr 2) 3
  ++ repeat Main 15.

(** With [cfg_yield]: the reader makes one full pass, [schedule] included. *)
Definition sched_yield : list agent := sched_spawn ++ repeat (Thr 0) 11.

(** With [cfg21]: twenty readers are spawned and exit, and the init function
    joins them and stands at the wait for the twenty-first. *)
Definition sched_21 : list agent :=
  repeat Main 129 ++ [Timer]
  ++ concat (List.map (fun i => repeat (Thr i) 4) (seq 0 20))
  ++ repeat Main 40.

(** With [cfg_reader]: the state in which the init function waits for the
    only reader, which is at its loop test with [reads_taken] at [r]. *)
Definition reader_looping (r : Z) : state :=
  State 0 0 0 1 r 0 0 (replicate NCOMP 0) (replicate NCOMP 0)
    (replicate NCOMP 0) (Some h_stop_test) true [msg_starting]
    [Thread Read 0 (T_run [])] (M_wait Read 0).

(** The events of one pass of that reader through its loop. *)
Definition one_pass : list event :=
  E_thread 0
  <$> A_test true :: (A_op <$> dr ++ ur ++ [(Fsched, IfDoSched)]).

(** A state no run reaches: a reader is about to release while [writers]
    is 1. *)
Definition misuse_state : state :=
  State 1 1 1 1 1 0 0 (replicate NCOMP 0) (replicate NCOMP 0)
    (replicate NCOMP 0) (Some h_stop_test) true [msg_starting]
    [Thread Read 0 (T_run (ur ++ sched))] (M_wait Read 0).

(** No thread at all. *)
Definition cfg000 : config := Config 0 0 0 5 0.

(** A negative count of readers. *)
Definition cfg_neg : config := Config (-1) 0 0 5 0.

(** With [cfg111]: the reader stands at the [up_read] of its first pass. *)
Definition sched_releasing : list agent := sched_spawn ++ repeat (Thr 0) 8.

(** With [cfg111]: the writer stands at the [up_write] of its first pass. *)
Definition sched_unlocking : list agent := sched_spawn ++ repeat (Thr 1) 10.

(** With [cfg111]: the timer has fired and the reader is at its loop test. *)
Definition sched_stopped : list agent := sched_spawn ++ [Timer; Thr 0].

(** With [cfg111]: the timer has fired and the reader has exited; the init
    function has not yet waited for it. *)
Definition sched_exited : list agent :=
  sched_spawn ++ [Timer] ++ repeat (Thr 0) 4.

(** With [cfg000]: the init function runs from start to return. *)
Definition sched_alone : list agent := repeat Main 98.

(** With [cfg111]: the writer holds the semaphore and the reader has come
    to its [down_read]. *)
Definition sched_waiting : list agent := sched_writing ++ repeat (Thr 0) 2.

(** * Proofs *)

Hypothesis long_bits : 32 <= BITS_PER_LONG.

Lemma wrap_int_small z : - 2 ^ 31 <= z < 2 ^ 31 -> wrap_int z = z.
Proof.
  intros H. unfold wrap_int. rewrite Z.mod_small; lia.
Qed.

Lemma wrap_int_idem z : wrap_int (wrap_int z) = wrap_int z.
Proof.
  apply wrap_int_small. unfold wrap_int.
  pose proof (Z.mod_pos_bound (z + 2 ^ 31) (2 ^ 32)). lia.
Qed.

Lemma wrap_int_succ z : wrap_int (wrap_int z + 1) = wrap_int (z + 1).
Proof.
  unfold wrap_int.
  replace (((z + 2 ^ 31) mod 2 ^ 32 - 2 ^ 31 + 1 + 2 ^ 31))
    with ((z + 2 ^ 31) mod 2 ^ 32 + 1) by lia.
  replace (z + 1 + 2 ^ 31) with ((z + 2 ^ 31) + 1) by lia.
  rewrite Zplus_mod_idemp_l. reflexivity.
Qed.

Lemma to_ulong_small z : 0 <= z < 2 ^ 32 -> to_ulong BITS_PER_LONG z = z.
Proof.
  intros H. unfold to_ulong. apply Z.mod_small.
  assert (2 ^ 32 <= 2 ^ BITS_PER_LONG) by (apply Z.pow_le_mono_r; lia).
  lia.
Qed.

Lemma to_uint_small z : 0 <= z < 2 ^ 32 -> to_ulong 32 z = z.
Proof. intros H. unfold to_ulong. apply Z.mod_small. lia. Qed.

Lemma count_pc_app p l1 l2 :
  count_pc p (l1 ++ l2) = count_pc p l1 + count_pc p l2.
Proof. induction l1 as [|t l1 IH]; simpl; lia. Qed.

Lemma count_pc_bounds p l : 0 <= count_pc p l <= Z.of_nat (length l).
Proof.
  induction l as [|t l IH]; simpl; [lia|].
  destruct (p (tpc_of t)); lia.
Qed.

Lemma count_pc_insert p l i k N pc0 pc :
  l !! i = Some (Thread k N pc0) ->
  count_pc p (<[i := Thread k N pc]> l)
  = count_pc p l - b2z (p pc0) + b2z (p pc).
Proof.
  revert i. induction l as [|t0 l IH]; intros [|i] H; simpl in *; try discriminate.
  - injection H as ->. simpl. unfold b2z. destruct (p pc0), (p pc); lia.
  - rewrite (IH _ H). lia.
Qed.

Lemma count_pc_zero p l :
  (forall i t, l !! i = Some t -> p (tpc_of t) = false) -> count_pc p l = 0.
Proof.
  induction l as [|t l IH]; intros H; simpl; [reflexivity|].
  rewrite (H 0%nat t eq_refl). rewrite IH; [lia|].
  intros i t' Hi. apply (H (S i) t' Hi).
Qed.


Lemma exec_stmt_frame f st s s0 :
  exec_stmt f st s = Some s0 ->
  threads s0 = threads s /\ main s0 = main s
  /\ timer_function s0 = timer_function s /\ timer_pending s0 = timer_pending s
  /\ (forall k, comp k s0 = comp k s).
Proof.
  destruct st; simpl; unfold down_sem, RWSem.down_read, RWSem.down_write, CHECKA;
    intros H;
    repeat match type of H with
           | context [if ?b then _ else _] => destruct b
           end;
    inversion H; subst; simpl; repeat split; intros []; reflexivity.
Qed.

Lemma count_pc_lookup p l i t :
  l !! i = Some t -> b2z (p (tpc_of t)) <= count_pc p l.
Proof.
  revert i. induction l as [|t0 l IH]; intros [|i] H; simpl in *; try discriminate.
  - injection H as ->. pose proof (count_pc_bounds p l). unfold b2z.
    destruct (p (tpc_of t)); lia.
  - specialize (IH _ H). destruct (p (tpc_of t0)); lia.
Qed.

Lemma spawn_progress_max s : main_ok s -> 0 <= spawn_progress (main s) <= 60.
Proof.
  unfold main_ok. destruct (main s) as [| | | |[] ?|[] ?|[] ?| | | | | | | | | | | | | |];
    simpl; lia.
Qed.

Ltac thread_cases H Hi Hpc :=
  match type of Hi with
  | _ !! _ = Some ?t =>
      destruct t as [k N pc]; simpl in Hpc, H;
      destruct k; simpl in Hpc;
      repeat (destruct Hpc as [Hpc|Hpc]; [subst pc; simpl in H|]);
      try contradiction
  end.

Ltac split_guards H :=
  unfold down_sem, RWSem.down_read, RWSem.down_write in H;
  repeat match type of H with
         | context [if ?b then _ else _] => destruct b eqn:?
         | context [match ?o with Some _ => _ | None => _ end] =>
             destruct o eqn:?
         end;
  try discriminate; inversion H; subst; clear H.

Lemma step_thread_frame i s a s' :
  step_thread i s = Ok (a, s') ->
  exists t pc',
    threads s !! i = Some t
    /\ threads s' = <[i := Thread (tkind t) (targ t) pc']> (threads s)
    /\ main s' = main s
    /\ timer_function s' = timer_function s
    /\ timer_pending s' = timer_pending s
    /\ comp_effect t pc' s s'.
Proof.
  unfold step_thread. intros H.
  destruct (threads s !! i) as [t|] eqn:Hi; [|discriminate].
  exists t. unfold comp_effect.
  destruct (tpc_of t) as [|[|[f st] k]| | |] eqn:Hpc; try discriminate.
  - inversion H; subst. eexists; repeat split; try reflexivity.
    right. repeat split; intros []; reflexivity.
  - inversion H; subst. eexists; repeat split; try reflexivity.
    right. destruct (negb _); repeat split; intros []; reflexivity.
  - destruct (exec_stmt f st s) as [s0|] eqn:He; [|discriminate].
    apply exec_stmt_frame in He as (Ht & Hm & Hf & Hp & Hc).
    inversion H; subst. eexists; repeat split; simpl; try eassumption.
    + rewrite Ht. reflexivity.
    + right. repeat split. intros k0. rewrite <- Hc. destruct k0; reflexivity.
  - inversion H; subst. eexists; repeat split; try reflexivity.
    right. repeat split; intros []; reflexivity.
  - destruct (comp (tkind t) s !! Z.to_nat (targ t)) as [d|] eqn:Hd; [|discriminate].
    inversion H; subst. eexists; repeat split; try reflexivity.
    left. repeat split. exists d. split; [reflexivity|].
    intros k0. simpl. destruct (tkind t), k0; reflexivity.
Qed.

Lemma keys_insert (l : list thread) (i : nat) (t : thread) pc :
  l !! i = Some t ->
  key <$> <[i := Thread (tkind t) (targ t) pc]> l = key <$> l.
Proof.
  intros H. rewrite list_fmap_insert. apply list_insert_id.
  rewrite list_lookup_fmap, H. reflexivity.
Qed.

Lemma thread_spawn i s a s' :
  Inv s -> step_thread i s = Ok (a, s') -> InvSpawn s'.
Proof.
  intros [[H1 H2 H3 H4] _ _] H.
  apply step_thread_frame in H as (t & pc' & Hi & Ht & Hm & _).
  assert (Hk : keys s' = keys s).
  { unfold keys. rewrite Ht. apply keys_insert, Hi. }
  constructor; rewrite ?Hk, ?Hm; try assumption.
  rewrite Ht, length_insert. assumption.
Qed.

Lemma pcs_insert (l : list thread) i k N pc0 pc :
  l !! i = Some (Thread k N pc0) ->
  (forall j t, l !! j = Some t -> In (tpc_of t) (pcs (tkind t))) ->
  In pc (pcs k) ->
  forall j t, <[i := Thread k N pc]> l !! j = Some t ->
              In (tpc_of t) (pcs (tkind t)).
Proof.
  intros Hi Hall Hpc j t Hj. destruct (decide (i = j)) as [->|Hne].
  - rewrite list_lookup_insert_eq in Hj by (eapply lookup_lt_Some; eauto).
    injection Hj as <-. exact Hpc.
  - rewrite list_lookup_insert_ne in Hj by assumption. eauto.
Qed.

Lemma thread_lock i s a s' :
  Inv s -> step_thread i s = Ok (a, s') -> InvLock s'.
Proof.
  intros HI H. unfold step_thread in H.
  destruct (threads s !! i) as [t|] eqn:Hi; [|discriminate].
  pose proof (inv_pcs _ (inv_sem _ HI)) as Hall.
  pose proof (Hall _ _ Hi) as Hpc.
  pose proof (inv_readers _ (inv_sem _ HI)) as Hr.
  pose proof (inv_writers _ (inv_sem _ HI)) as Hw.
  pose proof (inv_length _ (inv_spawn _ HI)) as Hlen.
  pose proof (spawn_progress_max _ (inv_main _ (inv_join _ HI))) as Hmax.
  pose proof (inv_lock _ (inv_sem _ HI)) as Hl.
  pose proof (count_pc_lookup holds_write _ _ _ Hi) as HW.
  pose proof (count_pc_lookup holds_read _ _ _ Hi) as HR.
  pose proof (count_pc_bounds (counted a_readers) (threads s)) as Hbr.
  pose proof (count_pc_bounds (counted a_writers) (threads s)) as Hbw.
  pose proof (count_pc_bounds holds_read (threads s)) as HbR.
  pose proof (count_pc_bounds holds_write (threads s)) as HbW.
  thread_cases H Hi Hpc.
  all: split_guards H.
  all: unfold set_pc, CHECKA, atomic_inc, atomic_dec, RWSem.up_read,
         RWSem.up_write, RWSem.downgrade_write; simpl.
  all: repeat match goal with
         | |- context [if ?b then _ else _] => destruct b eqn:?
         end; simpl.
  all: constructor; simpl;
    [ apply (pcs_insert _ _ _ _ _ _ Hi Hall); simpl; tauto | | | ].
  all: rewrite !(count_pc_insert _ _ _ _ _ _ _ Hi); simpl in *.
  all: unfold lock_ok, b2z in *.
  all: rewrite ?wrap_int_small by lia.
  all: lia.
Qed.

Lemma thread_spawned s i t :
  InvSpawn s -> threads s !! i = Some t -> spawned (main s) (tkind t) (targ t).
Proof.
  intros HI Hi. apply (inv_spawned _ HI). unfold keys.
  apply (list_elem_of_fmap_2' key _ t); [|reflexivity].
  eapply list_elem_of_lookup_2; eauto.
Qed.

Lemma thread_unique s i j t t' :
  InvSpawn s -> threads s !! i = Some t -> threads s !! j = Some t' ->
  key t = key t' -> i = j.
Proof.
  intros HI Hi Hj Hk.
  apply (NoDup_lookup (keys s) i j (key t) (inv_nodup _ HI)); unfold keys;
    rewrite list_lookup_fmap.
  - rewrite Hi. reflexivity.
  - rewrite Hj, Hk. reflexivity.
Qed.

Lemma main_ok_frame s s' :
  main s' = main s -> timer_function s' = timer_function s ->
  (forall k loop, main s = M_kernel_thread k loop ->
     comp k s' !! Z.to_nat loop = comp k s !! Z.to_nat loop) ->
  main_ok s -> main_ok s'.
Proof.
  unfold main_ok. intros Hm Hf Hc. rewrite Hm, Hf.
  destruct (main s); try tauto.
  rewrite (Hc _ _ eq_refl). tauto.
Qed.

Lemma thread_join i s a s' :
  Inv s -> step_thread i s = Ok (a, s') -> InvJoin s'.
Proof.
  intros HI H.
  apply step_thread_frame in H as (t & pc' & Hi & Ht & Hm & Hf & Hp & Hc).
  pose proof (thread_spawned _ _ _ (inv_spawn _ HI) Hi) as (Hr & _ & Hsp).
  destruct (inv_join _ HI) as [J1 J2 J3 J4 J5].
  assert (Hlt : (i < length (threads s))%nat) by (eapply lookup_lt_Some; eauto).
  constructor.
  - apply (main_ok_frame s); try assumption.
    intros k loop Hk. destruct Hc as [(_ & _ & d & _ & Hc)|(_ & _ & Hc)];
      rewrite Hc; [|reflexivity].
    destruct (decide (k = tkind t)) as [->|]; [|reflexivity].
    apply list_lookup_insert_ne. rewrite Hk in Hsp; simpl in Hsp.
    unfold main_ok in J1. rewrite Hk in J1. lia.
  - intros k. destruct Hc as [(_ & _ & d & _ & Hc)|(_ & _ & Hc)];
      rewrite Hc; [|apply J2].
    destruct (decide _); [rewrite length_insert|]; apply J2.
  - intros j t' Hj. rewrite Hm. rewrite Ht in Hj.
    destruct (decide (i = j)) as [<-|Hne].
    + rewrite list_lookup_insert_eq in Hj by assumption.
      injection Hj as <-. simpl. specialize (J3 _ _ Hi).
      destruct Hc as [(Hpc & -> & d & Hd & Hc)|(He & He' & Hc)]; rewrite Hc.
      * rewrite decide_True by reflexivity.
        rewrite list_lookup_insert_eq
          by (eapply lookup_lt_Some; eauto).
        rewrite Hd in J3. rewrite Hpc in J3. simpl in J3. injection J3 as ->.
        destruct (joined (main s) (tkind t) (targ t)) eqn:Hjn; [|reflexivity].
        apply (J4 _ _ Hi) in Hjn. rewrite Hpc in Hjn. discriminate.
      * rewrite J3, He, He'. reflexivity.
    + rewrite list_lookup_insert_ne in Hj by assumption.
      specialize (J3 _ _ Hj).
      destruct Hc as [(Hpc & -> & d & Hd & Hc)|(He & He' & Hc)]; rewrite Hc;
        [|exact J3].
      destruct (decide (tkind t' = tkind t)) as [Hk|]; [|exact J3].
      rewrite list_lookup_insert_ne; [exact J3|].
      intros Hn.
      pose proof (thread_spawned _ _ _ (inv_spawn _ HI) Hj) as (Hr' & _).
      apply Hne. apply (thread_unique s i j t t' (inv_spawn _ HI) Hi Hj).
      unfold key. f_equal; [congruence|lia].
  - intros j t' Hj. rewrite Hm. rewrite Ht in Hj.
    destruct (decide (i = j)) as [<-|Hne].
    + rewrite list_lookup_insert_eq in Hj by assumption.
      injection Hj as <-. simpl. intros Hjn. apply (J4 _ _ Hi) in Hjn.
      destruct Hc as [(Hpc & -> & _)|(He & _)]; [reflexivity|congruence].
    + rewrite list_lookup_insert_ne in Hj by assumption. eauto.
  - rewrite Hf, Hp. exact J5.
Qed.

Lemma spawn_same s s' :
  threads s' = threads s ->
  (forall k N, spawned (main s') k N <-> spawned (main s) k N) ->
  spawn_progress (main s) <= spawn_progress (main s') ->
  InvSpawn s -> InvSpawn s'.
Proof.
  intros Ht Hs Hp [H1 H2 H3 H4]. unfold keys in *.
  constructor; unfold keys; rewrite Ht.
  - intros k N Hin. apply Hs, H1, Hin.
  - intros k N Hin. apply H2, Hs, Hin.
  - assumption.
  - lia.
Qed.

Ltac bool_arith :=
  repeat match goal with
    | H : (_ <? _) = true |- _ => apply Z.ltb_lt in H
    | H : (_ <? _) = false |- _ => apply Z.ltb_ge in H
    | H : (_ <=? _) = true |- _ => apply Z.leb_le in H
    | H : (_ <=? _) = false |- _ => apply Z.leb_gt in H
    | H : (_ =? _) = true |- _ => apply Z.eqb_eq in H
    | H : (_ =? _) = false |- _ => apply Z.eqb_neq in H
    end.

Ltac spawned_arith :=
  let Hr := fresh in
  let Hb := fresh in
  let Hlt := fresh in
  unfold spawned, after_if, after_join; simpl;
  rewrite ?to_ulong_small by lia;
  split; intros (Hr & Hb & Hlt); simpl in *;
  try match goal with
      | Hf : below_num ?k ?l = false, Ht : below_num ?k ?N = true |- _ =>
          assert (N <> l) by (intros ->; congruence)
      end;
  repeat split; first [assumption | lia].

Lemma step_main_spawn s s' :
  Inv s -> step_main s = Ok s' -> InvSpawn s'.
Proof.
  intros HI H.
  pose proof (inv_spawn _ HI) as HS.
  pose proof (inv_main _ (inv_join _ HI)) as Hm.
  unfold step_main in H. unfold main_ok in Hm.
  destruct (main s) as [| | |loop|k loop|k loop|k loop| | | | |k loop|k loop| | | | | | | |v] eqn:Hpc.
  all: split_guards H; bool_arith.
  all: try (apply (spawn_same s); [reflexivity| | |exact HS]; simpl; rewrite ?Hpc;
            [intros k' N'; try tauto|simpl; try lia]).
  all: try (destruct k, k'; spawned_arith).
  all: try (destruct k; unfold after_if, after_join; simpl; rewrite ?to_ulong_small by lia; lia).
  all: try (destruct k'; spawned_arith).
  destruct Hm as (Hr & Hb & _). destruct HS as [H1 H2 H3 H4].
  rewrite Hpc in *.
  assert (Hsp : forall k' N', spawned (after_if k loop) k' N'
            <-> spawned (M_kernel_thread k loop) k' N' \/ (k', N') = (k, loop)).
  { intros k' N'. unfold spawned.
    assert (Hp : spawn_progress (after_if k loop)
                 = spawn_progress (M_kernel_thread k loop) + 1).
    { destruct k; unfold after_if; simpl; rewrite ?to_ulong_small by lia; lia. }
    rewrite Hp. simpl. split.
    - intros (A & B & C).
      destruct (decide (3 * N' + pos k' < 3 * loop + pos k)); [left; tauto|].
      right. destruct k, k'; simpl in *; first [lia | f_equal; lia].
    - intros [(A & B & C)|E]; [repeat split; first [assumption|lia]|].
      injection E as -> ->. repeat split; first [assumption|lia]. }
  assert (Hk : key <$> threads s ++ [Thread k (to_ulong 32 loop) T_daemonize]
               = keys s ++ [(k, loop)]).
  { rewrite fmap_app. unfold key at 2. simpl. rewrite to_uint_small by lia.
    reflexivity. }
  constructor; unfold keys; simpl; rewrite ?Hk.
  - intros k' N'. rewrite elem_of_app, list_elem_of_singleton.
    intros [Hin|E]; apply Hsp; [left; apply H1, Hin|right; exact E].
  - intros k' N' Hs. apply Hsp in Hs as [Hs|E];
      rewrite elem_of_app, list_elem_of_singleton; [left; apply H2, Hs|right; exact E].
  - apply NoDup_app. repeat split; [assumption| |apply NoDup_singleton].
    intros [k' N'] Hin E%list_elem_of_singleton.
    injection E as -> ->. apply H1 in Hin. unfold spawned in Hin. simpl in Hin. lia.
  - rewrite length_app. simpl.
    assert (Hp : spawn_progress (after_if k loop)
                 = spawn_progress (M_kernel_thread k loop) + 1).
    { destruct k; unfold after_if; simpl; rewrite ?to_ulong_small by lia; lia. }
    lia.
Qed.


Lemma lock_same s s' :
  threads s' = threads s -> rwsem_sem s' = rwsem_sem s ->
  readers s' = readers s -> writers s' = writers s ->
  InvLock s -> InvLock s'.
Proof.
  intros Ht Hs Hr Hw [H1 H2 H3 H4].
  constructor; rewrite ?Ht, ?Hs, ?Hr, ?Hw; assumption.
Qed.

Lemma step_main_lock s s' :
  Inv s -> step_main s = Ok s' -> InvLock s'.
Proof.
  intros HI H.
  pose proof (inv_sem _ HI) as HL.
  pose proof (inv_length _ (inv_spawn _ HI)) as Hlen.
  unfold step_main in H.
  destruct (main s) as [| | |loop|k loop|k loop|k loop| | | | |k loop|k loop| | | | | | | |v] eqn:Hpc.
  all: split_guards H.
  all: try (apply (lock_same s); [reflexivity..|exact HL]).
  - (* init_rwsem *)
    simpl in Hlen. destruct (threads s) as [|t l] eqn:Ht; [|simpl in Hlen; lia].
    destruct HL as [H1 H2 H3 H4]. rewrite Ht in *.
    constructor; simpl; rewrite ?Ht; try assumption.
    left. split; reflexivity.
  - (* kernel_thread *)
    destruct HL as [H1 H2 H3 H4].
    constructor; simpl; rewrite ?count_pc_app; simpl; rewrite ?Z.add_0_r;
      try assumption.
    intros i t Hi. apply lookup_app_Some in Hi as [Hi|[_ Hi]];
      [exact (H1 _ _ Hi)|].
    apply list_lookup_singleton_Some in Hi as [_ <-]. simpl. tauto.
Qed.

Lemma join_same s s' :
  threads s' = threads s ->
  (forall k, comp k s' = comp k s) ->
  (forall i t, threads s !! i = Some t ->
     joined (main s') (tkind t) (targ t) = joined (main s) (tkind t) (targ t)) ->
  main_ok s' ->
  (timer_pending s' = true -> timer_function s' = Some h_stop_test) ->
  InvJoin s -> InvJoin s'.
Proof.
  intros Ht Hc Hj Hm Hp [J1 J2 J3 J4 J5].
  constructor; try assumption.
  - intros k. rewrite Hc. apply J2.
  - intros i t Hi. rewrite Ht in Hi. rewrite Hc, (Hj _ _ Hi). eauto.
  - intros i t Hi. rewrite Ht in Hi. rewrite (Hj _ _ Hi). eauto.
Qed.

Lemma comp_set_comp k k' l s :
  comp k' (set_comp k l s) = if decide (k' = k) then l else comp k' s.
Proof. destruct k, k'; reflexivity. Qed.

Lemma comp_set_main k pc s : comp k (set_main pc s) = comp k s.
Proof. destruct k; reflexivity. Qed.

Lemma comp_set_threads k l s : comp k (set_threads l s) = comp k s.
Proof. destruct k; reflexivity. Qed.

Lemma below_num_lt k N loop :
  below_num k N = true -> below_num k loop = false -> N < loop.
Proof. unfold below_num. lia. Qed.

Lemma pos_inj k k' : pos k = pos k' -> k = k'.
Proof. destruct k, k'; simpl; intros; first [reflexivity | lia]. Qed.

Lemma b2z_cases b : b2z b = 0 /\ b = false \/ b2z b = 1 /\ b = true.
Proof. destruct b; simpl; auto. Qed.

Lemma step_main_join s s' :
  Inv s -> step_main s = Ok s' -> InvJoin s'.
Proof.
  intros HI H.
  pose proof (inv_join _ HI) as HJ.
  pose proof (inv_main _ HJ) as Hm.
  pose proof (inv_timer _ HJ) as Htm.
  pose proof (fun i t => thread_spawned s i t (inv_spawn _ HI)) as Hsp.
  unfold step_main in H. unfold main_ok in Hm.
  destruct (main s) as [| | |loop|k loop|k loop|k loop| | | | |k loop|k loop| | | | | | | |v] eqn:Hpc.
  all: split_guards H; bool_arith.
  all: try (apply (join_same s);
            [ reflexivity
            | intros []; reflexivity
            | intros i t Hi; unfold joined; simpl; rewrite ?Hpc; reflexivity
            | unfold main_ok; simpl; try tauto; try lia
            | simpl; try tauto; try discriminate
            | exact HJ ]).
  - (* the [if] is not taken *)
    apply (join_same s); try exact HJ; try assumption.
    + reflexivity.
    + intros []; reflexivity.
    + intros i t Hi. unfold joined. simpl. rewrite Hpc.
      destruct k; reflexivity.
    + unfold main_ok. destruct k; unfold after_if; simpl;
        rewrite ?to_ulong_small by lia; lia.
  - (* init_completion *)
    destruct Hm as (Hr & Hb). destruct HJ as [J1 J2 J3 J4 J5].
    assert (Hl : (Z.to_nat loop < length (comp k s))%nat)
      by (rewrite J2; unfold NCOMP; lia).
    constructor; cbn [main set_main set_comp set_threads threads timer_pending timer_function]; try assumption.
    + unfold main_ok. cbn [main set_main]. split; [lia|split; [assumption|]].
      rewrite comp_set_main, comp_set_comp, decide_True by reflexivity.
      apply list_lookup_insert_eq, Hl.
    + intros k0. rewrite comp_set_main, comp_set_comp.
      destruct (decide _); [rewrite length_insert|]; apply J2.
    + intros i t Hi. rewrite comp_set_main, comp_set_comp.
      specialize (J3 _ _ Hi). rewrite Hpc in J3.
      destruct (Hsp _ _ Hi) as (Hr' & _ & Hlt). simpl in Hlt.
      destruct (decide (tkind t = k)) as [<-|]; [|exact J3].
      rewrite list_lookup_insert_ne by lia. exact J3.
    + intros i t Hi. specialize (J4 _ _ Hi). rewrite Hpc in J4. exact J4.
  - (* kernel_thread *)
    destruct Hm as (Hr & Hb & Hc). destruct HJ as [J1 J2 J3 J4 J5].
    assert (Hjp : join_progress (after_if k loop) = 0)
      by (destruct k; reflexivity).
    constructor; cbn [main set_main set_comp set_threads threads timer_pending timer_function]; try assumption.
    + unfold main_ok. destruct k; unfold after_if; simpl;
        rewrite ?to_ulong_small by lia; lia.
    + intros i t Hi. rewrite comp_set_main, comp_set_threads.
      unfold joined. rewrite Hjp.
      apply lookup_app_Some in Hi as [Hi|[_ Hi]].
      * specialize (J3 _ _ Hi). rewrite Hpc in J3. exact J3.
      * apply list_lookup_singleton_Some in Hi as [_ <-]. simpl.
        rewrite to_uint_small by lia. exact Hc.
    + intros i t Hi. unfold joined. rewrite Hjp.
      apply lookup_app_Some in Hi as [Hi|[_ Hi]].
      * specialize (J4 _ _ Hi). rewrite Hpc in J4. exact J4.
      * apply list_lookup_singleton_Some in Hi as [_ <-]. simpl.
        rewrite to_uint_small by lia. destruct k; simpl; lia.
  - (* a join loop ends *)
    apply (join_same s); try exact HJ; try assumption.
    + reflexivity.
    + intros []; reflexivity.
    + intros i t Hi. simpl. rewrite Hpc. unfold joined.
      destruct (Hsp _ _ Hi) as (Hr' & Hb' & _).
      assert (tkind t = k -> targ t < loop)
        by (intros <-; eapply below_num_lt; eauto).
      destruct k, (tkind t); unfold after_join; simpl in *;
        try specialize (H eq_refl); lia.
    + unfold main_ok. destruct k; unfold after_join; simpl; try tauto; lia.
  - (* wait_for_completion returns *)
    destruct Hm as (Hr & Hb). destruct HJ as [J1 J2 J3 J4 J5].
    assert (Hl : (Z.to_nat loop < length (comp k s))%nat)
      by (eapply lookup_lt_Some; eauto).
    rewrite J2 in Hl. unfold NCOMP in Hl.
    rewrite to_ulong_small by lia.
    assert (Hjn : forall k' N', 0 <= N' < 20 -> (k', N') <> (k, loop) ->
              joined (M_join k (loop + 1)) k' N' = joined (M_wait k loop) k' N').
    { intros k' N' HN Hne. unfold joined. simpl.
      assert (20 * pos k' + N' <> 20 * pos k + loop).
      { intros E. apply Hne. assert (pos k' = pos k) by lia.
        f_equal; [apply pos_inj; assumption|lia]. }
      lia. }
    constructor; cbn [main set_main set_comp set_threads threads timer_pending timer_function]; try assumption.
    + unfold main_ok. cbn [main set_main]. lia.
    + intros k0. rewrite comp_set_main, comp_set_comp.
      destruct (decide _); [rewrite length_insert|]; apply J2.
    + intros i t Hi. rewrite comp_set_main, comp_set_comp.
      specialize (J3 _ _ Hi). rewrite Hpc in J3.
      destruct (Hsp _ _ Hi) as (Hr' & _).
      destruct (decide ((tkind t, targ t) = (k, loop))) as [E|Hne].
      * injection E as <- <-. rewrite decide_True by reflexivity.
        rewrite list_lookup_insert_eq by (rewrite J2; unfold NCOMP; lia).
        rewrite J3 in Heqo. injection Heqo as <-.
        replace (joined (M_join (tkind t) (targ t + 1)) (tkind t) (targ t))
          with true by (unfold joined; simpl; lia).
        rewrite andb_false_r.
        destruct (b2z_cases (exited (tpc_of t)
                    && negb (joined (M_wait (tkind t) (targ t)) (tkind t) (targ t))))
          as [[E _]|[E _]]; rewrite E in *; [lia|reflexivity].
      * rewrite (Hjn _ _ Hr' Hne).
        destruct (decide (tkind t = k)) as [<-|]; [|exact J3].
        rewrite list_lookup_insert_ne; [exact J3|].
        intros E. apply Hne. f_equal. lia.
    + intros i t Hi.
      specialize (J3 _ _ Hi). rewrite Hpc in J3.
      specialize (J4 _ _ Hi). rewrite Hpc in J4.
      destruct (Hsp _ _ Hi) as (Hr' & _).
      destruct (decide ((tkind t, targ t) = (k, loop))) as [E|Hne].
      * injection E as <- <-. intros _.
        rewrite J3 in Heqo. injection Heqo as <-.
        destruct (exited (tpc_of t)); [reflexivity|simpl in *; lia].
      * rewrite (Hjn _ _ Hr' Hne). exact J4.
Qed.

Lemma step_timer_inv s s' : Inv s -> step_timer s = Ok s' -> Inv s'.
Proof.
  intros [HS HL HJ] H. unfold step_timer in H.
  destruct (timer_pending s); [|discriminate].
  destruct (timer_function s) as [[]|] eqn:Hf; [|discriminate].
  inversion H; subst; clear H. constructor.
  - apply (spawn_same s); simpl; try tauto; try lia.
  - apply (lock_same s); try reflexivity. exact HL.
  - apply (join_same s); try exact HJ; try reflexivity; try discriminate.
    apply (main_ok_frame s);
      [reflexivity|simpl; congruence|reflexivity|apply (inv_main _ HJ)].
Qed.

Lemma Inv_loaded : Inv loaded.
Proof.
  constructor.
  - constructor; unfold keys; simpl.
    + intros k N H. inversion H.
    + unfold spawned. simpl. intros [] N; simpl; lia.
    + constructor.
    + lia.
  - constructor; simpl; try reflexivity.
    + intros i t H. discriminate.
    + left. split; reflexivity.
  - constructor; simpl; try discriminate.
    + exact I.
    + intros []; reflexivity.
Qed.

Lemma Inv_step a s e s' : Inv s -> step a s = Ok (e, s') -> Inv s'.
Proof.
  intros HI H. destruct a as [| |i]; simpl in H.
  - destruct (step_main s) as [s0| |] eqn:Hs; try discriminate.
    inversion H; subst. constructor.
    + eapply step_main_spawn; eauto.
    + eapply step_main_lock; eauto.
    + eapply step_main_join; eauto.
  - destruct (step_timer s) as [s0| |] eqn:Hs; try discriminate.
    inversion H; subst. eapply step_timer_inv; eauto.
  - destruct (step_thread i s) as [[a s0]| |] eqn:Hs; try discriminate.
    inversion H; subst. constructor.
    + eapply thread_spawn; eauto.
    + eapply thread_lock; eauto.
    + eapply thread_join; eauto.
Qed.

Lemma Run_Inv tr s : Run tr s -> Inv s.
Proof.
  induction 1 as [|tr s a e s' _ IH Hs]; [apply Inv_loaded|].
  eapply Inv_step; eauto.
Qed.

(** ** Mutual exclusion *)

Lemma count_pc_le2 p1 p2 q1 q2 (l : list thread) :
  (forall i t, l !! i = Some t ->
     b2z (p1 (tpc_of t)) + b2z (p2 (tpc_of t))
     <= b2z (q1 (tpc_of t)) + b2z (q2 (tpc_of t))) ->
  count_pc p1 l + count_pc p2 l <= count_pc q1 l + count_pc q2 l.
Proof.
  induction l as [|t l IH]; intros H; simpl; [lia|].
  pose proof (H 0%nat t eq_refl) as H0.
  assert (IH' := IH (fun i t' Hi => H (S i) t' Hi)).
  unfold b2z in H0.
  destruct (p1 (tpc_of t)), (p2 (tpc_of t)), (q1 (tpc_of t)), (q2 (tpc_of t)); lia.
Qed.

Lemma pcs_counted k pc :
  In pc (pcs k) ->
  b2z (counted a_writers pc) <= b2z (holds_write pc)
  /\ b2z (counted a_readers pc) + b2z (counted a_writers pc)
     <= b2z (holds_read pc) + b2z (holds_write pc).
Proof.
  destruct k; simpl; intros H;
    repeat (destruct H as [H|H]; [subst pc; simpl; lia|]); contradiction.
Qed.

Lemma pcs_check k pc f v val rest :
  In pc (pcs k) -> pc = T_run ((f, CheckA v val) :: rest) ->
  (v = a_writers /\ val = 1 /\ counted a_writers pc = true)
  \/ (v = a_readers /\ val = 0 /\ counted a_writers pc = true)
  \/ (v = a_writers /\ val = 0 /\ holds_read pc = true).
Proof.
  destruct k; simpl; intros H E;
    repeat (destruct H as [H|H];
            [subst pc; try discriminate; injection E as <- <- <- <-; simpl; tauto|]);
    contradiction.
Qed.

Lemma writers_le_holders s :
  Inv s ->
  writers s <= count_pc holds_write (threads s)
  /\ readers s + writers s
     <= count_pc holds_read (threads s) + count_pc holds_write (threads s).
Proof.
  intros HI. destruct (inv_sem _ HI) as [H1 H2 H3 H4]. rewrite H3, H4. split.
  - pose proof (count_pc_le2 (counted a_writers) (fun _ => false)
                  holds_write (fun _ => false) (threads s)) as H.
    rewrite (count_pc_zero (fun _ => false)) in H by reflexivity.
    rewrite Z.add_0_r in H. rewrite Z.add_0_r in H. apply H.
    intros i t Hi. destruct (pcs_counted _ _ (H1 _ _ Hi)). simpl. lia.
  - apply count_pc_le2. intros i t Hi. apply (pcs_counted _ _ (H1 _ _ Hi)).
Qed.

Lemma exclusion s :
  Inv s ->
  0 <= readers s /\ 0 <= writers s <= 1 /\ (1 <= readers s -> writers s = 0)
  /\ count_pc holds_write (threads s) <= 1
  /\ (1 <= count_pc holds_read (threads s) ->
      count_pc holds_write (threads s) = 0).
Proof.
  intros HI. destruct (writers_le_holders s HI) as [Hw Hrw].
  destruct (inv_sem _ HI) as [H1 H2 H3 H4].
  pose proof (count_pc_bounds (counted a_readers) (threads s)).
  pose proof (count_pc_bounds (counted a_writers) (threads s)).
  pose proof (count_pc_bounds holds_read (threads s)).
  pose proof (count_pc_bounds holds_write (threads s)).
  unfold lock_ok in H2. lia.
Qed.

Lemma checks_hold s i t f v val rest :
  Inv s -> threads s !! i = Some t ->
  tpc_of t = T_run ((f, CheckA v val) :: rest) ->
  atomic_read v s = val.
Proof.
  intros HI Hi Hpc.
  destruct (exclusion s HI) as (Hr & Hw & Hrw & HW & HRW).
  destruct (writers_le_holders s HI) as [Hw' Hrw'].
  destruct (inv_sem _ HI) as [H1 H2 H3 H4].
  pose proof (count_pc_lookup (counted a_writers) _ _ _ Hi) as Hcw.
  pose proof (count_pc_lookup holds_read _ _ _ Hi) as Hhr.
  destruct (pcs_check _ _ _ _ _ _ (H1 _ _ Hi) Hpc)
    as [(-> & -> & E)|[(-> & -> & E)|(-> & -> & E)]];
    rewrite E in *; simpl in *; lia.
Qed.

(** ** After the join *)

Lemma exited_inv pc : exited pc = true -> pc = T_exited.
Proof. destruct pc; simpl; congruence. Qed.

Lemma all_joined_exited s i t :
  Inv s -> all_joined s -> threads s !! i = Some t -> tpc_of t = T_exited.
Proof.
  intros HI Hj Hi. apply exited_inv.
  apply (inv_joined _ (inv_join _ HI) _ _ Hi).
  destruct (thread_spawned _ _ _ (inv_spawn _ HI) Hi) as (Hr & _).
  unfold joined. rewrite Hj. destruct (tkind t); simpl; lia.
Qed.

Lemma all_joined_idle s :
  Inv s -> all_joined s ->
  rwsem_sem s = 0 /\ readers s = 0 /\ writers s = 0.
Proof.
  intros HI Hj. destruct (inv_sem _ HI) as [H1 H2 H3 H4].
  assert (Hz : forall p, p T_exited = false -> count_pc p (threads s) = 0).
  { intros p Hp. apply count_pc_zero. intros i t Hi.
    rewrite (all_joined_exited s i t HI Hj Hi). exact Hp. }
  rewrite H3, H4, !Hz in * by reflexivity.
  unfold lock_ok in H2. lia.
Qed.

Lemma all_joined_blocked s i :
  Inv s -> all_joined s -> step_thread i s = Blocked.
Proof.
  intros HI Hj. unfold step_thread.
  destruct (threads s !! i) as [t|] eqn:Hi; [|reflexivity].
  rewrite (all_joined_exited s i t HI Hj Hi). reflexivity.
Qed.

(** ** The kernel log *)

Lemma step_thread_log i s a s' :
  Inv s -> step_thread i s = Ok (a, s') ->
  klog s' = klog s
  \/ exists t, threads s !! i = Some t /\ tpc_of t = T_printk
               /\ klog s' = klog s ++ [msg_done (tkind t) (targ t)].
Proof.
  intros HI H. unfold step_thread in H.
  destruct (threads s !! i) as [t|] eqn:Hi; [|discriminate].
  destruct (tpc_of t) as [|[|[f st] k]| | |] eqn:Hpc; try discriminate.
  - inversion H; subst. left. reflexivity.
  - inversion H; subst. left. reflexivity.
  - destruct st; try (simpl in H; split_guards H; left; reflexivity).
    cbn [exec_stmt] in H. inversion H; subst. left. unfold CHECKA.
    rewrite (checks_hold s i t f v val k HI Hi Hpc), Z.eqb_refl. reflexivity.
  - inversion H; subst. right. exists t. split; [reflexivity|].
    split; [exact Hpc|reflexivity].
  - split_guards H. left. reflexivity.
Qed.

Lemma step_main_log s s' :
  step_main s = Ok s' ->
  klog s' = klog s
  \/ exists m, klog s' = klog s ++ [m] /\ is_check_failed m = false.
Proof.
  intros H. unfold step_main in H.
  destruct (main s); split_guards H; simpl;
    first [left; reflexivity | right; eexists; split; reflexivity].
Qed.

Lemma Run_log tr s :
  Run tr s -> Forall (fun m => is_check_failed m = false) (klog s).
Proof.
  induction 1 as [|tr s a e s' HR IH Hs]; [constructor|].
  pose proof (Run_Inv _ _ HR) as HI.
  destruct a as [| |i]; simpl in Hs.
  - destruct (step_main s) as [s0| |] eqn:Hm; try discriminate.
    inversion Hs; subst.
    destruct (step_main_log _ _ Hm) as [->|(m & -> & Hc)]; [assumption|].
    apply Forall_app. split; [assumption|]. repeat constructor. exact Hc.
  - unfold step_timer in Hs. destruct (timer_pending s); [|discriminate].
    destruct (timer_function s) as [[]|]; [|discriminate].
    inversion Hs; subst. exact IH.
  - destruct (step_thread i s) as [[a s0]| |] eqn:Ht; try discriminate.
    inversion Hs; subst.
    destruct (step_thread_log _ _ _ _ HI Ht) as [->|(t & _ & _ & ->)];
      [assumption|].
    apply Forall_app. split; [assumption|]. repeat constructor.
Qed.

Lemma Run_report tr s :
  Run tr s -> exists l, klog s = l ++ report s.
Proof.
  induction 1 as [|tr s a e s' HR IH Hs]; [exists []; reflexivity|].
  pose proof (Run_Inv _ _ HR) as HI.
  destruct IH as [l IH].
  destruct a as [| |i]; simpl in Hs.
  - destruct (step_main s) as [s0| |] eqn:Hm; try discriminate.
    inversion Hs; subst. unfold step_main in Hm.
    assert (Hidle : all_joined s -> rwsem_sem s = 0)
      by (intros Hj; apply (all_joined_idle s HI Hj)).
    unfold all_joined, report in *.
    destruct (main s) as [| | |loop|k loop|k loop|k loop| | | | |k loop|k loop| | | | | | | |v] eqn:Hpc;
      try destruct k; split_guards Hm; unfold after_if, after_join; simpl in *;
      try (eexists; rewrite app_nil_r; reflexivity);
      try (rewrite IH, <- app_assoc; simpl; eexists; reflexivity).
    + rewrite Hidle by reflexivity. eexists. rewrite app_nil_r in IH.
      rewrite IH. reflexivity.
    + eexists. exact IH.
  - unfold step_timer in Hs. destruct (timer_pending s); [|discriminate].
    destruct (timer_function s) as [[]|]; [|discriminate].
    inversion Hs; subst. exists l. exact IH.
  - destruct (step_thread i s) as [[a s0]| |] eqn:Ht; try discriminate.
    inversion Hs; subst.
    assert (Hm : main s' = main s).
    { apply step_thread_frame in Ht as (t & pc' & _ & _ & Hm & _). exact Hm. }
    assert (Hnj : join_progress (main s) <> 60).
    { intros Hj. rewrite (all_joined_blocked s i HI Hj) in Ht. discriminate. }
    unfold report. rewrite Hm.
    destruct (main s); simpl in Hnj; try congruence;
      eexists; rewrite app_nil_r; reflexivity.
Qed.

(** ** The taken counters *)

Lemma all_actions_app tr1 tr2 :
  all_actions (tr1 ++ tr2) = all_actions tr1 ++ all_actions tr2.
Proof.
  induction tr1 as [|[] tr1 IH]; simpl; rewrite ?IH; reflexivity.
Qed.

Lemma count_act_app a l1 l2 :
  count_act a (l1 ++ l2) = count_act a l1 + count_act a l2.
Proof. induction l1 as [|b l1 IH]; simpl; rewrite ?IH; lia. Qed.

Lemma completed_snoc f tr e :
  completed f (tr ++ [e]) = completed f tr + is_return f e.
Proof.
  unfold completed. rewrite all_actions_app, count_act_app.
  destruct e; simpl; lia.
Qed.

Lemma thread_taken f i s a s' X :
  Inv s -> step_thread i s = Ok (a, s') ->
  f = Fdr \/ f = Fdw \/ f = Fdgw ->
  atomic_read (taken_var f) s
  = wrap_int (X + count_pc (in_flight f (taken_var f)) (threads s)) ->
  atomic_read (taken_var f) s'
  = wrap_int (X + is_return f (E_thread i a)
              + count_pc (in_flight f (taken_var f)) (threads s')).
Proof.
  intros HI H Hf IH. unfold step_thread in H.
  destruct (threads s !! i) as [t|] eqn:Hi; [|discriminate].
  pose proof (inv_pcs _ (inv_sem _ HI) _ _ Hi) as Hpc.
  thread_cases H Hi Hpc.
  all: split_guards H.
  all: unfold set_pc, CHECKA, atomic_inc, atomic_dec, RWSem.up_read,
         RWSem.up_write, RWSem.downgrade_write; simpl.
  all: repeat match goal with
         | |- context [if ?b then _ else _] => destruct b eqn:?
         end; simpl.
  all: destruct Hf as [-> | [-> | ->]]; simpl in *; try congruence.
  all: rewrite !(count_pc_insert _ _ _ _ _ _ _ Hi); simpl.
  all: rewrite ?IH, ?wrap_int_succ; unfold b2z; f_equal; try lia.
Qed.

Lemma step_main_threads s s' :
  step_main s = Ok s' ->
  threads s' = threads s
  \/ exists k N, threads s' = threads s ++ [Thread k N T_daemonize].
Proof.
  intros H. unfold step_main in H.
  destruct (main s); split_guards H; simpl; eauto.
Qed.

Lemma step_main_atomic s s' v :
  step_main s = Ok s' -> v <> a_do_stuff ->
  atomic_read v s' = atomic_read v s.
Proof.
  intros H Hv. unfold step_main in H.
  destruct (main s); split_guards H; destruct v; simpl; congruence.
Qed.

Lemma count_pc_spawn p (l : list thread) k N :
  p T_daemonize = false ->
  count_pc p (l ++ [Thread k N T_daemonize]) = count_pc p l.
Proof. intros H. rewrite count_pc_app. simpl. rewrite H. lia. Qed.

Lemma Run_taken f tr s :
  Run tr s -> f = Fdr \/ f = Fdw \/ f = Fdgw ->
  atomic_read (taken_var f) s
  = wrap_int (completed f tr
              + count_pc (in_flight f (taken_var f)) (threads s)).
Proof.
  intros HR Hf. induction HR as [|tr s a e s' HR IH Hs].
  - destruct Hf as [-> | [-> | ->]]; reflexivity.
  - pose proof (Run_Inv _ _ HR) as HI. rewrite completed_snoc.
    destruct a as [| |i]; simpl in Hs.
    + destruct (step_main s) as [s0| |] eqn:Hm; try discriminate.
      inversion Hs; subst. simpl. rewrite Z.add_0_r.
      rewrite (step_main_atomic _ _ _ Hm)
        by (destruct Hf as [-> | [-> | ->]]; discriminate).
      destruct (step_main_threads _ _ Hm) as [->|(k & N & ->)];
        rewrite ?count_pc_spawn by reflexivity; exact IH.
    + unfold step_timer in Hs. destruct (timer_pending s); [|discriminate].
      destruct (timer_function s) as [[]|]; [|discriminate].
      inversion Hs; subst. simpl. rewrite Z.add_0_r. rewrite <- IH.
      destruct Hf as [-> | [-> | ->]]; reflexivity.
    + destruct (step_thread i s) as [[a s0]| |] eqn:Ht; try discriminate.
      inversion Hs; subst. eapply thread_taken; eauto.
Qed.

(** ** Schedules *)

Lemma Run_exec sch : forall tr s tr' s',
  Run tr s -> exec sch s = Some (tr', s') -> Run (tr ++ tr') s'.
Proof.
  induction sch as [|a sch IH]; simpl; intros tr s tr' s' HR H.
  - inversion H; subst. rewrite app_nil_r. exact HR.
  - destruct (step a s) as [[e s1]| |] eqn:Hs; try discriminate.
    destruct (exec sch s1) as [[tr1 s2]|] eqn:He; try discriminate.
    inversion H; subst.
    replace (tr ++ e :: tr1) with ((tr ++ [e]) ++ tr1)
      by (rewrite <- app_assoc; reflexivity).
    eapply IH; [|exact He]. econstructor; eauto.
Qed.

Lemma exec_app sch1 sch2 s tr1 s1 tr2 s2 :
  exec sch1 s = Some (tr1, s1) -> exec sch2 s1 = Some (tr2, s2) ->
  exec (sch1 ++ sch2) s = Some (tr1 ++ tr2, s2).
Proof.
  revert s tr1 s1. induction sch1 as [|a sch1 IH]; simpl; intros s tr1 s1 H1 H2.
  - inversion H1; subst. exact H2.
  - destruct (step a s) as [[e s']| |]; try discriminate.
    destruct (exec sch1 s') as [[tr s'']|] eqn:He; try discriminate.
    inversion H1; subst. rewrite (IH _ _ _ He H2). reflexivity.
Qed.

(** ** The shape of a thread's history *)

Lemma thread_actions_snoc i tr e :
  thread_actions i (tr ++ [e])
  = thread_actions i tr
    ++ match e with
       | E_thread j a => if decide (j = i) then [a] else []
       | _ => []
       end.
Proof.
  induction tr as [|[j b| |] tr IH]; simpl.
  - destruct e as [j a| |]; simpl; try reflexivity.
  - destruct (decide (j = i)); rewrite IH; reflexivity.
  - exact IH.
  - exact IH.
Qed.

Lemma concat_replicate_S {A : Type} (n : nat) (x : list A) :
  concat (replicate (S n) x) = concat (replicate n x) ++ x.
Proof.
  induction n as [|n IH]; simpl in *; [rewrite app_nil_r; reflexivity|].
  rewrite IH at 1. rewrite app_assoc. reflexivity.
Qed.

Lemma history_next k n l x :
  A_daemonize :: concat (replicate n (iteration k)) ++ l ++ [x]
  = (A_daemonize :: concat (replicate n (iteration k)) ++ l) ++ [x].
Proof. simpl. rewrite app_assoc. reflexivity. Qed.

Lemma thread_history i s a s' t n :
  Inv s -> threads s !! i = Some t -> step_thread i s = Ok (a, s') ->
  (tpc_of t = T_run [(Fsched, Schedule)] -> do_sched cfg <> 0) ->
  exists pc' n',
    threads s' !! i = Some (Thread (tkind t) (targ t) pc')
    /\ history (tkind t) n (tpc_of t) ++ [a] = history (tkind t) n' pc'
    /\ (pc' = T_run [(Fsched, Schedule)] -> do_sched cfg <> 0).
Proof.
  intros HI Hi H Hsch. unfold step_thread in H. rewrite Hi in H.
  pose proof (inv_pcs _ (inv_sem _ HI) _ _ Hi) as Hpc.
  assert (Hlt : (i < length (threads s))%nat) by (eapply lookup_lt_Some; eauto).
  thread_cases H Hi Hpc.
  all: split_guards H.
  all: unfold set_pc, CHECKA; simpl.
  all: repeat match goal with
         | |- context [if negb ?b then _ else _] => destruct b; simpl
         end.
  all: unfold rest_after; simpl.
  all: try (specialize (Hsch eq_refl)).
  all: destruct (do_sched cfg =? 0) eqn:Hds; try congruence;
    bool_arith; try contradiction.
  all: eexists.
  all: first
    [ exists n; split; [apply list_lookup_insert_eq; exact Hlt|];
      split; [ simpl; rewrite <- ?app_assoc; reflexivity
             | first [discriminate | intros _; assumption] ]
    | exists O; split; [apply list_lookup_insert_eq; exact Hlt|];
      split; [ reflexivity | discriminate ]
    | exists (S n); split; [apply list_lookup_insert_eq; exact Hlt|];
      split; [ unfold history; rewrite concat_replicate_S;
               unfold iteration, sched_run; rewrite ?Hds;
               try (apply Z.eqb_neq in Hds; rewrite Hds);
               simpl; rewrite <- ?app_assoc; simpl; rewrite ?app_nil_r; reflexivity
             | first [discriminate | intros _; assumption] ]
    | idtac ].
Qed.

Lemma Run_history tr s : Run tr s -> history_ok tr s.
Proof.
  induction 1 as [|tr s a e s' HR [IH1 IH2] Hs].
  { split; [reflexivity|]. intros i t H. discriminate. }
  pose proof (Run_Inv _ _ HR) as HI.
  destruct a as [| |i]; simpl in Hs.
  - destruct (step_main s) as [s0| |] eqn:Hm; try discriminate.
    inversion Hs; subst. unfold history_ok.
    setoid_rewrite thread_actions_snoc. setoid_rewrite app_nil_r.
    destruct (step_main_threads _ _ Hm) as [->|(k & N & ->)];
      [split; assumption|].
    split.
    + intros i Hi. apply IH1. rewrite length_app in Hi. lia.
    + intros i t Hi. apply lookup_app_Some in Hi as [Hi|[Hl Hi]]; [eauto|].
      apply list_lookup_singleton_Some in Hi as [_ <-]. simpl.
      exists O. split; [apply IH1; assumption|discriminate].
  - unfold step_timer in Hs. destruct (timer_pending s); [|discriminate].
    destruct (timer_function s) as [[]|]; [|discriminate].
    inversion Hs; subst. unfold history_ok.
    setoid_rewrite thread_actions_snoc. setoid_rewrite app_nil_r.
    split; assumption.
  - destruct (step_thread i s) as [[a s0]| |] eqn:Ht; try discriminate.
    inversion Hs; subst.
    pose proof Ht as Hf.
    apply step_thread_frame in Hf as (t & pc' & Hi & Hth & _).
    assert (Hlt : (i < length (threads s))%nat) by (eapply lookup_lt_Some; eauto).
    split.
    + intros j Hj. rewrite Hth, length_insert in Hj.
      rewrite thread_actions_snoc, decide_False by lia.
      rewrite app_nil_r. apply IH1, Hj.
    + intros j t' Hj. rewrite thread_actions_snoc.
      destruct (decide (i = j)) as [<-|Hne].
      * destruct (IH2 _ _ Hi) as (n & Hn & Hsch).
        destruct (thread_history i s a s' t n HI Hi Ht Hsch)
          as (pc1 & n' & Hi' & Hh & Hsch').
        rewrite Hi' in Hj. injection Hj as <-. simpl.
        exists n'. rewrite Hn. split; assumption.
      * rewrite app_nil_r. rewrite Hth, list_lookup_insert_ne in Hj by assumption.
        eauto.
Qed.

Lemma Run_run_of sch : Run (fst (run_of sch)) (snd (run_of sch)).
Proof.
  unfold run_of. destruct (exec sch loaded) as [[tr s]|] eqn:He; simpl.
  - apply (Run_exec sch [] loaded tr s Run_loaded He).
  - constructor.
Qed.

(** * Properties of the specification *)

(** C1 — Mutual exclusion.  In every reachable state at most one thread
    holds the semaphore for writing and none does while a thread holds it for
    reading; the [writers] counter is 0 or 1 and is 0 whenever [readers] is
    at least 1; every [CHECKA] a thread is about to run (those of [dw] and
    [dr], and those of [ur], [uw] and [dgw] as well) reads the value it
    expects, so that no check has ever failed in the log. *)
Theorem mutual_exclusion tr s :
  Run tr s ->
  count_pc holds_write (threads s) <= 1
  /\ (1 <= count_pc holds_read (threads s) ->
      count_pc holds_write (threads s) = 0)
  /\ 0 <= writers s <= 1
  /\ (1 <= readers s -> writers s = 0)
  /\ (forall i t f v val rest,
        threads s !! i = Some t ->
        tpc_of t = T_run ((f, CheckA v val) :: rest) ->
        atomic_read v s = val)
  /\ Forall (fun m => is_check_failed m = false) (klog s).
Proof.
  intros HR. pose proof (Run_Inv _ _ HR) as HI.
  destruct (exclusion s HI) as (Hr & Hw & Hrw & HW & HRW).
  repeat split; try assumption; try lia.
  - intros i t f v val rest Hi Hpc. eapply checks_hold; eauto.
  - eapply Run_log; eauto.
Qed.

Lemma blocked_write s j t f k :
  threads s !! j = Some t -> tpc_of t = T_run ((f, DownWrite) :: k) ->
  rwsem_sem s <> 0 -> step (Thr j) s = Blocked.
Proof.
  intros Hj Hpc Hs. simpl. unfold step_thread. rewrite Hj, Hpc. simpl.
  unfold RWSem.down_write. destruct (rwsem_sem s =? 0) eqn:E; [|reflexivity].
  apply Z.eqb_eq in E. contradiction.
Qed.

Lemma blocked_read s j t f k :
  threads s !! j = Some t -> tpc_of t = T_run ((f, DownRead) :: k) ->
  rwsem_sem s < 0 -> step (Thr j) s = Blocked.
Proof.
  intros Hj Hpc Hs. simpl. unfold step_thread. rewrite Hj, Hpc. simpl.
  unfold RWSem.down_read. destruct (0 <=? rwsem_sem s) eqn:E; [|reflexivity].
  apply Z.leb_le in E. lia.
Qed.

Lemma holder_facts s i t :
  Inv s -> threads s !! i = Some t ->
  (holds_write (tpc_of t) = true ->
   rwsem_sem s = -1 /\ readers s + writers s <= 1)
  /\ (holds_read (tpc_of t) = true -> 1 <= rwsem_sem s /\ writers s = 0)
  /\ (counted a_writers (tpc_of t) = true -> writers s = 1 /\ readers s = 0)
  /\ (counted a_readers (tpc_of t) = true -> 1 <= readers s /\ writers s = 0).
Proof.
  intros HI Hi.
  destruct (exclusion s HI) as (Hr & Hw & Hrw & HW & HRW).
  destruct (writers_le_holders s HI) as [Hw' Hrw'].
  destruct (inv_sem _ HI) as [H1 H2 H3 H4].
  pose proof (count_pc_lookup holds_write _ _ _ Hi) as A.
  pose proof (count_pc_lookup holds_read _ _ _ Hi) as B.
  pose proof (count_pc_lookup (counted a_writers) _ _ _ Hi) as C.
  pose proof (count_pc_lookup (counted a_readers) _ _ _ Hi) as D.
  unfold lock_ok in H2.
  split; [|split; [|split]]; intros E; rewrite E in *; simpl in *; lia.
Qed.

(** While a thread holds the semaphore exclusively, [readers] and [writers]
    count that thread alone: every other thread is outside its critical
    section. *)
Lemma holder_counts s i t :
  Inv s -> threads s !! i = Some t -> holds_write (tpc_of t) = true ->
  readers s = b2z (counted a_readers (tpc_of t))
  /\ writers s = b2z (counted a_writers (tpc_of t)).
Proof.
  intros HI Hi E. destruct (inv_sem _ HI) as [H1 H2 H3 H4].
  destruct t as [k N pc]. simpl in *.
  pose proof (count_pc_lookup holds_write _ _ _ Hi) as A.
  simpl in A. rewrite E in A. simpl in A.
  assert (Hl : forall j t', <[i := Thread k N T_exited]> (threads s) !! j = Some t' ->
                 In (tpc_of t') (pcs (tkind t'))).
  { apply (pcs_insert _ _ _ _ _ _ Hi H1). simpl. tauto. }
  pose proof (count_pc_le2 (counted a_readers) (counted a_writers)
                holds_read holds_write _
                (fun j t' Hj => proj2 (pcs_counted _ _ (Hl j t' Hj)))) as B.
  rewrite !(count_pc_insert _ _ _ _ _ _ T_exited Hi) in B.
  rewrite E in B. simpl in B.
  pose proof (count_pc_bounds (counted a_readers)
                (<[i := Thread k N T_exited]> (threads s))) as Cr.
  pose proof (count_pc_bounds (counted a_writers)
                (<[i := Thread k N T_exited]> (threads s))) as Cw.
  rewrite (count_pc_insert _ _ _ _ _ _ T_exited Hi) in Cr.
  rewrite (count_pc_insert _ _ _ _ _ _ T_exited Hi) in Cw.
  simpl in Cr, Cw.
  unfold lock_ok in H2. rewrite H3, H4. unfold b2z in *.
  destruct (holds_read pc), (counted a_readers pc), (counted a_writers pc); lia.
Qed.

Lemma splits_complete {A : Type} (pre post : list A) :
  In (pre, post) (splits (pre ++ post)).
Proof.
  induction pre as [|x pre IH]; simpl.
  - destruct post; simpl; tauto.
  - right. apply (in_map (fun p => (x :: fst p, snd p)) _ _ IH).
Qed.

(** C2 — Downgrade atomicity.  Take a thread anywhere inside [dgw]
    ([post] is what is left of it) or just back from it.  The semaphore is
    not free, and no thread resting at a [down_write] can take it.  Up to
    the [downgrade_write] the semaphore is still held exclusively (no
    [down_read] can pass either); on entry [writers] is 1 and [readers] is 0;
    between [atomic_dec(&writers)] and [atomic_inc(&readers)] both counters
    are 0 while the semaphore is still write-held;
    the [downgrade_write] step itself takes the semaphore from the write-held
    value to one reader, with [writers] at 0 and [readers] at 1 before and
    after; on return the thread holds the semaphore as a reader and is
    counted in [readers]. *)
Theorem downgrade_atomic tr s i t pre post :
  Run tr s -> threads s !! i = Some t ->
  dgw = pre ++ post -> tpc_of t = T_run (post ++ ur ++ sched) ->
  rwsem_sem s <> 0
  /\ (forall j t' f k, threads s !! j = Some t' ->
        tpc_of t' = T_run ((f, DownWrite) :: k) -> step (Thr j) s = Blocked)
  /\ (In (Fdgw, DowngradeWrite) post ->
      rwsem_sem s = -1
      /\ forall j t' f k, threads s !! j = Some t' ->
           tpc_of t' = T_run ((f, DownRead) :: k) -> step (Thr j) s = Blocked)
  /\ (pre = [] -> writers s = 1 /\ readers s = 0)
  /\ (forall k, post = (Fdgw, AtomicInc a_readers) :: k ->
      rwsem_sem s = -1 /\ writers s = 0 /\ readers s = 0)
  /\ (forall k, post = (Fdgw, DowngradeWrite) :: k ->
      exists s', step (Thr i) s
                 = Ok (E_thread i (A_op (Fdgw, DowngradeWrite)), s')
        /\ rwsem_sem s' = 1
        /\ writers s = 0 /\ readers s = 1
        /\ writers s' = 0 /\ readers s' = 1)
  /\ (post = [] -> 1 <= rwsem_sem s /\ 1 <= readers s /\ writers s = 0).
Proof.
  intros HR Hi Hsplit Hpc. pose proof (Run_Inv _ _ HR) as HI.
  destruct (holder_facts s i t HI Hi) as (HW & HRd & HCW & HCR).
  pose proof (holder_counts s i t HI Hi) as HC.
  rewrite Hpc in *.
  assert (Hstep : forall k, post = (Fdgw, DowngradeWrite) :: k ->
            step (Thr i) s
            = Ok (E_thread i (A_op (Fdgw, DowngradeWrite)),
                  set_pc i t (T_run (k ++ ur ++ sched))
                    (set_rwsem_sem (RWSem.downgrade_write (rwsem_sem s)) s))).
  { intros k ->. simpl. unfold step_thread. rewrite Hi, Hpc. reflexivity. }
  pose proof (splits_complete pre post) as Hcut.
  rewrite <- Hsplit in Hcut. clear Hsplit. rename Hcut into Hsplit.
  simpl in Hsplit.
  repeat (destruct Hsplit as [Hsplit|Hsplit];
          [injection Hsplit as <- <-; simpl in *|]); try contradiction.
  all: try (destruct (HW eq_refl) as [Hm Hle]).
  all: try (destruct (HRd eq_refl) as [Hs Hw0]).
  all: try (destruct (HCW eq_refl) as [Hw1 Hr0]).
  all: try (destruct (HCR eq_refl) as [Hr1 Hw0']).
  all: (split; [lia|]).
  all: (split; [intros j t' f k Hj Hpc'; eapply blocked_write; eauto; lia|]).
  all: (split; [intros Hin; first
                  [ split; [lia|]; intros j t' f k Hj Hpc';
                    eapply blocked_read; eauto; lia
                  | exfalso; intuition discriminate ]|]).
  all: (split; [intros E; first [discriminate E | split; lia]|]).
  all: (split; [intros k E; first
                  [ discriminate E
                  | destruct (HC eq_refl) as [Hr' Hw']; simpl in Hr', Hw';
                    repeat split; lia ]|]).
  all: (split; [intros k E; first
                  [ discriminate E
                  | eexists; split; [apply Hstep; exact E|];
                    simpl; repeat split; lia ]|]).
  all: intros E; first [discriminate E | repeat split; lia].
Qed.

Lemma stop_test_idem s : stop_test (stop_test s) = stop_test s.
Proof. reflexivity. Qed.

Lemma step_log_grows a s e s' :
  step a s = Ok (e, s') -> exists l, klog s' = klog s ++ l.
Proof.
  intros H. destruct a as [| |i]; simpl in H.
  - destruct (step_main s) as [s0| |] eqn:Hm; try discriminate.
    inversion H; subst.
    destruct (step_main_log _ _ Hm) as [->|(m & -> & _)];
      [exists []; rewrite app_nil_r|eexists]; reflexivity.
  - unfold step_timer in H. destruct (timer_pending s); [|discriminate].
    destruct (timer_function s) as [[]|]; [|discriminate].
    inversion H; subst. exists []. rewrite app_nil_r. reflexivity.
  - unfold step_thread in H.
    destruct (threads s !! i) as [t|]; [|discriminate].
    destruct (tpc_of t) as [|[|[f st] k]| | |]; try discriminate.
    + inversion H; subst. exists []. rewrite app_nil_r. reflexivity.
    + inversion H; subst. exists []. rewrite app_nil_r. reflexivity.
    + destruct st; simpl in H; unfold CHECKA in H; split_guards H; simpl;
        first [exists []; rewrite app_nil_r; reflexivity | eexists; reflexivity].
    + inversion H; subst. eexists. reflexivity.
    + split_guards H. exists []. rewrite app_nil_r. reflexivity.
Qed.

Lemma check_passes_log s f v val :
  atomic_read v s = val -> klog (CHECKA v val f s) = klog s.
Proof. intros H. unfold CHECKA. rewrite H, Z.eqb_refl. reflexivity. Qed.

Lemma exec_log_grows sch : forall s tr s',
  exec sch s = Some (tr, s') -> exists l, klog s' = klog s ++ l.
Proof.
  induction sch as [|a sch IH]; intros s tr s' H; simpl in H.
  - inversion H; subst. exists []. rewrite app_nil_r. reflexivity.
  - destruct (step a s) as [[e s1]| |] eqn:Hs; try discriminate.
    destruct (exec sch s1) as [[tr1 s2]|] eqn:He; [|discriminate].
    inversion H; subst.
    destruct (step_log_grows _ _ _ _ Hs) as [l1 E1].
    destruct (IH _ _ _ He) as [l2 E2].
    exists (l1 ++ l2). rewrite E2, E1, app_assoc. reflexivity.
Qed.

(** [__func__] and [#var] name their function and their counter: different
    functions and different counters give different names. *)
Lemma func_name_inj f f' : func_name f = func_name f' -> f = f'.
Proof. destruct f, f'; simpl; intros H; first [reflexivity | discriminate H]. Qed.

Lemma var_name_inj v v' : var_name v = var_name v' -> v = v'.
Proof. destruct v, v'; simpl; intros H; first [reflexivity | discriminate H]. Qed.

(** Every statement of the program text carries the function it stands
    in. *)
Lemma func_body_tag f f' st : In (f', st) (func_body f) -> f' = f.
Proof.
  destruct f; simpl; intros H;
    repeat (destruct H as [H|H]; [injection H as <- _; reflexivity|]);
    contradiction.
Qed.

(** The statement a thread of the program is at belongs to the body of the
    function it is tagged with. *)
Lemma pcs_tag k pc f st rest :
  In pc (pcs k) -> pc = T_run ((f, st) :: rest) -> In (f, st) (func_body f).
Proof.
  destruct k; simpl; intros H E;
    repeat (destruct H as [H|H];
            [subst pc; try discriminate; injection E as <- <- <-;
             simpl; tauto|]);
    contradiction.
Qed.

(** C7 — Misuse fails loudly and immediately.  In any state, reachable or
    not, a thread that runs a [CHECKA] completes the step, and the step
    appends a line to the log exactly when the counter does not have the
    expected value: that very step, as the last line of the log, the line
    [check [var != val, == x] failed in func].  The line identifies the
    operation at fault: it determines the function, the counter, the expected
    and the observed value (no two functions and no two counters share a
    name), and for a thread of the program the function named is the one
    whose body holds the failing check, one of [dr], [ur], [dw], [uw] and
    [dgw].  Nothing is swallowed or deferred: whatever the agents do
    afterwards, the log only grows, so the line stays where it was put. *)
Theorem misuse_reported s i t f v val rest :
  threads s !! i = Some t ->
  tpc_of t = T_run ((f, CheckA v val) :: rest) ->
  let line := msg_check_failed (var_name v) val (atomic_read v s)
                (func_name f) in
  exists s',
    step (Thr i) s = Ok (E_thread i (A_op (f, CheckA v val)), s')
    /\ (atomic_read v s <> val -> klog s' = klog s ++ [line])
    /\ (atomic_read v s = val -> klog s' = klog s)
    /\ (forall f' v' val' x',
          line = msg_check_failed (var_name v') val' x' (func_name f') ->
          f' = f /\ v' = v /\ val' = val /\ x' = atomic_read v s)
    /\ (In (tpc_of t) (pcs (tkind t)) ->
        In (f, CheckA v val) (func_body f)
        /\ (f = Fdr \/ f = Fur \/ f = Fdw \/ f = Fuw \/ f = Fdgw)
        /\ (v = a_readers \/ v = a_writers))
    /\ (forall a e s'', step a s' = Ok (e, s'') ->
                        exists l, klog s'' = klog s' ++ l)
    /\ (forall sch tr s'', exec sch s' = Some (tr, s'') ->
                           exists l, klog s'' = klog s' ++ l).
Proof.
  intros Hi Hpc. cbv zeta.
  exists (set_pc i t (T_run rest) (CHECKA v val f s)).
  split; [simpl; unfold step_thread; rewrite Hi, Hpc; reflexivity|].
  split; [|split; [|split; [|split; [|split]]]].
  - intros Hne. unfold CHECKA. apply Z.eqb_neq in Hne. rewrite Hne. reflexivity.
  - intros He. change (klog (CHECKA v val f s) = klog s).
    apply check_passes_log. exact He.
  - intros f' v' val' x' E. injection E as E1 E2 E3 E4.
    apply var_name_inj in E1. apply func_name_inj in E4.
    repeat split; congruence.
  - intros Hin. pose proof (pcs_tag _ _ _ _ _ Hin Hpc) as Hb.
    split; [exact Hb|].
    destruct f; simpl in Hb;
      repeat (destruct Hb as [Hb|Hb];
              [try discriminate Hb; injection Hb as <- <-; tauto|]);
      contradiction.
  - intros a e s'' H. eapply step_log_grows; eauto.
  - intros sch tr s'' H. eapply exec_log_grows; eauto.
Qed.

(** When the checked counter has the expected value the check prints
    nothing. *)
Lemma check_passes s f v val :
  atomic_read v s = val -> CHECKA v val f s = s.
Proof. intros H. unfold CHECKA. rewrite H, Z.eqb_refl. reflexivity. Qed.

Lemma Run_stopped tr s :
  Run tr s -> after_clear (main s) = true -> do_stuff s = 0.
Proof.
  induction 1 as [|tr s a e s' HR IH Hs]; [discriminate|].
  pose proof (Run_Inv _ _ HR) as HI.
  destruct a as [| |i]; simpl in Hs.
  - destruct (step_main s) as [s0| |] eqn:Hm; try discriminate.
    inversion Hs; subst. unfold step_main in Hm.
    destruct (main s) as [| | |loop|k loop|k loop|k loop| | | | |k loop|k loop| | | | | | | |v] eqn:Hpc;
      try destruct k; split_guards Hm; unfold after_if, after_join; simpl;
      intros Hj; try discriminate; try reflexivity; apply IH; reflexivity.
  - unfold step_timer in Hs. destruct (timer_pending s); [|discriminate].
    destruct (timer_function s) as [[]|]; [|discriminate].
    inversion Hs; subst. reflexivity.
  - destruct (step_thread i s) as [[a s0]| |] eqn:Ht; try discriminate.
    inversion Hs; subst.
    assert (Hm : main s' = main s).
    { apply step_thread_frame in Ht as (t & pc' & _ & _ & Hm & _). exact Hm. }
    rewrite Hm. intros Hj.
    assert (Haj : all_joined s)
      by (unfold all_joined; destruct (main s); try discriminate; reflexivity).
    rewrite (all_joined_blocked s i HI Haj) in Ht. discriminate.
Qed.

(** C6 — Idempotent shutdown.  [stop_test] only clears [do_stuff]: run
    any number of times it gives the state one run gives, it touches no
    taken-counter, the semaphore, the log or the threads; the timer firing
    before or after the final [atomic_set(&do_stuff, 0)] of the init function
    ends in the same state; a pending timer can always fire; and after the
    join the semaphore is idle whether or not the timer has fired. *)
Theorem shutdown_idempotent tr s :
  Run tr s ->
  (forall s0 n, Nat.iter (S n) stop_test s0 = stop_test s0)
  /\ (forall s0,
        do_stuff (stop_test s0) = 0
        /\ reads_taken (stop_test s0) = reads_taken s0
        /\ writes_taken (stop_test s0) = writes_taken s0
        /\ downgrades_taken (stop_test s0) = downgrades_taken s0
        /\ readers (stop_test s0) = readers s0
        /\ writers (stop_test s0) = writers s0
        /\ rwsem_sem (stop_test s0) = rwsem_sem s0
        /\ klog (stop_test s0) = klog s0
        /\ threads (stop_test s0) = threads s0
        /\ main (stop_test s0) = main s0)
  /\ (timer_pending s = true ->
      step Timer s
      = Ok (E_timer, stop_test (set_timer (timer_function s) false s)))
  /\ (main s = M_clear_do_stuff -> timer_pending s = true ->
      forall e1 s1 e2 s2 e3 s3 e4 s4,
        step Main s = Ok (e1, s1) -> step Timer s1 = Ok (e2, s2) ->
        step Timer s = Ok (e3, s3) -> step Main s3 = Ok (e4, s4) ->
        s2 = s4 /\ do_stuff s2 = 0)
  /\ (all_joined s ->
      rwsem_sem s = 0 /\ rwsem_sem (stop_test s) = 0
      /\ (after_clear (main s) = true -> do_stuff s = 0)).
Proof.
  intros HR. pose proof (Run_Inv _ _ HR) as HI.
  split; [|split; [|split; [|split]]].
  - intros s0 n. induction n as [|n IHn]; [reflexivity|].
    change (Nat.iter (S (S n)) stop_test s0)
      with (stop_test (Nat.iter (S n) stop_test s0)).
    rewrite IHn. reflexivity.
  - intros s0. repeat split.
  - intros Hp. simpl. unfold step_timer.
    rewrite Hp, (inv_timer _ (inv_join _ HI) Hp). reflexivity.
  - intros Hpc Hp e1 s1 e2 s2 e3 s3 e4 s4 H1 H2 H3 H4.
    pose proof (inv_timer _ (inv_join _ HI) Hp) as Hf.
    simpl in H1, H3. unfold step_main in H1. unfold step_timer in H3.
    rewrite Hpc in H1. rewrite Hp, Hf in H3.
    inversion H1; subst. inversion H3; subst.
    simpl in H2, H4. unfold step_timer in H2. unfold step_main in H4.
    simpl in H2, H4. rewrite Hp, Hf in H2. rewrite Hpc in H4.
    inversion H2; subst. inversion H4; subst. split; reflexivity.
  - intros Hj. destruct (all_joined_idle s HI Hj) as (Hs & _).
    repeat split; try assumption.
    intros Hne. eapply Run_stopped; eauto.
Qed.

(** ** The cap on the number of threads *)

Lemma kind_count_le s k :
  InvSpawn s ->
  (length (filter (fun t => tkind t = k) (threads s)) <= 20)%nat.
Proof.
  intros HS.
  assert (E : key <$> filter (fun t => tkind t = k) (threads s)
              = filter (fun p => p.1 = k) (keys s)).
  { unfold keys. induction (threads s) as [|t l IH]; [reflexivity|].
    rewrite fmap_cons, !filter_cons. simpl.
    destruct (decide (tkind t = k)); rewrite <- IH; reflexivity. }
  rewrite <- (length_fmap key), E.
  rewrite <- (length_fmap snd).
  change 20%nat with (Z.to_nat 20). rewrite <- (length_seqZ 0 20).
  apply submseteq_length, NoDup_submseteq.
  - apply NoDup_fmap_2_strong; [|apply NoDup_filter, (inv_nodup _ HS)].
    intros [k1 N1] [k2 N2] H1 H2 Heq.
    apply list_elem_of_filter in H1 as [H1 _].
    apply list_elem_of_filter in H2 as [H2 _]. simpl in *. congruence.
  - intros N HN. apply list_elem_of_fmap in HN as ([k' N'] & -> & HN).
    apply list_elem_of_filter in HN as [_ HN]. simpl.
    apply (inv_spawned _ HS) in HN as (Hr & _). apply elem_of_seqZ. lia.
Qed.

Lemma below_num_big k loop :
  20 < num k < 2 ^ 31 -> 0 <= loop <= 20 -> below_num k loop = true.
Proof.
  intros Hk Hl. unfold below_num. rewrite to_ulong_small by lia. lia.
Qed.

(** With more than 20 threads of kind [k] asked for, the init function
    never gets past the join loop of that kind. *)
Lemma Run_never_joined k tr s :
  20 < num k < 2 ^ 31 -> Run tr s ->
  match main s with
  | M_join k' _ | M_wait k' _ => pos k' <= pos k
  | pc => after_clear pc = false /\ pc <> M_clear_do_stuff
  end.
Proof.
  intros Hk. induction 1 as [|tr s a e s' HR IH Hs]; [simpl; split; congruence|].
  pose proof (Run_Inv _ _ HR) as HI.
  pose proof (inv_main _ (inv_join _ HI)) as Hm.
  destruct a as [| |i]; simpl in Hs.
  - destruct (step_main s) as [s0| |] eqn:Hst; try discriminate.
    inversion Hs; subst. unfold step_main in Hst. unfold main_ok in Hm.
    destruct (main s) as [| | |loop|k' loop|k' loop|k' loop| | | | |k' loop|k' loop| | | | | | | |v] eqn:Hpc;
      simpl in IH; split_guards Hst; simpl; try tauto;
      try (destruct IH as [IH _]; discriminate IH);
      try (split; congruence);
      try (destruct k'; simpl; split; congruence).
    + destruct k; simpl; lia.
    + assert (k' <> k).
      { intros ->. rewrite (below_num_big k loop Hk Hm) in Heqb. discriminate. }
      destruct k, k'; simpl in *; try congruence; lia.
  - unfold step_timer in Hs. destruct (timer_pending s); [|discriminate].
    destruct (timer_function s) as [[]|]; [|discriminate].
    inversion Hs; subst. exact IH.
  - destruct (step_thread i s) as [[a s0]| |] eqn:Ht; try discriminate.
    inversion Hs; subst.
    apply step_thread_frame in Ht as (t & pc' & _ & _ & -> & _). exact IH.
Qed.

(** C9 — Implicit thread-count cap.  Every spawned thread has an index
    below 20 that is also below the configured count (as [loop < numrd]
    compares), so there are at most 20 threads of each kind; the join loops
    go by the configured count alone.  When that count is above 20 the join
    loop of that kind asks for index 20, which is outside the 20-element
    completion array and belongs to no spawned thread: the wait is outside
    the defined behaviour, and the init function never leaves the loop. *)
Theorem thread_cap tr s k :
  Run tr s ->
  (forall i t, threads s !! i = Some t ->
     0 <= targ t < 20 /\ below_num (tkind t) (targ t) = true)
  /\ (length (filter (fun t => tkind t = k) (threads s)) <= 20)%nat
  /\ length (comp k s) = 20%nat
  /\ (forall loop, main s = M_join k loop ->
      step Main s
      = Ok (E_main (M_join k loop),
            set_main (if below_num k loop then M_wait k loop
                      else after_join k) s))
  /\ (20 < num k < 2 ^ 31 ->
      below_num k 20 = true
      /\ comp k s !! Z.to_nat 20 = None
      /\ (main s = M_wait k 20 -> step Main s = Fault)
      /\ (forall i t, threads s !! i = Some t -> key t <> (k, 20))
      /\ after_clear (main s) = false
      /\ forall v, main s <> M_returned v).
Proof.
  intros HR. pose proof (Run_Inv _ _ HR) as HI.
  assert (Hth : forall i t, threads s !! i = Some t ->
            0 <= targ t < 20 /\ below_num (tkind t) (targ t) = true).
  { intros i t Hi.
    destruct (thread_spawned _ _ _ (inv_spawn _ HI) Hi) as (Hr & Hb & _).
    split; assumption. }
  pose proof (inv_comp_len _ (inv_join _ HI) k) as Hlen. unfold NCOMP in Hlen.
  split; [exact Hth|]. split; [apply kind_count_le, (inv_spawn _ HI)|].
  split; [exact Hlen|]. split.
  { intros loop Hpc. simpl. unfold step_main. rewrite Hpc. reflexivity. }
  intros Hk.
  assert (Hnone : comp k s !! Z.to_nat 20 = None)
    by (apply lookup_ge_None; rewrite Hlen; lia).
  split; [apply below_num_big; [assumption|lia]|].
  split; [exact Hnone|]. split.
  { intros Hpc. simpl. unfold step_main. rewrite Hpc, Hnone. reflexivity. }
  split.
  { intros i t Hi E. destruct (Hth _ _ Hi) as [Hr _].
    unfold key in E. injection E as _ E. lia. }
  pose proof (Run_never_joined k tr s Hk HR) as Hnj.
  destruct (main s); simpl in *;
    (split; [ first [reflexivity | destruct Hnj; assumption]
            | intros v' E;
              first [discriminate E | destruct Hnj as [Hnj _]; discriminate Hnj] ]).
Qed.

(** The only value [rwsem_init_module] returns is [-ENOANO]. *)
Lemma init_return_value tr s v :
  Run tr s -> main s = M_returned v -> v = wrap_int (- ENOANO).
Proof.
  induction 1 as [|tr s a e s' HR IH Hs]; [discriminate|].
  destruct a as [| |i]; simpl in Hs.
  - destruct (step_main s) as [s0| |] eqn:Hst; try discriminate.
    inversion Hs; subst. unfold step_main in Hst.
    destruct (main s) as [| | |loop|k' loop|k' loop|k' loop| | | | |k' loop|k' loop| | | | | | | |v'] eqn:Hpc;
      try destruct k'; split_guards Hst; unfold after_if, after_join; simpl;
      intros E; try discriminate. congruence.
  - unfold step_timer in Hs. destruct (timer_pending s); [|discriminate].
    destruct (timer_function s) as [[]|]; [|discriminate].
    inversion Hs; subst. exact IH.
  - destruct (step_thread i s) as [[a s0]| |] eqn:Ht; try discriminate.
    inversion Hs; subst.
    apply step_thread_frame in Ht as (t & pc' & _ & _ & -> & _). exact IH.
Qed.

(** C5 — Thread loop structure.  The loop body of a reader is [dr; ur],
    of a writer [dw; uw], of a downgrader [dw; dgw; ur], each followed by
    [sched]; what a thread has done at any point of a run is [daemonize],
    some number of full passes (the loop test found [do_stuff] set, then the
    statements of the body in order), and then either the part of the pass
    under way or the exit (the test found the flag clear, then the final
    [printk] and [complete_and_exit]); and the loop test continues with the
    body exactly when [do_stuff] is not zero. *)
Theorem loop_structure tr s i t :
  Run tr s -> threads s !! i = Some t ->
  body (tkind t) = cycle (tkind t) ++ sched
  /\ (exists n, thread_actions i tr = history (tkind t) n (tpc_of t))
  /\ (tpc_of t = T_run [] ->
      step (Thr i) s
      = Ok (E_thread i (A_test (negb (do_stuff s =? 0))),
            set_pc i t (if negb (do_stuff s =? 0)
                        then T_run (body (tkind t)) else T_printk) s)).
Proof.
  intros HR Hi. split; [|split].
  - destruct (tkind t); reflexivity.
  - destruct (Run_history tr s HR) as [_ H].
    destruct (H i t Hi) as (n & Hn & _). exists n. exact Hn.
  - intros Hpc. simpl. unfold step_thread. rewrite Hi, Hpc. reflexivity.
Qed.

Lemma count_act_replicate a n l :
  count_act a (concat (replicate n l)) = Z.of_nat n * count_act a l.
Proof.
  induction n as [|n IH]; [reflexivity|].
  change (concat (replicate (S n) l)) with (l ++ concat (replicate n l)).
  rewrite count_act_app, IH. lia.
Qed.

Lemma history_current k n pc :
  pc <> T_daemonize ->
  history k n pc
  = A_daemonize :: concat (replicate n (iteration k)) ++ current k pc.
Proof. destruct pc; simpl; congruence. Qed.

Lemma current_counts k pc :
  In pc (pcs k) ->
  count_act (A_op (Fsched, Schedule)) (current k pc) = 0
  /\ count_act (A_op (release_of k)) (current k pc) = b2z (yield_due pc).
Proof.
  destruct k; simpl; intros H;
    repeat (destruct H as [H|H]; [subst pc; vm_compute; split; reflexivity|]);
    contradiction.
Qed.

Lemma iteration_counts k :
  count_act (A_op (Fsched, Schedule)) (iteration k)
  = (if do_sched cfg =? 0 then 0 else 1)
  /\ count_act (A_op (release_of k)) (iteration k) = 1.
Proof.
  unfold iteration, sched_run.
  destruct (do_sched cfg =? 0); destruct k; vm_compute; split; reflexivity.
Qed.

(** C8 — Yield toggle.  With [do_sched] clear a thread never calls
    [schedule]; with it set, the calls of [schedule] a thread has made are as
    many as the acquire/release cycles it has completed (less the one it is
    about to make when it stands between the release and the call).  The
    test of the flag and the call itself change nothing but the place the
    thread is at: no counter, the semaphore, the log or another thread. *)
Theorem yield_toggle tr s i t :
  Run tr s -> threads s !! i = Some t ->
  let acts := thread_actions i tr in
  let yields := count_act (A_op (Fsched, Schedule)) acts in
  let cycles := count_act (A_op (release_of (tkind t))) acts in
  (do_sched cfg = 0 -> yields = 0)
  /\ (do_sched cfg <> 0 -> yields + b2z (yield_due (tpc_of t)) = cycles)
  /\ (forall k, tpc_of t = T_run ((Fsched, Schedule) :: k) ->
      do_sched cfg <> 0
      /\ step (Thr i) s
         = Ok (E_thread i (A_op (Fsched, Schedule)), set_pc i t (T_run k) s))
  /\ (forall k, tpc_of t = T_run ((Fsched, IfDoSched) :: k) ->
      step (Thr i) s
      = Ok (E_thread i (A_op (Fsched, IfDoSched)),
            set_pc i t (T_run (if do_sched cfg =? 0 then tail k else k)) s)).
Proof.
  intros HR Hi. pose proof (Run_Inv _ _ HR) as HI.
  pose proof (inv_pcs _ (inv_sem _ HI) _ _ Hi) as Hpcs.
  destruct (Run_history tr s HR) as [_ H].
  destruct (H i t Hi) as (n & Hn & Hsch).
  destruct (current_counts _ _ Hpcs) as [Hc1 Hc2].
  destruct (iteration_counts (tkind t)) as [Hi1 Hi2].
  cbv zeta. rewrite Hn.
  assert (Hstep1 : forall k, tpc_of t = T_run ((Fsched, Schedule) :: k) ->
            step (Thr i) s
            = Ok (E_thread i (A_op (Fsched, Schedule)), set_pc i t (T_run k) s)).
  { intros k Hpc. simpl. unfold step_thread. rewrite Hi, Hpc. reflexivity. }
  assert (Hstep2 : forall k, tpc_of t = T_run ((Fsched, IfDoSched) :: k) ->
            step (Thr i) s
            = Ok (E_thread i (A_op (Fsched, IfDoSched)),
                  set_pc i t (T_run (if do_sched cfg =? 0 then tail k else k)) s)).
  { intros k Hpc. simpl. unfold step_thread. rewrite Hi, Hpc. reflexivity. }
  assert (Hon : forall k, tpc_of t = T_run ((Fsched, Schedule) :: k) ->
            do_sched cfg <> 0).
  { intros k Hpc. apply Hsch. rewrite Hpc in *. clear -Hpcs.
    destruct (tkind t); simpl in Hpcs;
      repeat (destruct Hpcs as [Hpcs|Hpcs];
              [try discriminate; injection Hpcs as <-; reflexivity|]);
      contradiction. }
  destruct (tpc_of t) as [|rest| | |] eqn:Hpc.
  { simpl. repeat split; intros; first [reflexivity | discriminate]. }
  all: rewrite history_current by discriminate.
  all: change (A_daemonize :: ?l) with ([A_daemonize] ++ l).
  all: rewrite !count_act_app, !count_act_replicate, Hc1, Hc2, Hi1, Hi2.
  all: replace (count_act (A_op (Fsched, Schedule)) [A_daemonize]) with 0
         by reflexivity.
  all: replace (count_act (A_op (release_of (tkind t))) [A_daemonize]) with 0
         by (destruct (tkind t); reflexivity).
  all: split; [intros E; rewrite E; simpl; lia|].
  all: split; [intros E; apply Z.eqb_neq in E; rewrite E; lia|].
  all: split; [intros k E; split; [eapply Hon; eauto|apply Hstep1; exact E]|].
  all: exact Hstep2.
Qed.

Lemma count_act_nonneg a l : 0 <= count_act a l.
Proof.
  induction l as [|b l IH]; simpl; [lia|]. destruct (decide (b = a)); lia.
Qed.

Lemma thread_taken_step i s a s' v :
  Inv s -> step_thread i s = Ok (a, s') ->
  v = a_reads_taken \/ v = a_writes_taken \/ v = a_downgrades_taken ->
  atomic_read v s' = atomic_read v s
  \/ atomic_read v s' = wrap_int (atomic_read v s + 1).
Proof.
  intros HI H Hv. unfold step_thread in H.
  destruct (threads s !! i) as [t|] eqn:Hi; [|discriminate].
  pose proof (inv_pcs _ (inv_sem _ HI) _ _ Hi) as Hpc.
  thread_cases H Hi Hpc.
  all: split_guards H.
  all: unfold set_pc, CHECKA, atomic_inc, atomic_dec; simpl.
  all: repeat match goal with
         | |- context [if ?b then _ else _] => destruct b eqn:?
         end; simpl.
  all: destruct Hv as [-> | [-> | ->]]; simpl; tauto.
Qed.

Lemma taken_step a s e s' v :
  Inv s -> step a s = Ok (e, s') ->
  v = a_reads_taken \/ v = a_writes_taken \/ v = a_downgrades_taken ->
  atomic_read v s' = atomic_read v s
  \/ atomic_read v s' = wrap_int (atomic_read v s + 1).
Proof.
  intros HI H Hv. destruct a as [| |i]; simpl in H.
  - destruct (step_main s) as [s0| |] eqn:Hm; try discriminate.
    inversion H; subst. left. apply (step_main_atomic _ _ _ Hm).
    destruct Hv as [-> | [-> | ->]]; discriminate.
  - unfold step_timer in H. destruct (timer_pending s); [|discriminate].
    destruct (timer_function s) as [[]|]; [|discriminate].
    inversion H; subst. left. destruct Hv as [-> | [-> | ->]]; reflexivity.
  - destruct (step_thread i s) as [[a s0]| |] eqn:Ht; try discriminate.
    inversion H; subst. eapply thread_taken_step; eauto.
Qed.

Lemma wrap_int_incr z :
  - 2 ^ 31 <= z < 2 ^ 31 - 1 -> wrap_int (z + 1) = z + 1.
Proof. intros H. apply wrap_int_small. lia. Qed.

(** C3 — Counter conservation, with the 32-bit counters the code has.  At
    every point of a run each taken-counter holds, in the wrap-around
    arithmetic of [int], the number of completed calls of its function plus
    the calls that have bumped it and not returned yet; once every thread is
    joined it holds the number of completed calls, exactly so when fewer than
    2^31 of them completed.  A step leaves each counter alone or adds one with
    wrap-around, so a counter below [INT_MAX] never decreases. *)
Theorem counters_conserved tr s :
  Run tr s ->
  (forall f, f = Fdr \/ f = Fdw \/ f = Fdgw ->
     atomic_read (taken_var f) s
     = wrap_int (completed f tr
                 + count_pc (in_flight f (taken_var f)) (threads s)))
  /\ (all_joined s ->
      forall f, f = Fdr \/ f = Fdw \/ f = Fdgw ->
        atomic_read (taken_var f) s = wrap_int (completed f tr)
        /\ (completed f tr < 2 ^ 31 ->
            atomic_read (taken_var f) s = completed f tr))
  /\ (forall a e s' v, step a s = Ok (e, s') ->
        v = a_reads_taken \/ v = a_writes_taken \/ v = a_downgrades_taken ->
        (atomic_read v s' = atomic_read v s
         \/ atomic_read v s' = wrap_int (atomic_read v s + 1))
        /\ (- 2 ^ 31 <= atomic_read v s < 2 ^ 31 - 1 ->
            atomic_read v s <= atomic_read v s')).
Proof.
  intros HR. pose proof (Run_Inv _ _ HR) as HI.
  split; [intros f Hf; apply Run_taken; assumption|]. split.
  - intros Hj f Hf. rewrite (Run_taken f tr s HR Hf).
    rewrite count_pc_zero, Z.add_0_r.
    + split; [reflexivity|]. intros Hlt. apply wrap_int_small.
      pose proof (count_act_nonneg (A_op (return_of f)) (all_actions tr)).
      unfold completed in *. lia.
    + intros i t Hi. rewrite (all_joined_exited s i t HI Hj Hi). reflexivity.
  - intros a e s' v Hs Hv.
    destruct (taken_step a s e s' v HI Hs Hv) as [E|E]; rewrite E.
    + split; [left; reflexivity|lia].
    + split; [right; reflexivity|]. intros Hb. rewrite wrap_int_incr by lia. lia.
Qed.

(** ** Progress *)

Lemma count_pc_pos p (l : list thread) :
  1 <= count_pc p l -> exists i t, l !! i = Some t /\ p (tpc_of t) = true.
Proof.
  induction l as [|t0 l IH]; simpl; intros H; [lia|].
  destruct (p (tpc_of t0)) eqn:E.
  - exists 0%nat, t0. split; [reflexivity|exact E].
  - destruct IH as (i & t & Hi & Ht); [lia|].
    exists (S i), t. split; assumption.
Qed.

(** A thread that holds the semaphore is never waiting for it. *)
Lemma holder_steps s i t :
  Inv s -> threads s !! i = Some t ->
  holds_read (tpc_of t) || holds_write (tpc_of t) = true ->
  exists a s', step_thread i s = Ok (a, s').
Proof.
  intros HI Hi Hh.
  pose proof (inv_pcs _ (inv_sem _ HI) _ _ Hi) as Hin.
  unfold step_thread. rewrite Hi.
  destruct (tkind t); simpl in Hin;
    repeat (destruct Hin as [Hin|Hin];
            [rewrite <- Hin in *; simpl in Hh; try discriminate Hh;
             simpl; eexists; eexists; reflexivity|]);
    contradiction.
Qed.

(** With every count within the 20 slots of the completion arrays no step
    is a [Fault]: no access falls outside a completion array. *)
Lemma no_fault tr s a :
  Run tr s -> (forall k, 0 <= num k <= 20) -> step a s <> Fault.
Proof.
  intros HR Hnum. pose proof (Run_Inv _ _ HR) as HI.
  pose proof (inv_join _ HI) as HJ.
  pose proof (inv_main _ HJ) as Hm. unfold main_ok in Hm.
  destruct a as [| |i]; simpl.
  - assert (H : step_main s <> Fault); [|destruct (step_main s); congruence].
    unfold step_main.
    destruct (main s) eqn:Hpc; try discriminate.
    + destruct (lookup_lt_is_Some_2 (comp k s) (Z.to_nat loop)) as [d Hd].
      { rewrite (inv_comp_len _ HJ). unfold NCOMP. lia. }
      rewrite Hd. discriminate.
    + destruct Hm as [Hl Hb]. unfold below_num in Hb.
      rewrite to_ulong_small in Hb by (specialize (Hnum k); lia).
      destruct (lookup_lt_is_Some_2 (comp k s) (Z.to_nat loop)) as [d Hd].
      { rewrite (inv_comp_len _ HJ). unfold NCOMP. specialize (Hnum k). lia. }
      rewrite Hd. destruct (0 <? d); discriminate.
  - assert (H : step_timer s <> Fault); [|destruct (step_timer s); congruence].
    unfold step_timer. destruct (timer_pending s) eqn:Hp; [|discriminate].
    rewrite (inv_timer _ HJ Hp). discriminate.
  - assert (H : step_thread i s <> Fault);
      [|destruct (step_thread i s) as [[]| |]; congruence].
    unfold step_thread. destruct (threads s !! i) as [t|] eqn:Hi; [|discriminate].
    destruct (tpc_of t) as [|[|[f st] k]| | |] eqn:Hpc; try discriminate.
    + destruct (exec_stmt f st s); discriminate.
    + rewrite (inv_comp _ HJ _ _ Hi). discriminate.
Qed.

(** A thread that has not exited can take a step, or else it waits for the
    semaphore and the thread holding it can. *)
Lemma thread_progress s i t :
  Inv s -> threads s !! i = Some t -> tpc_of t <> T_exited ->
  exists j a s', step_thread j s = Ok (a, s').
Proof.
  intros HI Hi Hne.
  destruct (inv_sem _ HI) as [H1 H2 H3 H4]. unfold lock_ok in H2.
  pose proof (count_pc_bounds holds_read (threads s)) as Br.
  assert (Hold : rwsem_sem s <> 0 -> exists j a s', step_thread j s = Ok (a, s')).
  { intros Hs.
    assert (Hc : 1 <= count_pc holds_read (threads s)
                 \/ 1 <= count_pc holds_write (threads s)) by lia.
    destruct Hc as [Hc|Hc]; apply count_pc_pos in Hc as (j & t' & Hj & Ht');
      destruct (holder_steps s j t' HI Hj) as (a & s' & Hs');
      try (rewrite Ht'; auto using orb_true_r);
      exists j, a, s'; exact Hs'. }
  destruct (step_thread i s) as [[a s']| |] eqn:Ht.
  - exists i, a, s'. exact Ht.
  - unfold step_thread in Ht. rewrite Hi in Ht.
    destruct (tpc_of t) as [|[|[f st] k]| | |]; try discriminate; try congruence.
    + destruct st; simpl in Ht; try discriminate.
      * apply Hold. unfold RWSem.down_read in Ht.
        destruct (0 <=? rwsem_sem s) eqn:E; [discriminate|]. lia.
      * apply Hold. unfold RWSem.down_write in Ht.
        destruct (rwsem_sem s =? 0) eqn:E; [discriminate|]. lia.
    + rewrite (inv_comp _ (inv_join _ HI) _ _ Hi) in Ht. discriminate.
  - unfold step_thread in Ht. rewrite Hi in Ht.
    destruct (tpc_of t) as [|[|[f st] k]| | |]; try discriminate.
    + destruct (exec_stmt f st s); discriminate.
    + rewrite (inv_comp _ (inv_join _ HI) _ _ Hi) in Ht. discriminate.
Qed.


(** ** The way to the return *)

Lemma main_left_nonneg s : main_ok s -> 0 <= main_left (main s).
Proof.
  unfold main_ok.
  destruct (main s) as [| | |loop|k loop|k loop|k loop| | | | |k loop|k loop| | | | | | | |v];
    try destruct k; simpl; lia.
Qed.

Lemma step_main_left s s' :
  Inv s -> step_main s = Ok s' -> main_left (main s') < main_left (main s).
Proof.
  intros HI H. pose proof (inv_join _ HI) as HJ.
  pose proof (inv_main _ HJ) as Hm. unfold main_ok in Hm.
  unfold step_main in H.
  destruct (main s) as [| | |loop|k loop|k loop|k loop| | | | |k loop|k loop| | | | | | | |v] eqn:Hpc.
  all: try (assert (Hlt : (Z.to_nat loop < 20)%nat)
             by (destruct (comp k s !! Z.to_nat loop) eqn:E; [|discriminate];
                 apply lookup_lt_Some in E;
                 rewrite (inv_comp_len _ HJ) in E; exact E)).
  all: split_guards H; bool_arith; simpl.
  all: try destruct k; unfold after_if, after_join; simpl.
  all: rewrite ?to_ulong_small by lia; lia.
Qed.

Lemma steps_before_join s :
  Inv s -> joining (main s) = false -> exists s', step_main s = Ok s'.
Proof.
  intros HI Hj. pose proof (inv_join _ HI) as HJ.
  pose proof (inv_main _ HJ) as Hm. unfold main_ok in Hm.
  unfold step_main.
  destruct (main s) as [| | |loop|k loop|k loop|k loop| | | | |k loop|k loop| | | | | | | |v] eqn:Hpc;
    try discriminate; eauto.
  destruct (lookup_lt_is_Some_2 (comp k s) (Z.to_nat loop)) as [d Hd].
  { rewrite (inv_comp_len _ HJ). unfold NCOMP. lia. }
  rewrite Hd. eauto.
Qed.

Lemma step_main_joining s s' :
  step_main s = Ok s' -> joining (main s) = true ->
  joining (main s') = true /\ threads s' = threads s
  /\ (do_stuff s = 0 -> do_stuff s' = 0).
Proof.
  intros H Hj. unfold step_main in H.
  destruct (main s) as [| | |loop|k loop|k loop|k loop| | | | |k loop|k loop| | | | | | | |v] eqn:Hpc;
    try discriminate; split_guards H; try destruct k;
    unfold after_join; simpl; auto.
Qed.

Lemma sum_pc_insert f l i k N pc0 pc :
  l !! i = Some (Thread k N pc0) ->
  sum_pc f (<[i := Thread k N pc]> l) = sum_pc f l - f pc0 + f pc.
Proof.
  revert i. induction l as [|t0 l IH]; intros [|i] H; simpl in *; try discriminate.
  - injection H as ->. simpl. lia.
  - rewrite (IH _ H). lia.
Qed.

Lemma sum_pc_nonneg f l : (forall pc, 0 <= f pc) -> 0 <= sum_pc f l.
Proof.
  intros Hf. induction l as [|t l IH]; simpl; [lia|].
  specialize (Hf (tpc_of t)). lia.
Qed.

Lemma thread_left_nonneg pc : 0 <= thread_left pc.
Proof. destruct pc; simpl; lia. Qed.

(** Once [do_stuff] is clear every statement of a thread brings it nearer
    to its exit, and no thread sets the flag again. *)
Lemma step_thread_left i s a s' :
  Inv s -> do_stuff s = 0 -> step_thread i s = Ok (a, s') ->
  sum_pc thread_left (threads s') < sum_pc thread_left (threads s)
  /\ do_stuff s' = 0 /\ main s' = main s.
Proof.
  intros HI H0 H. unfold step_thread in H.
  destruct (threads s !! i) as [t|] eqn:Hi; [|discriminate].
  pose proof (inv_pcs _ (inv_sem _ HI) _ _ Hi) as Hpc.
  thread_cases H Hi Hpc.
  all: split_guards H; bool_arith; try lia.
  all: unfold set_pc, CHECKA; simpl.
  all: repeat match goal with
         | |- context [if ?b then _ else _] => destruct b
         end; simpl.
  all: rewrite (sum_pc_insert _ _ _ _ _ _ _ Hi); simpl.
  all: repeat split; first [assumption | reflexivity | lia].
Qed.

Lemma main_or_thread tr s :
  Run tr s -> (forall k, 0 <= num k <= 20) ->
  (forall v, main s <> M_returned v) ->
  (exists s', step_main s = Ok s')
  \/ (exists j a s', step_thread j s = Ok (a, s')).
Proof.
  intros HR Hnum Hret. pose proof (Run_Inv _ _ HR) as HI.
  pose proof (inv_join _ HI) as HJ.
  pose proof (inv_main _ HJ) as Hm. unfold main_ok in Hm.
  pose proof (no_fault tr s Main HR Hnum) as Hnf. simpl in Hnf.
  destruct (step_main s) as [s'| |] eqn:Hs; [| |congruence].
  { left. exists s'. reflexivity. }
  right. unfold step_main in Hs.
  destruct (main s) as [| | |loop|k loop|k loop|k loop| | | | |k loop|k loop| | | | | | | |v] eqn:Hpc;
    try discriminate; try (destruct (comp k s !! Z.to_nat loop); discriminate);
    [|exfalso; eapply Hret; reflexivity].
  destruct Hm as [Hl Hb].
  assert (Hlt : 0 <= loop < 20).
  { unfold below_num in Hb.
    rewrite to_ulong_small in Hb by (specialize (Hnum k); lia).
    specialize (Hnum k). lia. }
  assert (Hsp : spawned (main s) k loop).
  { rewrite Hpc. unfold spawned. simpl. split; [lia|]. split; [exact Hb|].
    destruct k; simpl; lia. }
  apply (inv_all _ (inv_spawn _ HI)) in Hsp. unfold keys in Hsp.
  apply list_elem_of_fmap in Hsp as (t & Hk & Hin).
  apply list_elem_of_lookup_1 in Hin as [i Hi].
  unfold key in Hk. injection Hk as Hk1 Hk2.
  apply (thread_progress s i t HI Hi). intros Hex.
  pose proof (inv_comp _ HJ _ _ Hi) as Hc.
  rewrite <- Hk1, <- Hk2, Hex, Hpc in Hc. rewrite Hc in Hs.
  unfold joined in Hs. simpl in Hs.
  rewrite Z.ltb_irrefl in Hs. simpl in Hs. discriminate.
Qed.

(** No deadlock: with every count within the 20 slots, as long as
    [rwsem_init_module] has not returned some statement can be executed. *)
Lemma deadlock_free tr s :
  Run tr s -> (forall k, 0 <= num k <= 20) ->
  (forall v, main s <> M_returned v) ->
  exists a e s', step a s = Ok (e, s').
Proof.
  intros HR Hnum Hret.
  destruct (main_or_thread tr s HR Hnum Hret) as [[s' Hs]|(j & a & s' & Hj)].
  - exists Main, (E_main (main s)), s'. simpl. rewrite Hs. reflexivity.
  - exists (Thr j), (E_thread j a), s'. simpl. rewrite Hj. reflexivity.
Qed.

Lemma Run_timer_fired tr s :
  Run tr s -> joining (main s) = true -> timer_pending s = false ->
  do_stuff s = 0.
Proof.
  induction 1 as [|tr s a e s' HR IH Hs]; [discriminate|].
  pose proof (Run_Inv _ _ HR) as HI.
  destruct a as [| |i]; simpl in Hs.
  - destruct (step_main s) as [s0| |] eqn:Hm; try discriminate.
    inversion Hs; subst.
    pose proof (Run_stopped _ _ HR) as Hst.
    unfold step_main in Hm.
    destruct (main s) as [| | |loop|k loop|k loop|k loop| | | | |k loop|k loop| | | | | | | |v] eqn:Hpc;
      try destruct k; split_guards Hm; unfold after_if, after_join; simpl;
      intros Hj Hp; try discriminate; try reflexivity;
      first [apply IH; [reflexivity|assumption] | apply Hst; reflexivity].
  - unfold step_timer in Hs. destruct (timer_pending s); [|discriminate].
    destruct (timer_function s) as [[]|]; [|discriminate].
    inversion Hs; subst. reflexivity.
  - destruct (step_thread i s) as [[a s0]| |] eqn:Ht; try discriminate.
    inversion Hs; subst. intros Hj Hp.
    pose proof (step_thread_frame _ _ _ _ Ht) as (t & pc' & _ & _ & Hm & _ & Htp & _).
    rewrite Hm in Hj. rewrite Htp in Hp.
    destruct (step_thread_left i s a s' HI (IH Hj Hp) Ht) as (_ & H0 & _).
    exact H0.
Qed.

Lemma reach_join n : forall tr s,
  Run tr s -> main_left (main s) <= Z.of_nat n ->
  exists tr' s', Run (tr ++ tr') s' /\ joining (main s') = true.
Proof.
  induction n as [|n IH]; intros tr s HR Hn;
    pose proof (Run_Inv _ _ HR) as HI;
    (destruct (joining (main s)) eqn:Hj;
     [exists [], s; rewrite app_nil_r; split; assumption|]);
    destruct (steps_before_join s HI Hj) as [s' Hs];
    pose proof (step_main_left s s' HI Hs) as Hlt;
    assert (HR' : Run (tr ++ [E_main (main s)]) s')
      by (apply (Run_step tr s Main); [exact HR|simpl; rewrite Hs; reflexivity]).
  - pose proof (main_left_nonneg s' (inv_main _ (inv_join _ (Run_Inv _ _ HR')))).
    lia.
  - destruct (IH _ s' HR') as (tr' & s'' & HR'' & Hj''); [lia|].
    exists ([E_main (main s)] ++ tr'), s''. rewrite app_assoc.
    split; assumption.
Qed.

Lemma reach_stopped tr s :
  Run tr s ->
  exists tr' s', Run (tr ++ tr') s' /\ joining (main s') = true /\ do_stuff s' = 0.
Proof.
  intros HR.
  destruct (reach_join (Z.to_nat (main_left (main s))) tr s HR)
    as (tr1 & s1 & HR1 & Hj1); [lia|].
  destruct (timer_pending s1) eqn:Hp.
  - pose proof (inv_timer _ (inv_join _ (Run_Inv _ _ HR1)) Hp) as Hf.
    exists (tr1 ++ [E_timer]), (stop_test (set_timer (timer_function s1) false s1)).
    rewrite app_assoc. split; [|split; [exact Hj1|reflexivity]].
    apply (Run_step _ s1 Timer); [exact HR1|].
    simpl. unfold step_timer. rewrite Hp, Hf. reflexivity.
  - exists tr1, s1. split; [exact HR1|]. split; [exact Hj1|].
    apply (Run_timer_fired _ _ HR1 Hj1 Hp).
Qed.

Lemma returned_or_not pc :
  (exists v, pc = M_returned v) \/ (forall v, pc <> M_returned v).
Proof. destruct pc; first [right; discriminate | left; eauto]. Qed.

Lemma reach_return n : forall tr s,
  Run tr s -> (forall k, 0 <= num k <= 20) ->
  joining (main s) = true -> do_stuff s = 0 ->
  work_left s <= Z.of_nat n ->
  exists tr' s' v, Run (tr ++ tr') s' /\ main s' = M_returned v.
Proof.
  induction n as [|n IH]; intros tr s HR Hnum Hj H0 Hn;
    pose proof (Run_Inv _ _ HR) as HI.
  all: destruct (returned_or_not (main s)) as [[v Hv]|Hret];
    [exists [], s, v; rewrite app_nil_r; split; assumption|].
  all: pose proof (main_left_nonneg s (inv_main _ (inv_join _ HI))) as Hm0.
  all: pose proof (sum_pc_nonneg thread_left (threads s) thread_left_nonneg) as Ht0.
  all: unfold work_left in Hn.
  all: destruct (main_or_thread tr s HR Hnum Hret) as [[s' Hs]|(j & a & s' & Hs)].
  all: try (pose proof (step_main_left s s' HI Hs) as Hlt;
            destruct (step_main_joining s s' Hs Hj) as (Hj' & Hth & Hd);
            assert (HR' : Run (tr ++ [E_main (main s)]) s')
              by (apply (Run_step tr s Main);
                  [exact HR|simpl; rewrite Hs; reflexivity]);
            pose proof (main_left_nonneg s'
                          (inv_main _ (inv_join _ (Run_Inv _ _ HR')))) as Hm1).
  all: try (destruct (step_thread_left j s a s' HI H0 Hs) as (Hlt & Hd & Hm);
            assert (HR' : Run (tr ++ [E_thread j a]) s')
              by (apply (Run_step tr s (Thr j));
                  [exact HR|simpl; rewrite Hs; reflexivity]);
            pose proof (sum_pc_nonneg thread_left (threads s')
                          thread_left_nonneg) as Ht1).
  - lia.
  - lia.
  - destruct (IH _ s' HR' Hnum Hj' (Hd H0)) as (tr' & s'' & v & HR'' & Hv).
    { unfold work_left. rewrite Hth. lia. }
    exists ([E_main (main s)] ++ tr'), s'', v. rewrite app_assoc.
    split; assumption.
  - destruct (IH _ s' HR' Hnum) as (tr' & s'' & v & HR'' & Hv);
      [rewrite Hm; exact Hj|exact Hd|unfold work_left; rewrite Hm; lia|].
    exists ([E_thread j a] ++ tr'), s'', v. rewrite app_assoc.
    split; assumption.
Qed.

(** With every count within the 20 slots of the completion arrays, the return
    of [rwsem_init_module] with [-ENOANO] stays within reach of every state
    the module can be in. *)
Lemma can_return tr s :
  Run tr s -> (forall k, 0 <= num k <= 20) ->
  exists tr' s',
    Run (tr ++ tr') s' /\ main s' = M_returned (wrap_int (- ENOANO)).
Proof.
  intros HR Hnum.
  destruct (reach_stopped tr s HR) as (tr1 & s1 & HR1 & Hj1 & H01).
  pose proof (Run_Inv _ _ HR1) as HI1.
  pose proof (main_left_nonneg s1 (inv_main _ (inv_join _ HI1))) as Hm0.
  pose proof (sum_pc_nonneg thread_left (threads s1) thread_left_nonneg) as Ht0.
  destruct (reach_return (Z.to_nat (work_left s1)) _ s1 HR1 Hnum Hj1 H01)
    as (tr2 & s2 & v & HR2 & Hv); [unfold work_left; lia|].
  exists (tr1 ++ tr2), s2. rewrite app_assoc. split; [exact HR2|].
  rewrite Hv. f_equal. apply (init_return_value _ _ _ HR2 Hv).
Qed.

(** When the join loops are over.  Once every [wait_for_completion] of the
    three join loops has returned, all threads have exited and the
    semaphore is idle; when [rwsem_init_module] has returned, the log ends
    with the four report lines: the semaphore counter, which is the idle
    value, and the values of [reads_taken], [writes_taken] and
    [downgrades_taken], which count (in 32-bit arithmetic) the calls of [dr],
    [dw] and [dgw] that completed.  With every count within the 20 slots of
    the completion arrays the run can always be continued to that return. *)
Theorem final_report tr s :
  Run tr s -> all_joined s ->
  (forall i t, threads s !! i = Some t -> tpc_of t = T_exited)
  /\ rwsem_sem s = 0
  /\ readers s = 0 /\ writers s = 0
  /\ reads_taken s = wrap_int (completed Fdr tr)
  /\ writes_taken s = wrap_int (completed Fdw tr)
  /\ downgrades_taken s = wrap_int (completed Fdgw tr)
  /\ (forall v, main s = M_returned v ->
      exists l, klog s = l ++ [ msg_counter (rwsem_sem s);
                                msg_reads_taken (reads_taken s);
                                msg_writes_taken (writes_taken s);
                                msg_downgrades_taken (downgrades_taken s) ])
  /\ ((forall k, 0 <= num k <= 20) ->
      exists tr' s',
        Run (tr ++ tr') s' /\ all_joined s'
        /\ main s' = M_returned (wrap_int (- ENOANO))).
Proof.
  intros HR Hj. pose proof (Run_Inv _ _ HR) as HI.
  destruct (all_joined_idle s HI Hj) as (Hs & Hr & Hw).
  assert (Hz : forall p, p T_exited = false -> count_pc p (threads s) = 0).
  { intros p Hp. apply count_pc_zero. intros i t Hi.
    rewrite (all_joined_exited s i t HI Hj Hi). exact Hp. }
  split; [intros i t Hi; eapply all_joined_exited; eauto|].
  repeat (split; [assumption|]).
  pose proof (Run_taken Fdr tr s HR) as T1.
  pose proof (Run_taken Fdw tr s HR) as T2.
  pose proof (Run_taken Fdgw tr s HR) as T3.
  rewrite Hz, Z.add_0_r in T1, T2, T3 by reflexivity. simpl in T1, T2, T3.
  repeat (split; [tauto|]). split.
  - intros v Hv. destruct (Run_report tr s HR) as [l Hl].
    unfold report in Hl. rewrite Hv in Hl. exists l. rewrite Hs. exact Hl.
  - intros Hnum. destruct (can_return tr s HR Hnum) as (tr' & s' & HR' & Hv).
    exists tr', s'. split; [exact HR'|]. split; [|exact Hv].
    unfold all_joined. rewrite Hv. reflexivity.
Qed.

(** C10 — With more than 20 threads of one kind asked for,
    [rwsem_init_module] never returns: it cannot leave the join loop of that
    kind, whose wait on index 20 is outside the completion array. *)
Theorem init_never_returns tr s k :
  Run tr s -> 20 < num k < 2 ^ 31 ->
  (forall v, main s <> M_returned v)
  /\ (main s = M_wait k 20 -> step Main s = Fault).
Proof.
  intros HR Hk. pose proof (Run_Inv _ _ HR) as HI.
  pose proof (Run_never_joined k tr s Hk HR) as Hnj. split.
  - intros v E. rewrite E in Hnj. simpl in Hnj. destruct Hnj; discriminate.
  - intros Hpc. simpl. unfold step_main. rewrite Hpc.
    pose proof (inv_comp_len _ (inv_join _ HI) k) as Hlen.
    rewrite (proj2 (lookup_ge_None _ _)); [reflexivity|].
    rewrite Hlen. unfold NCOMP. lia.
Qed.

(** * Further properties of the harness *)

(** ** Releases *)

Lemma release_pcs k pc f st rest :
  In pc (pcs k) -> pc = T_run ((f, st) :: rest) ->
  (st = UpRead -> f = Fur /\ holds_read pc = true
                  /\ counted a_readers pc = false)
  /\ (st = UpWrite -> f = Fuw /\ holds_write pc = true
                      /\ counted a_readers pc = false
                      /\ counted a_writers pc = false).
Proof.
  destruct k; simpl; intros H E;
    repeat (destruct H as [H|H];
            [subst pc; try discriminate; injection E as <- <- <-;
             split; intros; try discriminate; simpl; tauto|]);
    contradiction.
Qed.

(** X1 — [ur] and [uw] release only what the caller holds.  When a thread
    is about to run [up_read] the semaphore is held for reading (by that
    thread among others), no writer is counted, and the [readers] counter,
    which the thread has left already, is below the number of holders; the
    step takes one holder off.  When a thread is about to run [up_write] the
    semaphore is write-held, both counters are 0, and the step leaves the
    semaphore free. *)
Theorem releases_held tr s i t f st rest :
  Run tr s -> threads s !! i = Some t ->
  tpc_of t = T_run ((f, st) :: rest) ->
  (st = UpRead ->
   f = Fur /\ 1 <= rwsem_sem s /\ writers s = 0
   /\ 0 <= readers s < rwsem_sem s
   /\ exists s', step (Thr i) s = Ok (E_thread i (A_op (Fur, UpRead)), s')
                 /\ rwsem_sem s' = rwsem_sem s - 1
                 /\ readers s' = readers s /\ writers s' = 0)
  /\ (st = UpWrite ->
      f = Fuw /\ rwsem_sem s = -1 /\ writers s = 0 /\ readers s = 0
      /\ exists s', step (Thr i) s = Ok (E_thread i (A_op (Fuw, UpWrite)), s')
                    /\ rwsem_sem s' = 0
                    /\ readers s' = 0 /\ writers s' = 0).
Proof.
  intros HR Hi Hpc. pose proof (Run_Inv _ _ HR) as HI.
  pose proof (inv_pcs _ (inv_sem _ HI) _ _ Hi) as Hin.
  destruct (release_pcs _ _ _ _ _ Hin Hpc) as [Hur Huw].
  destruct (holder_facts s i t HI Hi) as (HW & HRd & _ & _).
  destruct (inv_sem _ HI) as [H1 H2 H3 H4]. unfold lock_ok in H2.
  split; intros ->.
  - destruct (Hur eq_refl) as (-> & Hh & Hc).
    destruct (HRd Hh) as [Hs Hw].
    assert (Hlt : 0 <= readers s < rwsem_sem s).
    { pose proof (count_pc_lookup holds_read _ _ _ Hi) as A.
      rewrite Hh in A. simpl in A.
      assert (W0 : count_pc holds_write (threads s) = 0) by lia.
      assert (Hs' : rwsem_sem s = count_pc holds_read (threads s)) by lia.
      destruct t as [k N pc]. simpl in *.
      assert (Hl : forall j t', <[i := Thread k N T_exited]> (threads s) !! j = Some t' ->
                     In (tpc_of t') (pcs (tkind t'))).
      { apply (pcs_insert _ _ _ _ _ _ Hi H1). simpl. tauto. }
      pose proof (count_pc_le2 (counted a_readers) (counted a_writers)
                    holds_read holds_write _
                    (fun j t' Hj => proj2 (pcs_counted _ _ (Hl j t' Hj)))) as B.
      rewrite !(count_pc_insert _ _ _ _ _ _ T_exited Hi) in B.
      rewrite Hh, Hc in B. simpl in B.
      pose proof (count_pc_bounds (counted a_readers) (threads s)) as Cr.
      pose proof (count_pc_bounds (counted a_writers)
                    (<[i := Thread k N T_exited]> (threads s))) as Cw.
      rewrite (count_pc_insert _ _ _ _ _ _ T_exited Hi) in Cw. simpl in Cw.
      pose proof (count_pc_bounds holds_write
                    (<[i := Thread k N T_exited]> (threads s))) as Cx.
      rewrite (count_pc_insert _ _ _ _ _ _ T_exited Hi) in Cx. simpl in Cx.
      rewrite H3, Hs'. unfold b2z in *.
      destruct (holds_write pc), (counted a_writers pc); lia. }
    split; [reflexivity|]. split; [exact Hs|]. split; [exact Hw|].
    split; [exact Hlt|].
    eexists. split.
    + simpl. unfold step_thread. rewrite Hi, Hpc. reflexivity.
    + simpl. unfold RWSem.up_read. repeat split; first [assumption | lia].
  - destruct (Huw eq_refl) as (-> & Hh & Hcr & Hcw).
    destruct (HW Hh) as [Hs _].
    destruct (holder_counts s i t HI Hi Hh) as [Hr Hw].
    rewrite Hcr in Hr. rewrite Hcw in Hw. simpl in Hr, Hw.
    split; [reflexivity|]. split; [exact Hs|]. split; [exact Hw|].
    split; [exact Hr|].
    eexists. split.
    + simpl. unfold step_thread. rewrite Hi, Hpc. reflexivity.
    + simpl. repeat split; assumption.
Qed.

(** ** The counters and the occupancy *)

(** X2 — The instrumentation agrees with the semaphore.  The occupancy is
    -1 or counts the threads that hold the semaphore for reading; while it is
    not write-held no writer is counted and [readers] does not exceed the
    occupancy; the counters stay within the number of threads, at most 60,
    far from the limits of [atomic_t]. *)
Theorem counters_within_occupancy tr s :
  Run tr s ->
  -1 <= rwsem_sem s <= Z.of_nat (length (threads s))
  /\ (length (threads s) <= 60)%nat
  /\ 0 <= readers s <= Z.of_nat (length (threads s))
  /\ (0 <= rwsem_sem s ->
      rwsem_sem s = count_pc holds_read (threads s)
      /\ writers s = 0 /\ readers s <= rwsem_sem s)
  /\ (rwsem_sem s = -1 ->
      count_pc holds_write (threads s) = 1
      /\ count_pc holds_read (threads s) = 0
      /\ readers s + writers s <= 1).
Proof.
  intros HR. pose proof (Run_Inv _ _ HR) as HI.
  destruct (exclusion s HI) as (Hr & Hw & Hrw & HW & HRW).
  destruct (writers_le_holders s HI) as [Hw' Hrw'].
  destruct (inv_sem _ HI) as [H1 H2 H3 H4]. unfold lock_ok in H2.
  pose proof (count_pc_bounds holds_read (threads s)) as Br.
  pose proof (count_pc_bounds holds_write (threads s)) as Bw.
  pose proof (count_pc_bounds (counted a_readers) (threads s)) as Bc.
  pose proof (inv_length _ (inv_spawn _ HI)) as Hlen.
  pose proof (spawn_progress_max _ (inv_main _ (inv_join _ HI))) as Hmax.
  split; [lia|]. split; [lia|]. split; [lia|]. split; intros Hs; lia.
Qed.

(** ** Bounds and progress *)

(** X3 — Every access to the completion arrays is in bounds when the
    counts are within the 20 slots.  [init_completion] in the spawn loop and
    [complete_and_exit] in the threads use an index below 20 whatever the
    counts are, and the statement finds its slot and is executed; with every
    count within 0..20 the index of each [wait_for_completion] is below 20 as
    well, and the wait returns or blocks on a slot of the array. *)
Theorem accesses_in_bounds tr s :
  Run tr s ->
  (forall k, length (comp k s) = 20%nat)
  /\ (forall k loop, main s = M_init_completion k loop ->
      0 <= loop < 20 /\ is_Some (comp k s !! Z.to_nat loop)
      /\ exists s', step Main s = Ok (E_main (main s), s'))
  /\ (forall i t, threads s !! i = Some t ->
      0 <= targ t < 20 /\ is_Some (comp (tkind t) s !! Z.to_nat (targ t))
      /\ (tpc_of t = T_complete ->
          exists s', step (Thr i) s = Ok (E_thread i A_complete, s')))
  /\ ((forall k, 0 <= num k <= 20) ->
      forall k loop, main s = M_wait k loop ->
        0 <= loop < 20 /\ is_Some (comp k s !! Z.to_nat loop)
        /\ step Main s <> Fault).
Proof.
  intros HR. pose proof (Run_Inv _ _ HR) as HI.
  pose proof (inv_join _ HI) as HJ.
  pose proof (inv_main _ HJ) as Hm. unfold main_ok in Hm.
  assert (Hslot : forall k n, 0 <= n < 20 -> is_Some (comp k s !! Z.to_nat n)).
  { intros k n Hn. apply lookup_lt_is_Some_2.
    rewrite (inv_comp_len _ HJ). unfold NCOMP. lia. }
  split; [apply (inv_comp_len _ HJ)|]. split; [|split].
  - intros k loop E. rewrite E in Hm.
    assert (Hl : 0 <= loop < 20) by lia.
    split; [exact Hl|]. split; [apply Hslot, Hl|].
    destruct (Hslot k loop Hl) as [d Hd].
    simpl. unfold step_main. rewrite E, Hd. eexists. reflexivity.
  - intros i t Hi.
    destruct (thread_spawned _ _ _ (inv_spawn _ HI) Hi) as (Hr & _).
    split; [exact Hr|]. split; [apply Hslot, Hr|].
    intros Hpc. destruct (Hslot (tkind t) (targ t) Hr) as [d Hd].
    simpl. unfold step_thread. rewrite Hi, Hpc, Hd. eexists. reflexivity.
  - intros Hnum k loop E. rewrite E in Hm.
    destruct Hm as [Hl Hb]. unfold below_num in Hb.
    rewrite to_ulong_small in Hb by (specialize (Hnum k); lia).
    specialize (Hnum k).
    assert (Hlt : 0 <= loop < 20) by lia.
    split; [exact Hlt|]. split; [apply Hslot, Hlt|].
    destruct (Hslot k loop Hlt) as [d Hd].
    simpl. unfold step_main. rewrite E, Hd.
    destruct (0 <? d); discriminate.
Qed.

(** X4 — No deadlock.  With every count within the 20 slots, as long as
    [rwsem_init_module] has not returned, the init function or one of the
    threads can execute its next statement: a wait of the init function is
    for a thread that has not exited, and a thread that waits for the
    semaphore waits for a holder that is not itself waiting. *)
Theorem never_stuck tr s :
  Run tr s -> (forall k, 0 <= num k <= 20) ->
  (forall v, main s <> M_returned v) ->
  (exists e s', step Main s = Ok (e, s'))
  \/ (exists j e s', step (Thr j) s = Ok (e, s')).
Proof.
  intros HR Hnum Hret.
  destruct (main_or_thread tr s HR Hnum Hret) as [[s' Hs]|(j & a & s' & Hj)].
  - left. exists (E_main (main s)), s'. simpl. rewrite Hs. reflexivity.
  - right. exists j, (E_thread j a), s'. simpl. rewrite Hj. reflexivity.
Qed.

(** ** The timer and the flag *)

Lemma timer_events_snoc tr e :
  timer_events (tr ++ [e])
  = timer_events tr + match e with E_timer => 1 | _ => 0 end.
Proof.
  induction tr as [|x tr IH]; simpl; [destruct e; reflexivity|].
  destruct x; rewrite IH; lia.
Qed.

Lemma Run_timer tr s :
  Run tr s ->
  0 <= timer_events tr <= 1
  /\ (joining (main s) = false -> timer_events tr = 0)
  /\ timer_pending s
     = joining (main s) && negb (after_del (main s)) && (timer_events tr =? 0).
Proof.
  induction 1 as [|tr s a e s' HR (IH1 & IH2 & IH3) Hs].
  { simpl. repeat split; first [reflexivity | lia]. }
  rewrite timer_events_snoc.
  destruct a as [| |i]; simpl in Hs.
  - destruct (step_main s) as [s0| |] eqn:Hm; try discriminate.
    inversion Hs; subst. rewrite Z.add_0_r. unfold step_main in Hm.
    destruct (main s) as [| | |loop|k loop|k loop|k loop| | | | |k loop|k loop| | | | | | | |v] eqn:Hpc;
      try destruct k; split_guards Hm; unfold after_if, after_join;
      simpl in *; rewrite ?IH2 by reflexivity;
      (split; [lia|split]);
      try intros ?;
      first [assumption | reflexivity | lia | discriminate
            | apply IH2; reflexivity ].
  - unfold step_timer in Hs. destruct (timer_pending s) eqn:Hp; [|discriminate].
    destruct (timer_function s) as [[]|]; [|discriminate].
    inversion Hs; subst. simpl.
    symmetry in IH3. apply andb_true_iff in IH3 as [IH3 He].
    apply andb_true_iff in IH3 as [Hj Hd]. apply Z.eqb_eq in He.
    rewrite He, Hj. simpl. rewrite andb_false_r.
    split; [lia|]. split; [discriminate|reflexivity].
  - destruct (step_thread i s) as [[a s0]| |] eqn:Ht; try discriminate.
    inversion Hs; subst. rewrite Z.add_0_r.
    apply step_thread_frame in Ht as (t & pc' & _ & _ & -> & _ & -> & _).
    split; [assumption|]. split; assumption.
Qed.

(** X5 — The timer is one-shot.  [stop_test] runs at most once in a run;
    the timer is pending exactly from [add_timer] until it fires or
    [del_timer] removes it, so it never fires before it is armed, after
    [del_timer], or a second time. *)
Theorem timer_one_shot tr s :
  Run tr s ->
  0 <= timer_events tr <= 1
  /\ timer_pending s
     = joining (main s) && negb (after_del (main s)) && (timer_events tr =? 0)
  /\ (joining (main s) = false \/ after_del (main s) = true
      \/ timer_events tr = 1 -> step Timer s = Blocked)
  /\ (forall e s', step Timer s = Ok (e, s') ->
      timer_events tr = 0 /\ timer_events (tr ++ [e]) = 1
      /\ do_stuff s' = 0 /\ step Timer s' = Blocked).
Proof.
  intros HR. destruct (Run_timer tr s HR) as (H1 & H2 & H3).
  split; [exact H1|]. split; [exact H3|]. split.
  - intros H. simpl. unfold step_timer.
    destruct (timer_pending s); [|reflexivity].
    symmetry in H3. apply andb_true_iff in H3 as [H3 He].
    apply andb_true_iff in H3 as [Hj Hd]. apply Z.eqb_eq in He.
    apply negb_true_iff in Hd.
    destruct H as [H|[H|H]]; [congruence|congruence|lia].
  - intros e s' Hs.
    pose proof (Run_step _ _ _ _ _ HR Hs) as HR'.
    destruct (Run_timer _ _ HR') as (H1' & _ & H3').
    simpl in Hs. unfold step_timer in Hs.
    destruct (timer_pending s) eqn:Hp; [|discriminate].
    destruct (timer_function s) as [[]|]; [|discriminate].
    inversion Hs; subst.
    rewrite timer_events_snoc in *.
    symmetry in H3. apply andb_true_iff in H3 as [_ He]. apply Z.eqb_eq in He.
    split; [exact He|]. split; [lia|]. split; [reflexivity|].
    reflexivity.
Qed.

Lemma step_thread_flag i s a s' :
  Inv s -> step_thread i s = Ok (a, s') -> do_stuff s' = do_stuff s.
Proof.
  intros HI H. unfold step_thread in H.
  destruct (threads s !! i) as [t|] eqn:Hi; [|discriminate].
  pose proof (inv_pcs _ (inv_sem _ HI) _ _ Hi) as Hpc.
  thread_cases H Hi Hpc.
  all: split_guards H.
  all: unfold set_pc, CHECKA; simpl.
  all: repeat match goal with
         | |- context [if ?b then _ else _] => destruct b
         end; reflexivity.
Qed.

Lemma Run_flag tr s :
  Run tr s ->
  do_stuff s
  = b2z (started (main s) && negb (after_clear (main s))
         && (timer_events tr =? 0)).
Proof.
  induction 1 as [|tr s a e s' HR IH Hs]; [reflexivity|].
  pose proof (Run_Inv _ _ HR) as HI.
  destruct (Run_timer tr s HR) as (H1 & H2 & H3).
  rewrite timer_events_snoc.
  destruct a as [| |i]; simpl in Hs.
  - destruct (step_main s) as [s0| |] eqn:Hm; try discriminate.
    inversion Hs; subst. rewrite Z.add_0_r. unfold step_main in Hm.
    destruct (main s) as [| | |loop|k loop|k loop|k loop| | | | |k loop|k loop| | | | | | | |v] eqn:Hpc;
      try destruct k; split_guards Hm; unfold after_if, after_join;
      simpl in *;
      first [assumption | reflexivity
            | rewrite ?IH, H2 by reflexivity; reflexivity].
  - unfold step_timer in Hs. destruct (timer_pending s) eqn:Hp; [|discriminate].
    destruct (timer_function s) as [[]|]; [|discriminate].
    inversion Hs; subst. simpl.
    destruct (timer_events tr + 1 =? 0) eqn:E; [apply Z.eqb_eq in E; lia|].
    rewrite andb_false_r. reflexivity.
  - destruct (step_thread i s) as [[a s0]| |] eqn:Ht; try discriminate.
    inversion Hs; subst. rewrite Z.add_0_r.
    rewrite (step_thread_flag _ _ _ _ HI Ht).
    apply step_thread_frame in Ht as (t & pc' & _ & _ & -> & _).
    exact IH.
Qed.

(** X6 — The life of the keep-running flag.  [do_stuff] is 1 exactly from
    the [atomic_set(&do_stuff, 1)] of [rwsem_init_module] until the timer
    fires or the init function's own [atomic_set(&do_stuff, 0)], and 0 at any
    other time: no thread writes it and, once cleared, it is never set
    again. *)
Theorem flag_lifecycle tr s :
  Run tr s ->
  do_stuff s
  = b2z (started (main s) && negb (after_clear (main s))
         && (timer_events tr =? 0))
  /\ (forall a e s', step a s = Ok (e, s') ->
      started (main s) = true -> do_stuff s = 0 -> do_stuff s' = 0)
  /\ (forall i e s', step (Thr i) s = Ok (e, s') -> do_stuff s' = do_stuff s).
Proof.
  intros HR. pose proof (Run_Inv _ _ HR) as HI.
  pose proof (Run_flag tr s HR) as Hf.
  split; [exact Hf|]. split.
  - intros a e s' Hs Hst H0.
    pose proof (Run_flag _ _ (Run_step _ _ _ _ _ HR Hs)) as Hf'.
    rewrite timer_events_snoc in Hf'. rewrite H0 in Hf.
    destruct (Run_timer tr s HR) as (H1 & _ & _).
    rewrite Hf'. rewrite Hst in Hf. simpl in Hf.
    destruct a as [| |i]; simpl in Hs.
    + destruct (step_main s) as [s0| |] eqn:Hm; try discriminate.
      inversion Hs; subst. rewrite Z.add_0_r.
      destruct (timer_events tr =? 0); [|rewrite andb_false_r; reflexivity].
      rewrite andb_true_r in Hf. rewrite andb_true_r.
      destruct (after_clear (main s)) eqn:Hc; [|discriminate].
      unfold step_main in Hm.
      destruct (main s); try discriminate; split_guards Hm; reflexivity.
    + destruct (step_timer s); try discriminate. inversion Hs; subst.
      destruct (timer_events tr + 1 =? 0) eqn:E; [apply Z.eqb_eq in E; lia|].
      rewrite andb_false_r. reflexivity.
    + destruct (step_thread i s) as [[a s0]| |] eqn:Ht; try discriminate.
      inversion Hs; subst. rewrite <- Hf'.
      rewrite (step_thread_flag _ _ _ _ HI Ht). exact H0.
  - intros i e s' Hs. simpl in Hs.
    destruct (step_thread i s) as [[a s0]| |] eqn:Ht; try discriminate.
    inversion Hs; subst. apply (step_thread_flag _ _ _ _ HI Ht).
Qed.

Lemma insert_pc_inj (l : list thread) i k N pc pc' :
  (i < length l)%nat ->
  <[i := Thread k N pc]> l = <[i := Thread k N pc']> l -> pc = pc'.
Proof.
  intros Hlt E. apply (f_equal (fun x => x !! i)) in E.
  rewrite !list_lookup_insert_eq in E by assumption. congruence.
Qed.

Lemma Run_left_loop tr s :
  Run tr s ->
  forall i t, threads s !! i = Some t -> past_loop (tpc_of t) = true ->
              timer_events tr = 1.
Proof.
  induction 1 as [|tr s a e s' HR IH Hs]; [intros i t H; discriminate|].
  pose proof (Run_Inv _ _ HR) as HI.
  destruct (Run_timer _ _ (Run_step _ _ _ _ _ HR Hs)) as (H1' & _ & _).
  destruct (Run_timer tr s HR) as (H1 & _ & _).
  rewrite timer_events_snoc in *.
  destruct a as [| |i]; simpl in Hs.
  - destruct (step_main s) as [s0| |] eqn:Hm; try discriminate.
    inversion Hs; subst. rewrite Z.add_0_r. intros i t Hi Hp.
    destruct (step_main_threads _ _ Hm) as [E|(k & N & E)]; rewrite E in Hi.
    + eapply IH; eauto.
    + destruct (lookup_app_Some (threads s) [Thread k N T_daemonize] i t)
        as [Hl _].
      destruct (Hl Hi) as [Hi'|[_ Hi']]; [eapply IH; eauto|].
      destruct (i - length (threads s))%nat; simpl in Hi'; [|discriminate].
      injection Hi' as <-. discriminate.
  - destruct (step_timer s); try discriminate. inversion Hs; subst.
    intros i t Hi Hp. lia.
  - destruct (step_thread i s) as [[a s0]| |] eqn:Ht; try discriminate.
    inversion Hs; subst. rewrite Z.add_0_r. intros j t' Hj Hp.
    pose proof (Run_flag tr s HR) as Hf.
    destruct (step_thread_frame _ _ _ _ Ht) as (t & pc' & Hi & Hth & _).
    rewrite Hth in Hj.
    destruct (decide (j = i)) as [->|Hne];
      [|rewrite list_lookup_insert_ne in Hj by congruence; exact (IH _ _ Hj Hp)].
    rewrite list_lookup_insert_eq in Hj by (eapply lookup_lt_Some; eauto).
    injection Hj as <-. simpl in Hp.
    destruct (past_loop (tpc_of t)) eqn:Hold; [eapply IH; eauto|].
    assert (Hst : started (main s) = true).
    { destruct (thread_spawned _ _ _ (inv_spawn _ HI) Hi) as (Hr & _ & Hsp).
      destruct (main s); try reflexivity; simpl in Hsp;
        destruct (tkind t); simpl in Hsp; lia. }
    assert (Hac : after_clear (main s) = false).
    { destruct (after_clear (main s)) eqn:Hc; [|reflexivity].
      assert (Haj : all_joined s)
        by (unfold all_joined; destruct (main s); try discriminate; reflexivity).
      rewrite (all_joined_blocked s i HI Haj) in Ht. discriminate. }
    rewrite Hst, Hac in Hf. simpl in Hf.
    assert (H0 : do_stuff s = 0).
    { unfold step_thread in Ht. rewrite Hi in Ht.
      destruct (tpc_of t) as [|[|[f st] k]| | |] eqn:Hpc;
        try discriminate Ht; try discriminate Hold.
      - inversion Ht; subst. unfold set_pc in Hth. simpl in Hth.
        apply insert_pc_inj in Hth; [|eapply lookup_lt_Some; eauto].
        subst pc'. discriminate.
      - simpl in Ht. destruct (do_stuff s =? 0) eqn:E0;
          [apply Z.eqb_eq in E0; exact E0|].
        inversion Ht; subst. unfold set_pc in Hth. simpl in Hth.
        apply insert_pc_inj in Hth; [|eapply lookup_lt_Some; eauto].
        subst pc'. discriminate.
      - destruct (exec_stmt f st s) as [s1|] eqn:He; [|discriminate].
        inversion Ht; subst. unfold set_pc in Hth. simpl in Hth.
        apply exec_stmt_frame in He as (Eth & _). rewrite Eth in Hth.
        apply insert_pc_inj in Hth; [|eapply lookup_lt_Some; eauto].
        subst pc'. discriminate. }
    rewrite H0 in Hf.
    destruct (timer_events tr =? 0) eqn:E; [discriminate|].
    apply Z.eqb_neq in E. lia.
Qed.

(** X7 — The test ends only through the timer.  A thread leaves its loop
    only once [stop_test] has run, and when at least one thread was spawned
    the init function gets past its join loops only after that: its own
    [atomic_set(&do_stuff, 0)] comes too late to stop anything.  Until the
    timer fires every thread is still in (or about to enter) its loop. *)
Theorem stopped_by_timer tr s i t :
  Run tr s -> threads s !! i = Some t ->
  (past_loop (tpc_of t) = true -> timer_events tr = 1 /\ do_stuff s = 0)
  /\ (timer_events tr = 0 ->
      do_stuff s = 1
      /\ (tpc_of t = T_daemonize \/ exists k, tpc_of t = T_run k)
      /\ after_clear (main s) = false /\ main s <> M_clear_do_stuff)
  /\ (main s = M_clear_do_stuff \/ after_clear (main s) = true ->
      timer_events tr = 1).
Proof.
  intros HR Hi. pose proof (Run_Inv _ _ HR) as HI.
  pose proof (Run_left_loop tr s HR i t Hi) as Hl.
  pose proof (Run_flag tr s HR) as Hf.
  destruct (Run_timer tr s HR) as (H1 & _ & _).
  assert (Hst : started (main s) = true).
  { destruct (thread_spawned _ _ _ (inv_spawn _ HI) Hi) as (Hr & _ & Hsp).
    destruct (main s); try reflexivity; simpl in Hsp;
      destruct (tkind t); simpl in Hsp; lia. }
  assert (Hpast : main s = M_clear_do_stuff \/ after_clear (main s) = true ->
                  timer_events tr = 1).
  { intros Hm. apply Hl.
    assert (Haj : all_joined s)
      by (unfold all_joined; destruct Hm as [Hm|Hm];
          destruct (main s); try discriminate; reflexivity).
    rewrite (all_joined_exited s i t HI Haj Hi). reflexivity. }
  split; [|split; [|exact Hpast]].
  - intros Hp. specialize (Hl Hp). split; [exact Hl|].
    rewrite Hf, Hl. simpl. rewrite andb_false_r. reflexivity.
  - intros H0.
    assert (Hac : after_clear (main s) = false).
    { destruct (after_clear (main s)) eqn:Hc; [|reflexivity].
      specialize (Hpast (or_intror eq_refl)). lia. }
    split; [rewrite Hf, Hst, Hac, H0; reflexivity|]. split.
    + destruct (tpc_of t) eqn:Hpc; eauto;
        specialize (Hl eq_refl); lia.
    + split; [exact Hac|]. intros Hm. specialize (Hpast (or_introl Hm)). lia.
Qed.

(** ** The spawn loop *)

Lemma to_ulong_range z : 0 <= to_ulong BITS_PER_LONG z < 2 ^ BITS_PER_LONG.
Proof.
  unfold to_ulong. apply Z.mod_pos_bound. apply Z.pow_pos_nonneg; lia.
Qed.

Lemma to_ulong_negative z :
  - 2 ^ 31 <= z < 0 -> to_ulong BITS_PER_LONG z = z + 2 ^ BITS_PER_LONG.
Proof.
  intros H. unfold to_ulong.
  assert (2 ^ 32 <= 2 ^ BITS_PER_LONG) by (apply Z.pow_le_mono_r; lia).
  symmetry. apply (Z.mod_unique z _ (-1)); lia.
Qed.

Lemma kind_count s k :
  InvSpawn s -> spawn_progress (main s) = 60 ->
  length (filter (fun t => tkind t = k) (threads s))
  = Z.to_nat (Z.min 20 (to_ulong BITS_PER_LONG (num k))).
Proof.
  intros HS Hsp.
  assert (E : key <$> filter (fun t => tkind t = k) (threads s)
              = filter (fun p => p.1 = k) (keys s)).
  { unfold keys. induction (threads s) as [|t l IH]; [reflexivity|].
    rewrite fmap_cons, !filter_cons. simpl.
    destruct (decide (tkind t = k)); rewrite <- IH; reflexivity. }
  rewrite <- (length_fmap key), E.
  rewrite <- (length_fmap snd).
  rewrite <- (length_seqZ 0 (Z.min 20 (to_ulong BITS_PER_LONG (num k)))).
  apply Permutation_length, NoDup_Permutation.
  - apply NoDup_fmap_2_strong; [|apply NoDup_filter, (inv_nodup _ HS)].
    intros [k1 N1] [k2 N2] H1 H2 Heq.
    apply list_elem_of_filter in H1 as [H1 _].
    apply list_elem_of_filter in H2 as [H2 _]. simpl in *. congruence.
  - apply NoDup_seqZ.
  - intros N. rewrite elem_of_seqZ. split.
    + intros HN. apply list_elem_of_fmap in HN as ([k' N'] & -> & HN).
      apply list_elem_of_filter in HN as [Hk HN]. simpl in *. subst k'.
      apply (inv_spawned _ HS) in HN as (Hr & Hb & _).
      unfold below_num in Hb. lia.
    + intros HN. apply list_elem_of_fmap. exists (k, N). split; [reflexivity|].
      apply list_elem_of_filter. split; [reflexivity|].
      apply (inv_all _ HS). unfold spawned, below_num. rewrite Hsp.
      split; [lia|]. split; [lia|]. destruct k; simpl; lia.
Qed.

(** X8 — How many threads the spawn loop creates.  Once the loop is over
    there are [min(20, (unsigned long) count)] threads of each kind, one for
    each index below that number and none twice: the count itself when it is
    within 0..20, 20 when it is larger, and also 20 when it is negative,
    because [loop < numrd] compares as [unsigned long]. *)
Theorem spawn_count tr s k :
  Run tr s -> spawn_progress (main s) = 60 ->
  let n := Z.of_nat (length (filter (fun t => tkind t = k) (threads s))) in
  n = Z.min 20 (to_ulong BITS_PER_LONG (num k))
  /\ (0 <= num k <= 20 -> n = num k)
  /\ (20 <= num k < 2 ^ 31 -> n = 20)
  /\ (- 2 ^ 31 <= num k < 0 -> n = 20)
  /\ (forall N, (k, N) ∈ keys s <-> 0 <= N < n)
  /\ NoDup (keys s).
Proof.
  intros HR Hsp. pose proof (Run_Inv _ _ HR) as HI.
  pose proof (inv_spawn _ HI) as HS.
  pose proof (kind_count s k HS Hsp) as Hc.
  pose proof (to_ulong_range (num k)) as Hu.
  assert (2 ^ 32 <= 2 ^ BITS_PER_LONG) by (apply Z.pow_le_mono_r; lia).
  cbv zeta. rewrite Hc, Z2Nat.id by lia.
  split; [reflexivity|]. split; [|split; [|split; [|split]]].
  - intros Hk. rewrite to_ulong_small by lia. lia.
  - intros Hk. rewrite to_ulong_small by lia. lia.
  - intros Hk. rewrite to_ulong_negative by lia. lia.
  - intros N. split.
    + intros HN. apply (inv_spawned _ HS) in HN as (Hr & Hb & _).
      unfold below_num in Hb. lia.
    + intros HN. apply (inv_all _ HS). unfold spawned, below_num. rewrite Hsp.
      split; [lia|]. split; [lia|]. destruct k; simpl; lia.
  - apply (inv_nodup _ HS).
Qed.

Lemma Run_join_stuck k tr s :
  (forall loop, 0 <= loop <= 20 -> below_num k loop = true) -> Run tr s ->
  match main s with
  | M_join k' _ | M_wait k' _ => pos k' <= pos k
  | pc => after_clear pc = false /\ pc <> M_clear_do_stuff
  end.
Proof.
  intros Hk. induction 1 as [|tr s a e s' HR IH Hs]; [simpl; split; congruence|].
  pose proof (Run_Inv _ _ HR) as HI.
  pose proof (inv_main _ (inv_join _ HI)) as Hm.
  destruct a as [| |i]; simpl in Hs.
  - destruct (step_main s) as [s0| |] eqn:Hst; try discriminate.
    inversion Hs; subst. unfold step_main in Hst. unfold main_ok in Hm.
    destruct (main s) as [| | |loop|k' loop|k' loop|k' loop| | | | |k' loop|k' loop| | | | | | | |v] eqn:Hpc;
      simpl in IH; split_guards Hst; simpl; try tauto;
      try (destruct IH as [IH _]; discriminate IH);
      try (split; congruence);
      try (destruct k'; simpl; split; congruence).
    + destruct k; simpl; lia.
    + assert (k' <> k).
      { intros ->. rewrite (Hk loop Hm) in Heqb. discriminate. }
      destruct k, k'; simpl in *; try congruence; lia.
  - unfold step_timer in Hs. destruct (timer_pending s); [|discriminate].
    destruct (timer_function s) as [[]|]; [|discriminate].
    inversion Hs; subst. exact IH.
  - destruct (step_thread i s) as [[a s0]| |] eqn:Ht; try discriminate.
    inversion Hs; subst.
    apply step_thread_frame in Ht as (t & pc' & _ & _ & -> & _). exact IH.
Qed.

(** X9 — A negative count.  [loop < numrd] compares the [int] count as
    [unsigned long], so a negative count is a huge one: every index 0..20
    passes the test, 20 threads of the kind are spawned, the join loop goes
    on to index 20, outside the completion array, and [rwsem_init_module]
    never returns. *)
Theorem negative_count tr s k :
  Run tr s -> - 2 ^ 31 <= num k < 0 ->
  (forall loop, 0 <= loop <= 20 -> below_num k loop = true)
  /\ (spawn_progress (main s) = 60 ->
      length (filter (fun t => tkind t = k) (threads s)) = 20%nat)
  /\ (main s = M_wait k 20 -> step Main s = Fault)
  /\ main s <> M_clear_do_stuff /\ after_clear (main s) = false
  /\ (forall v, main s <> M_returned v).
Proof.
  intros HR Hk. pose proof (Run_Inv _ _ HR) as HI.
  assert (2 ^ 32 <= 2 ^ BITS_PER_LONG) by (apply Z.pow_le_mono_r; lia).
  assert (Hb : forall loop, 0 <= loop <= 20 -> below_num k loop = true).
  { intros loop Hl. unfold below_num. rewrite to_ulong_negative by lia. lia. }
  pose proof (Run_join_stuck k tr s Hb HR) as Hnj.
  split; [exact Hb|]. split; [|split; [|split; [|split]]].
  - intros Hsp. rewrite (kind_count s k (inv_spawn _ HI) Hsp).
    rewrite to_ulong_negative by lia.
    rewrite Z.min_l by lia. reflexivity.
  - intros Hpc. simpl. unfold step_main. rewrite Hpc.
    pose proof (inv_comp_len _ (inv_join _ HI) k) as Hlen.
    rewrite (proj2 (lookup_ge_None _ _)); [reflexivity|].
    rewrite Hlen. unfold NCOMP. lia.
  - intros E. rewrite E in Hnj. simpl in Hnj. destruct Hnj; congruence.
  - destruct (main s); simpl in *; try reflexivity; destruct Hnj; congruence.
  - intros v E. rewrite E in Hnj. simpl in Hnj. destruct Hnj; discriminate.
Qed.

(** ** Completions *)

Lemma Run_slots tr s :
  Run tr s -> forall k n d, comp k s !! n = Some d -> d = 0 \/ d = 1.
Proof.
  induction 1 as [|tr s a e s' HR IH Hs].
  { intros k n d H. left.
    assert (E : comp k loaded = replicate NCOMP 0) by (destruct k; reflexivity).
    rewrite E in H. apply lookup_replicate in H as [H _]. exact H. }
  pose proof (Run_Inv _ _ HR) as HI.
  destruct a as [| |i]; simpl in Hs.
  - destruct (step_main s) as [s0| |] eqn:Hm; try discriminate.
    inversion Hs; subst. unfold step_main in Hm.
    destruct (main s) as [| | |loop|k' loop|k' loop|k' loop| | | | |k' loop|k' loop| | | | | | | |v] eqn:Hpc;
      split_guards Hm; intros k n d H;
      rewrite ?comp_set_main, ?comp_set_threads, ?comp_set_comp in H;
      try (apply (IH k n d); destruct k; exact H).
    + destruct (decide (k = k')) as [->|]; [|eapply IH; eauto].
      destruct (decide (n = Z.to_nat loop)) as [->|Hne].
      * apply list_lookup_insert_Some in H as [(_ & <- & _)|[Hne _]];
          [left; reflexivity|congruence].
      * rewrite list_lookup_insert_ne in H by congruence. eapply IH; eauto.
    + destruct (decide (k = k')) as [->|]; [|eapply IH; eauto].
      destruct (decide (n = Z.to_nat loop)) as [->|Hne].
      * apply list_lookup_insert_Some in H as [(_ & <- & _)|[Hne _]];
          [|congruence].
        bool_arith. destruct (IH _ _ _ Heqo) as [->| ->]; [lia|left; reflexivity].
      * rewrite list_lookup_insert_ne in H by congruence. eapply IH; eauto.
  - unfold step_timer in Hs. destruct (timer_pending s); [|discriminate].
    destruct (timer_function s) as [[]|]; [|discriminate].
    inversion Hs; subst. intros k n d H. apply (IH k n d). destruct k; exact H.
  - destruct (step_thread i s) as [[a s0]| |] eqn:Ht; try discriminate.
    inversion Hs; subst.
    apply step_thread_frame in Ht as (t & pc' & Hi & _ & _ & _ & _ & Hc).
    intros k n d H.
    destruct Hc as [(Hpc & _ & d0 & Hd0 & Hc)|(_ & _ & Hc)];
      rewrite Hc in H; [|eapply IH; eauto].
    destruct (decide (k = tkind t)) as [->|]; [|eapply IH; eauto].
    destruct (decide (n = Z.to_nat (targ t))) as [->|Hne].
    + apply list_lookup_insert_Some in H as [(_ & <- & _)|[Hne _]];
        [|congruence].
      rewrite (inv_comp _ (inv_join _ HI) _ _ Hi), Hpc in Hd0.
      injection Hd0 as <-. right. reflexivity.
    + rewrite list_lookup_insert_ne in H by congruence. eapply IH; eauto.
Qed.

(** X10 — The completion protocol.  Every slot of the completion arrays
    holds 0 or 1: a completion is signalled once, by the thread of that index
    when it exits, after [init_completion] has run for it, and consumed
    once.  The slot of a thread is 1 exactly while the thread has exited and
    has not been waited for; a thread that has been waited for has exited;
    and the [wait_for_completion] for a thread returns exactly when that
    thread has exited, never early. *)
Theorem completion_protocol tr s :
  Run tr s ->
  (forall k n d, comp k s !! n = Some d -> d = 0 \/ d = 1)
  /\ (forall i t, threads s !! i = Some t ->
      comp (tkind t) s !! Z.to_nat (targ t)
      = Some (b2z (exited (tpc_of t)
                   && negb (joined (main s) (tkind t) (targ t))))
      /\ (joined (main s) (tkind t) (targ t) = true -> tpc_of t = T_exited)
      /\ (main s = M_wait (tkind t) (targ t) ->
          if exited (tpc_of t)
          then exists s', step Main s = Ok (E_main (main s), s')
                          /\ main s' = M_join (tkind t) (targ t + 1)
                          /\ comp (tkind t) s' !! Z.to_nat (targ t) = Some 0
          else step Main s = Blocked)).
Proof.
  intros HR. pose proof (Run_Inv _ _ HR) as HI.
  pose proof (inv_join _ HI) as HJ.
  split; [apply (Run_slots tr s HR)|].
  intros i t Hi. pose proof (inv_comp _ HJ _ _ Hi) as Hc.
  split; [exact Hc|]. split.
  - intros Hj. apply exited_inv, (inv_joined _ HJ _ _ Hi Hj).
  - intros Hm. rewrite Hm in Hc. unfold joined in Hc. simpl in Hc.
    rewrite Z.ltb_irrefl in Hc. simpl in Hc. rewrite andb_true_r in Hc.
    destruct (thread_spawned _ _ _ (inv_spawn _ HI) Hi) as (Hr & _).
    simpl. unfold step_main. rewrite Hm, Hc.
    destruct (exited (tpc_of t)); simpl; [|reflexivity].
    eexists. split; [reflexivity|]. simpl.
    rewrite to_ulong_small by lia. split; [reflexivity|].
    rewrite comp_set_main, comp_set_comp, decide_True by reflexivity.
    apply list_lookup_insert_eq.
    rewrite (inv_comp_len _ HJ). unfold NCOMP. lia.
Qed.

(** ** What the log holds *)

Lemma done_lines_snoc ks tr e :
  done_lines ks (tr ++ [e]) = done_lines ks tr ++ done_line ks e.
Proof.
  induction tr as [|x tr IH]; simpl.
  - destruct e as [i []| |]; reflexivity.
  - destruct x as [i []| |]; simpl; try exact IH.
    destruct (ks !! i) as [[k N]|]; simpl; rewrite IH; reflexivity.
Qed.

Lemma done_lines_nil tr : done_lines [] tr = [].
Proof.
  induction tr as [|x tr IH]; simpl; [reflexivity|].
  destruct x as [i []| |]; exact IH.
Qed.

Lemma Run_done_lines tr s :
  Run tr s ->
  forall l, done_lines (keys s ++ l) tr = done_lines (keys s) tr.
Proof.
  induction 1 as [|tr s a e s' HR IH Hs]; [reflexivity|].
  intros l. rewrite !done_lines_snoc.
  destruct a as [| |i]; simpl in Hs.
  - destruct (step_main s) as [s0| |] eqn:Hm; try discriminate.
    inversion Hs; subst. simpl. rewrite !app_nil_r. unfold keys.
    destruct (step_main_threads _ _ Hm) as [->|(k & N & ->)]; [apply IH|].
    rewrite fmap_app, <- app_assoc. fold (keys s). rewrite !IH. reflexivity.
  - unfold step_timer in Hs. destruct (timer_pending s); [|discriminate].
    destruct (timer_function s) as [[]|]; [|discriminate].
    inversion Hs; subst. simpl. rewrite !app_nil_r. apply IH.
  - destruct (step_thread i s) as [[a s0]| |] eqn:Ht; try discriminate.
    inversion Hs; subst.
    apply step_thread_frame in Ht as (t & pc' & Hi & Hth & _).
    assert (Hk : keys s' = keys s).
    { unfold keys. rewrite Hth. apply keys_insert. exact Hi. }
    rewrite Hk, IH. f_equal. unfold done_line.
    destruct a; try reflexivity.
    rewrite lookup_app_l; [reflexivity|].
    unfold keys. rewrite length_fmap. eapply lookup_lt_Some; eauto.
Qed.

Lemma Run_klog tr s :
  Run tr s ->
  klog s = banner (main s) ++ done_lines (keys s) tr ++ report s.
Proof.
  induction 1 as [|tr s a e s' HR IH Hs]; [reflexivity|].
  pose proof (Run_Inv _ _ HR) as HI.
  rewrite done_lines_snoc.
  destruct a as [| |i]; simpl in Hs.
  - destruct (step_main s) as [s0| |] eqn:Hm; try discriminate.
    inversion Hs; subst. simpl. rewrite app_nil_r.
    assert (Hk : done_lines (keys s') tr = done_lines (keys s) tr).
    { unfold keys.
      destruct (step_main_threads _ _ Hm) as [->|(k & N & ->)]; [reflexivity|].
      rewrite fmap_app. apply (Run_done_lines tr s HR). }
    rewrite Hk.
    assert (Hnil : main s = M_printk_start -> done_lines (keys s) tr = []).
    { intros E. pose proof (inv_length _ (inv_spawn _ HI)) as Hl.
      rewrite E in Hl. simpl in Hl. unfold keys.
      destruct (threads s); [apply done_lines_nil|simpl in Hl; lia]. }
    assert (Hidle : all_joined s -> rwsem_sem s = 0)
      by (intros Hj; apply (all_joined_idle s HI Hj)).
    set (D := done_lines (keys s) tr) in *. clearbody D. clear Hk.
    unfold step_main in Hm. unfold all_joined, report in *.
    destruct (main s) as [| | |loop|k loop|k loop|k loop| | | | |k loop|k loop| | | | | | | |v] eqn:Hpc;
      try destruct k; split_guards Hm; unfold after_if, after_join; simpl in *;
      rewrite ?app_nil_r in *;
      try exact IH;
      try (rewrite IH, <- ?app_assoc; simpl; reflexivity);
      try (rewrite IH; simpl; rewrite <- ?app_assoc; reflexivity).
    + rewrite Hnil in * by reflexivity. simpl in IH. rewrite IH. reflexivity.
    + rewrite Hidle by reflexivity. rewrite IH, <- ?app_assoc. reflexivity.
  - unfold step_timer in Hs. destruct (timer_pending s); [|discriminate].
    destruct (timer_function s) as [[]|]; [|discriminate].
    inversion Hs; subst. simpl. rewrite app_nil_r. exact IH.
  - destruct (step_thread i s) as [[a s0]| |] eqn:Ht; try discriminate.
    inversion Hs; subst.
    assert (Hnj : join_progress (main s) <> 60).
    { intros Hj. rewrite (all_joined_blocked s i HI Hj) in Ht. discriminate. }
    assert (Hrep : report s = []).
    { unfold report. destruct (main s); simpl in Hnj; congruence. }
    destruct (step_thread_frame _ _ _ _ Ht) as (t & pc' & Hi & Hth & Hm & _).
    assert (Hk : keys s' = keys s).
    { unfold keys. rewrite Hth. apply keys_insert. exact Hi. }
    assert (Hrep' : report s' = []).
    { unfold report. rewrite Hm. destruct (main s); simpl in Hnj; congruence. }
    rewrite Hk, Hm, Hrep'. rewrite Hrep in IH. rewrite !app_nil_r in *.
    assert (Hline : klog s' = klog s ++ done_line (keys s) (E_thread i a)).
    { unfold keys. simpl. unfold step_thread in Ht. rewrite Hi in Ht.
      destruct (tpc_of t) as [|[|[f st] k]| | |] eqn:Hpc; try discriminate.
      - inversion Ht; subst. simpl. rewrite app_nil_r. reflexivity.
      - inversion Ht; subst. simpl. rewrite app_nil_r. reflexivity.
      - destruct (step_thread_log i s a s' HI) as [E|(t0 & Hi0 & Hpc0 & _)].
        + unfold step_thread. rewrite Hi, Hpc. exact Ht.
        + destruct (exec_stmt f st s); [|discriminate].
          inversion Ht; subst. rewrite E, app_nil_r. reflexivity.
        + congruence.
      - inversion Ht; subst. rewrite list_lookup_fmap, Hi. reflexivity.
      - destruct (comp (tkind t) s !! Z.to_nat (targ t)); [|discriminate].
        inversion Ht; subst. simpl. rewrite app_nil_r. reflexivity. }
    rewrite Hline, IH, <- app_assoc. reflexivity.
Qed.

(** X11 — What the module prints.  The kernel log is at any time exactly
    the start banner, then one "done" line for each thread that has left its
    loop, in the order the threads printed them, then the report lines
    printed so far; nothing else is ever logged, so no check has failed.  A
    thread has its "done" line in the log exactly when it is at or past
    [complete_and_exit]. *)
Theorem log_contents tr s :
  Run tr s ->
  klog s = banner (main s) ++ done_lines (keys s) tr ++ report s
  /\ (forall i t, threads s !! i = Some t ->
      count_act A_printk (thread_actions i tr) = b2z (done_printed (tpc_of t)))
  /\ Forall (fun m => is_check_failed m = false) (klog s).
Proof.
  intros HR. pose proof (Run_Inv _ _ HR) as HI.
  split; [apply (Run_klog tr s HR)|]. split; [|apply (Run_log tr s HR)].
  intros i t Hi.
  pose proof (inv_pcs _ (inv_sem _ HI) _ _ Hi) as Hpcs.
  destruct (Run_history tr s HR) as [_ H].
  destruct (H i t Hi) as (n & Hn & _). rewrite Hn.
  assert (Hit : count_act A_printk (iteration (tkind t)) = 0).
  { unfold iteration, sched_run.
    destruct (do_sched cfg =? 0); destruct (tkind t); vm_compute; reflexivity. }
  assert (Hcur : count_act A_printk (current (tkind t) (tpc_of t))
                 = b2z (done_printed (tpc_of t))).
  { clear -Hpcs. destruct (tkind t); simpl in Hpcs;
      repeat (destruct Hpcs as [Hpcs|Hpcs];
              [rewrite <- Hpcs; vm_compute; reflexivity|]);
      contradiction. }
  destruct (tpc_of t) as [|rest| | |] eqn:E; [reflexivity| | | |];
    rewrite history_current by discriminate.
  all: change (count_act A_printk (A_daemonize :: ?l)) with (count_act A_printk l).
  all: rewrite count_act_app, count_act_replicate, Hit, Hcur; lia.
Qed.

Lemma done_lines_no_report ks tr :
  Forall (fun m => is_report m = false) (done_lines ks tr).
Proof.
  induction tr as [|x tr IH]; simpl; [constructor|].
  destruct x as [i []| |]; try exact IH.
  destruct (ks !! i) as [[k N]|]; [constructor; [reflexivity|exact IH]|exact IH].
Qed.

(** C4 — Final idle state and reporting: where the code falls short.  With
    more than 20 threads of one kind asked for, no run ever prints a report
    line: the log holds the banner and the "done" lines of the threads and
    nothing else, and [rwsem_init_module] never returns.  When the init
    function stands at the wait for index 20 of that kind, every spawned
    thread of the kind has exited, has signalled its completion and has been
    waited for, and the next statement is the wait outside the completion
    array. *)
Theorem report_never_printed tr s k :
  Run tr s -> 20 < num k < 2 ^ 31 ->
  report s = []
  /\ klog s = banner (main s) ++ done_lines (keys s) tr
  /\ Forall (fun m => is_report m = false) (klog s)
  /\ (forall v, main s <> M_returned v)
  /\ (main s = M_wait k 20 ->
      step Main s = Fault
      /\ forall i t, threads s !! i = Some t -> tkind t = k ->
           tpc_of t = T_exited
           /\ joined (main s) (tkind t) (targ t) = true
           /\ comp k s !! Z.to_nat (targ t) = Some 0).
Proof.
  intros HR Hk. pose proof (Run_Inv _ _ HR) as HI.
  pose proof (Run_never_joined k tr s Hk HR) as Hnj.
  assert (Hrep : report s = []).
  { unfold report. destruct (main s); simpl in Hnj; try reflexivity;
      destruct Hnj; discriminate. }
  pose proof (Run_klog tr s HR) as Hlog. rewrite Hrep, app_nil_r in Hlog.
  split; [exact Hrep|]. split; [exact Hlog|]. split; [|split].
  - rewrite Hlog. apply Forall_app. split; [|apply done_lines_no_report].
    destruct (main s); simpl; repeat constructor.
  - intros v E. rewrite E in Hnj. simpl in Hnj. destruct Hnj; discriminate.
  - intros Hpc. split.
    + simpl. unfold step_main. rewrite Hpc.
      pose proof (inv_comp_len _ (inv_join _ HI) k) as Hlen.
      rewrite (proj2 (lookup_ge_None _ _)); [reflexivity|].
      rewrite Hlen. unfold NCOMP. lia.
    + intros i t Hi Ht.
      destruct (thread_spawned _ _ _ (inv_spawn _ HI) Hi) as (Hr & _).
      assert (Hj : joined (main s) (tkind t) (targ t) = true).
      { unfold joined. rewrite Hpc, Ht. simpl. lia. }
      pose proof (exited_inv _ (inv_joined _ (inv_join _ HI) _ _ Hi Hj)) as He.
      split; [exact He|]. split; [exact Hj|].
      rewrite <- Ht.
      rewrite (inv_comp _ (inv_join _ HI) _ _ Hi), He, Hj. reflexivity.
Qed.

(** ** Acquisitions and releases *)

Lemma count_stmt_snoc st tr e :
  count_stmt st (tr ++ [e]) = count_stmt st tr + is_stmt st e.
Proof. induction tr as [|x tr IH]; simpl; rewrite ?IH; lia. Qed.

Lemma thread_balance i s a s' :
  Inv s -> step_thread i s = Ok (a, s') ->
  count_pc holds_read (threads s')
  = count_pc holds_read (threads s)
    + is_stmt DownRead (E_thread i a) + is_stmt DowngradeWrite (E_thread i a)
    - is_stmt UpRead (E_thread i a)
  /\ count_pc holds_write (threads s')
     = count_pc holds_write (threads s)
       + is_stmt DownWrite (E_thread i a) - is_stmt UpWrite (E_thread i a)
       - is_stmt DowngradeWrite (E_thread i a).
Proof.
  intros HI H. unfold step_thread in H.
  destruct (threads s !! i) as [t|] eqn:Hi; [|discriminate].
  pose proof (inv_pcs _ (inv_sem _ HI) _ _ Hi) as Hpc.
  thread_cases H Hi Hpc.
  all: split_guards H.
  all: unfold set_pc, CHECKA; simpl.
  all: repeat match goal with
         | |- context [if ?b then _ else _] => destruct b
         end; simpl.
  all: rewrite !(count_pc_insert _ _ _ _ _ _ _ Hi); simpl; lia.
Qed.

Lemma Run_balance tr s :
  Run tr s ->
  count_stmt DownRead tr + count_stmt DowngradeWrite tr - count_stmt UpRead tr
  = count_pc holds_read (threads s)
  /\ count_stmt DownWrite tr - count_stmt UpWrite tr
     - count_stmt DowngradeWrite tr
     = count_pc holds_write (threads s).
Proof.
  induction 1 as [|tr s a e s' HR [IH1 IH2] Hs]; [split; reflexivity|].
  pose proof (Run_Inv _ _ HR) as HI.
  rewrite !count_stmt_snoc.
  destruct a as [| |i]; simpl in Hs.
  - destruct (step_main s) as [s0| |] eqn:Hm; try discriminate.
    inversion Hs; subst. simpl.
    destruct (step_main_threads _ _ Hm) as [->|(k & N & ->)];
      rewrite ?count_pc_spawn by reflexivity; lia.
  - unfold step_timer in Hs. destruct (timer_pending s); [|discriminate].
    destruct (timer_function s) as [[]|]; [|discriminate].
    inversion Hs; subst. simpl. lia.
  - destruct (step_thread i s) as [[a s0]| |] eqn:Ht; try discriminate.
    inversion Hs; subst.
    destruct (thread_balance _ _ _ _ HI Ht) as [E1 E2]. lia.
Qed.

(** X12 — Acquisitions and releases balance.  At any time the executed
    [down_read]s and [downgrade_write]s less the [up_read]s are the threads
    that hold the semaphore for reading, and the [down_write]s less the
    [up_write]s and [downgrade_write]s are the threads that hold it for
    writing (at most one); these two numbers determine the occupancy.  Once
    the threads are joined every acquisition has been released: as many
    [up_read]s as [down_read]s and [downgrade_write]s, and as many
    [down_write]s as [up_write]s and [downgrade_write]s. *)
Theorem acquisitions_released tr s :
  Run tr s ->
  let rd := count_stmt DownRead tr + count_stmt DowngradeWrite tr
            - count_stmt UpRead tr in
  let wr := count_stmt DownWrite tr - count_stmt UpWrite tr
            - count_stmt DowngradeWrite tr in
  rd = count_pc holds_read (threads s)
  /\ wr = count_pc holds_write (threads s)
  /\ 0 <= rd /\ 0 <= wr <= 1
  /\ rwsem_sem s = (if wr =? 1 then -1 else rd)
  /\ (all_joined s -> rd = 0 /\ wr = 0).
Proof.
  intros HR. cbv zeta. pose proof (Run_Inv _ _ HR) as HI.
  destruct (Run_balance tr s HR) as [E1 E2]. rewrite E1, E2.
  destruct (exclusion s HI) as (_ & _ & _ & HW & _).
  destruct (inv_sem _ HI) as [H1 H2 H3 H4]. unfold lock_ok in H2.
  pose proof (count_pc_bounds holds_read (threads s)) as Br.
  pose proof (count_pc_bounds holds_write (threads s)) as Bw.
  split; [reflexivity|]. split; [reflexivity|]. split; [lia|]. split; [lia|].
  split.
  - destruct (count_pc holds_write (threads s) =? 1) eqn:E; bool_arith; lia.
  - intros Hj.
    assert (Hz : forall p, p T_exited = false -> count_pc p (threads s) = 0).
    { intros p Hp. apply count_pc_zero. intros i t Hi.
      rewrite (all_joined_exited s i t HI Hj Hi). exact Hp. }
    rewrite !Hz by reflexivity. split; reflexivity.
Qed.

(** ** Writes and downgrades *)

Lemma thread_owes i s a s' :
  Inv s -> step_thread i s = Ok (a, s') ->
  is_return Fdgw (E_thread i a) + count_pc owes_downgrade (threads s')
  <= is_return Fdw (E_thread i a) + count_pc owes_downgrade (threads s).
Proof.
  intros HI H. unfold step_thread in H.
  destruct (threads s !! i) as [t|] eqn:Hi; [|discriminate].
  pose proof (inv_pcs _ (inv_sem _ HI) _ _ Hi) as Hpc.
  thread_cases H Hi Hpc.
  all: split_guards H.
  all: unfold set_pc, CHECKA; simpl.
  all: repeat match goal with
         | |- context [if ?b then _ else _] => destruct b
         end; simpl.
  all: rewrite !(count_pc_insert _ _ _ _ _ _ _ Hi); simpl; lia.
Qed.

Lemma Run_owes tr s :
  Run tr s ->
  completed Fdgw tr + count_pc owes_downgrade (threads s) <= completed Fdw tr.
Proof.
  induction 1 as [|tr s a e s' HR IH Hs]; [simpl; reflexivity|].
  pose proof (Run_Inv _ _ HR) as HI.
  rewrite !completed_snoc.
  destruct a as [| |i]; simpl in Hs.
  - destruct (step_main s) as [s0| |] eqn:Hm; try discriminate.
    inversion Hs; subst. simpl.
    destruct (step_main_threads _ _ Hm) as [->|(k & N & ->)];
      rewrite ?count_pc_spawn by reflexivity; lia.
  - unfold step_timer in Hs. destruct (timer_pending s); [|discriminate].
    destruct (timer_function s) as [[]|]; [|discriminate].
    inversion Hs; subst. simpl. lia.
  - destruct (step_thread i s) as [[a s0]| |] eqn:Ht; try discriminate.
    inversion Hs; subst.
    pose proof (thread_owes _ _ _ _ HI Ht). lia.
Qed.

Lemma pcs_downgrade_flight k pc :
  In pc (pcs k) -> in_flight Fdgw a_downgrades_taken pc = false.
Proof.
  destruct k; simpl; intros H;
    repeat (destruct H as [H|H]; [subst pc; reflexivity|]); contradiction.
Qed.

(** X13 — Downgrades never outnumber writes.  Every [dgw] follows a [dw]
    of the same thread, so at any time the completed calls of [dgw] are at
    most the completed calls of [dw]; [downgrades_taken] is the former and
    [writes_taken] the latter plus the calls of [dw] under way (32-bit
    values), so as long as [writes_taken] has not wrapped around
    [downgrades_taken] does not exceed it. *)
Theorem downgrades_le_writes tr s :
  Run tr s ->
  let under_way := count_pc (in_flight Fdw a_writes_taken) (threads s) in
  0 <= completed Fdgw tr <= completed Fdw tr
  /\ downgrades_taken s = wrap_int (completed Fdgw tr)
  /\ writes_taken s = wrap_int (completed Fdw tr + under_way)
  /\ (completed Fdw tr + under_way < 2 ^ 31 ->
      0 <= downgrades_taken s <= writes_taken s).
Proof.
  intros HR. cbv zeta. pose proof (Run_Inv _ _ HR) as HI.
  pose proof (Run_owes tr s HR) as Ho.
  pose proof (count_pc_bounds owes_downgrade (threads s)) as Bo.
  pose proof (count_pc_bounds (in_flight Fdw a_writes_taken) (threads s)) as Bf.
  pose proof (count_act_nonneg (A_op (return_of Fdgw)) (all_actions tr)) as Hn.
  fold (completed Fdgw tr) in Hn.
  pose proof (Run_taken Fdgw tr s HR (or_intror (or_intror eq_refl))) as Td.
  pose proof (Run_taken Fdw tr s HR (or_intror (or_introl eq_refl))) as Tw.
  simpl in Td, Tw.
  rewrite (count_pc_zero (in_flight Fdgw a_downgrades_taken)) in Td
    by (intros i t Hi; apply (pcs_downgrade_flight (tkind t)),
          (inv_pcs _ (inv_sem _ HI) _ _ Hi)).
  rewrite Z.add_0_r in Td.
  split; [lia|]. split; [exact Td|]. split; [exact Tw|].
  intros Hlt. rewrite Td, Tw, !wrap_int_small by lia. lia.
Qed.

(** ** After the flag is cleared *)

Lemma pcs_left k pc : In pc (pcs k) -> 0 <= thread_left pc <= 19.
Proof.
  destruct k; simpl; intros H;
    repeat (destruct H as [H|H]; [subst pc; simpl; lia|]); contradiction.
Qed.

Lemma sum_pc_le f c (l : list thread) :
  (forall i t, l !! i = Some t -> f (tpc_of t) <= c) ->
  sum_pc f l <= c * Z.of_nat (length l).
Proof.
  induction l as [|t l IH]; intros H; [simpl; lia|].
  pose proof (H 0%nat t eq_refl) as H0.
  specialize (IH (fun i t' Hi => H (S i) t' Hi)).
  cbn [sum_pc length]. lia.
Qed.

(** X14 — Prompt shutdown.  Once [do_stuff] is clear no thread sets it
    again, a thread that tests the flag leaves its loop, and every statement a
    thread executes brings it nearer to its exit: a thread has at most 19
    statements left, the rest of the pass it is in and its exit. *)
Theorem prompt_shutdown tr s i t e s' :
  Run tr s -> do_stuff s = 0 -> threads s !! i = Some t ->
  step (Thr i) s = Ok (e, s') ->
  do_stuff s' = 0
  /\ (exists pc', threads s' = <[i := Thread (tkind t) (targ t) pc']> (threads s)
                  /\ 0 <= thread_left pc' < thread_left (tpc_of t)
                  /\ thread_left (tpc_of t) <= 19
                  /\ (tpc_of t = T_run [] ->
                      e = E_thread i (A_test false) /\ pc' = T_printk))
  /\ 0 <= sum_pc thread_left (threads s') < sum_pc thread_left (threads s)
  /\ sum_pc thread_left (threads s) <= 19 * Z.of_nat (length (threads s)).
Proof.
  intros HR H0 Hi Hs. pose proof (Run_Inv _ _ HR) as HI.
  simpl in Hs. destruct (step_thread i s) as [[a s0]| |] eqn:Ht; try discriminate.
  inversion Hs; subst. clear Hs.
  destruct (step_thread_left i s a s' HI H0 Ht) as (Hlt & Hd & _).
  destruct (step_thread_frame _ _ _ _ Ht) as (t0 & pc' & Hi0 & Hth & _).
  rewrite Hi in Hi0. injection Hi0 as <-.
  pose proof (inv_pcs _ (inv_sem _ HI) _ _ Hi) as Hin.
  pose proof (pcs_left _ _ Hin) as Hb.
  split; [exact Hd|]. split; [|split].
  - exists pc'. split; [exact Hth|].
    destruct t as [k N pc]. simpl in *.
    rewrite Hth, (sum_pc_insert _ _ _ _ _ _ _ Hi) in Hlt.
    pose proof (thread_left_nonneg pc'). split; [lia|]. split; [lia|].
    intros E. subst pc. unfold step_thread in Ht. rewrite Hi in Ht. simpl in Ht.
    rewrite H0 in Ht. simpl in Ht. inversion Ht; subst.
    split; [reflexivity|].
    unfold set_pc in Hth. simpl in Hth.
    apply insert_pc_inj in Hth; [|eapply lookup_lt_Some; eauto].
    congruence.
  - pose proof (sum_pc_nonneg thread_left (threads s') thread_left_nonneg). lia.
  - apply sum_pc_le. intros j t' Hj.
    apply (pcs_left (tkind t')), (inv_pcs _ (inv_sem _ HI) _ _ Hj).
Qed.

(** ** No threads at all *)

Lemma no_actions tr :
  (forall i, thread_actions i tr = []) -> all_actions tr = [].
Proof.
  induction tr as [|x tr IH]; intros H; [reflexivity|].
  destruct x as [j a| |]; simpl.
  - specialize (H j). simpl in H. rewrite decide_True in H by reflexivity.
    discriminate.
  - apply IH. intros i. apply (H i).
  - apply IH. intros i. apply (H i).
Qed.

(** X15 — A run without threads.  With the three counts at 0 no thread is
    ever spawned and nothing touches the semaphore or the counters; the init
    function never waits: every statement up to its return can be executed at
    once, whether or not the timer has fired; the log is the banner and the
    report, which shows the idle semaphore and three zeros. *)
Theorem no_threads tr s :
  Run tr s -> (forall k, num k = 0) ->
  threads s = [] /\ all_actions tr = []
  /\ rwsem_sem s = 0 /\ readers s = 0 /\ writers s = 0
  /\ reads_taken s = 0 /\ writes_taken s = 0 /\ downgrades_taken s = 0
  /\ klog s = banner (main s) ++ report s
  /\ ((forall v, main s <> M_returned v) ->
      exists s', step Main s = Ok (E_main (main s), s'))
  /\ (forall v, main s = M_returned v ->
      klog s = [msg_starting; msg_counter 0; msg_reads_taken 0;
                msg_writes_taken 0; msg_downgrades_taken 0]).
Proof.
  intros HR Hnum. pose proof (Run_Inv _ _ HR) as HI.
  assert (Hb : forall k loop, 0 <= loop -> below_num k loop = false).
  { intros k loop Hl. unfold below_num. rewrite Hnum.
    rewrite to_ulong_small by lia. lia. }
  assert (Hth : threads s = []).
  { destruct (threads s) as [|t l] eqn:E; [reflexivity|].
    assert (Hi : threads s !! 0%nat = Some t) by (rewrite E; reflexivity).
    destruct (thread_spawned _ _ _ (inv_spawn _ HI) Hi) as (Hr & Hbn & _).
    rewrite Hb in Hbn by lia. discriminate. }
  assert (Hact : all_actions tr = []).
  { apply no_actions. intros i. apply (proj1 (Run_history tr s HR)).
    rewrite Hth. simpl. lia. }
  assert (Hc : forall f, completed f tr = 0)
    by (intros f; unfold completed; rewrite Hact; reflexivity).
  destruct (inv_sem _ HI) as [H1 H2 H3 H4]. unfold lock_ok in H2.
  rewrite Hth in H2, H3, H4. simpl in H2, H3, H4.
  pose proof (Run_taken Fdr tr s HR (or_introl eq_refl)) as T1.
  pose proof (Run_taken Fdw tr s HR (or_intror (or_introl eq_refl))) as T2.
  pose proof (Run_taken Fdgw tr s HR (or_intror (or_intror eq_refl))) as T3.
  rewrite Hc, Hth in T1, T2, T3. simpl in T1, T2, T3.
  pose proof (Run_klog tr s HR) as Hlog. unfold keys in Hlog.
  rewrite Hth in Hlog. simpl in Hlog. rewrite done_lines_nil in Hlog.
  simpl in Hlog.
  split; [exact Hth|]. split; [exact Hact|]. split; [lia|].
  split; [exact H3|]. split; [exact H4|].
  split; [exact T1|]. split; [exact T2|]. split; [exact T3|].
  split; [exact Hlog|]. split.
  - intros Hret. simpl.
    pose proof (inv_join _ HI) as HJ.
    pose proof (inv_main _ HJ) as Hm. unfold main_ok in Hm.
    unfold step_main.
    destruct (main s) as [| | |loop|k loop|k loop|k loop| | | | |k loop|k loop| | | | | | | |v] eqn:Hpc;
      try (eexists; reflexivity).
    + destruct Hm as [Hl Hbn]. rewrite Hb in Hbn by lia. discriminate.
    + destruct Hm as [Hl Hbn]. rewrite Hb in Hbn by lia. discriminate.
    + exfalso. apply (Hret v). reflexivity.
  - intros v Hv. rewrite Hlog. unfold report. rewrite Hv, T1, T2, T3.
    reflexivity.
Qed.

(** ** Waiting for the semaphore *)

(** X16 — Holders never wait, and nothing is admitted past a holder.  A
    thread that holds the semaphore can always execute its next statement;
    only [down_read] and [down_write] can make a thread wait.  Whenever a
    [down_write] is passed no thread held the semaphore and both counters
    were 0, and the caller is the only holder afterwards; whenever a
    [down_read] is passed no thread held the semaphore for writing and
    [writers] was 0, and the readers are one more afterwards. *)
Theorem holders_never_wait tr s i t :
  Run tr s -> threads s !! i = Some t ->
  (holds_read (tpc_of t) || holds_write (tpc_of t) = true ->
   exists e s', step (Thr i) s = Ok (e, s'))
  /\ (forall f st rest, tpc_of t = T_run ((f, st) :: rest) ->
      st <> DownRead -> st <> DownWrite ->
      exists s', step (Thr i) s = Ok (E_thread i (A_op (f, st)), s'))
  /\ (forall f rest e s', tpc_of t = T_run ((f, DownWrite) :: rest) ->
      step (Thr i) s = Ok (e, s') ->
      f = Fdw
      /\ count_pc holds_read (threads s) = 0
      /\ count_pc holds_write (threads s) = 0
      /\ readers s = 0 /\ writers s = 0
      /\ rwsem_sem s' = -1
      /\ count_pc holds_read (threads s') = 0
      /\ count_pc holds_write (threads s') = 1)
  /\ (forall f rest e s', tpc_of t = T_run ((f, DownRead) :: rest) ->
      step (Thr i) s = Ok (e, s') ->
      f = Fdr
      /\ count_pc holds_write (threads s) = 0
      /\ writers s = 0
      /\ rwsem_sem s' = rwsem_sem s + 1
      /\ count_pc holds_read (threads s')
         = count_pc holds_read (threads s) + 1
      /\ count_pc holds_write (threads s') = 0).
Proof.
  intros HR Hi. pose proof (Run_Inv _ _ HR) as HI.
  destruct (inv_sem _ HI) as [H1 H2 H3 H4]. unfold lock_ok in H2.
  pose proof (count_pc_bounds holds_read (threads s)) as Br.
  pose proof (count_pc_bounds holds_write (threads s)) as Bw.
  pose proof (count_pc_bounds (counted a_readers) (threads s)) as Bcr.
  pose proof (count_pc_bounds (counted a_writers) (threads s)) as Bcw.
  destruct (writers_le_holders s HI) as [Hw' Hrw'].
  assert (Htag : forall f st rest, tpc_of t = T_run ((f, st) :: rest) ->
            st = DownRead \/ st = DownWrite ->
            (st = DownRead -> f = Fdr) /\ (st = DownWrite -> f = Fdw)).
  { intros f st rest Hpc Hst. pose proof (H1 _ _ Hi) as Hin. rewrite Hpc in Hin.
    clear -Hin Hst. destruct (tkind t); simpl in Hin;
      repeat (destruct Hin as [Hin|Hin];
              [try discriminate Hin; injection Hin as <- <- <-;
               split; intros E; first [reflexivity | discriminate E]|]);
      contradiction. }
  split; [|split; [|split]].
  - intros Hh. destruct (holder_steps s i t HI Hi Hh) as (a & s' & Hs).
    exists (E_thread i a), s'. simpl. rewrite Hs. reflexivity.
  - intros f st rest Hpc N1 N2. simpl. unfold step_thread. rewrite Hi, Hpc.
    destruct st; try congruence; simpl; eexists; reflexivity.
  - intros f rest e s' Hpc Hs. simpl in Hs.
    destruct (step_thread i s) as [[a s0]| |] eqn:Ht; try discriminate.
    inversion Hs; subst. clear Hs.
    destruct (thread_balance _ _ _ _ HI Ht) as [E1 E2].
    unfold step_thread in Ht. rewrite Hi, Hpc in Ht. simpl in Ht.
    unfold RWSem.down_write in Ht.
    destruct (rwsem_sem s =? 0) eqn:E0; [|discriminate]. bool_arith.
    inversion Ht; subst. simpl in E1, E2.
    split; [apply (Htag _ _ _ Hpc); auto|].
    simpl. repeat (split; [lia|]). lia.
  - intros f rest e s' Hpc Hs. simpl in Hs.
    destruct (step_thread i s) as [[a s0]| |] eqn:Ht; try discriminate.
    inversion Hs; subst. clear Hs.
    destruct (thread_balance _ _ _ _ HI Ht) as [E1 E2].
    unfold step_thread in Ht. rewrite Hi, Hpc in Ht. simpl in Ht.
    unfold RWSem.down_read in Ht.
    destruct (0 <=? rwsem_sem s) eqn:E0; [|discriminate]. bool_arith.
    inversion Ht; subst. simpl in E1, E2.
    split; [apply (Htag _ _ _ Hpc); auto|].
    simpl. repeat (split; [lia|]). lia.
Qed.

(** ** The state at the return *)

(** X17 — What holds when [rwsem_init_module] returns.  It returns
    [-ENOANO], and only when every count is within 0..20; by then the timer
    is off the list, [do_stuff] is clear, every thread has exited and has
    been waited for, its completion is consumed, and the semaphore is idle
    with both counters at 0. *)
Theorem return_state tr s v :
  Run tr s -> main s = M_returned v ->
  v = wrap_int (- ENOANO)
  /\ (forall k, - 2 ^ 31 <= num k < 2 ^ 31 -> 0 <= num k <= 20)
  /\ timer_pending s = false /\ do_stuff s = 0
  /\ (forall i t, threads s !! i = Some t ->
      tpc_of t = T_exited
      /\ joined (main s) (tkind t) (targ t) = true
      /\ comp (tkind t) s !! Z.to_nat (targ t) = Some 0)
  /\ rwsem_sem s = 0 /\ readers s = 0 /\ writers s = 0.
Proof.
  intros HR Hv. pose proof (Run_Inv _ _ HR) as HI.
  assert (Hj : all_joined s) by (unfold all_joined; rewrite Hv; reflexivity).
  destruct (all_joined_idle s HI Hj) as (Hs & Hr & Hw).
  destruct (Run_timer tr s HR) as (_ & _ & Hp).
  rewrite Hv in Hp. simpl in Hp.
  split; [apply (init_return_value _ _ _ HR Hv)|]. split; [|split; [exact Hp|]].
  - intros k Hk.
    destruct (Z_lt_le_dec (num k) 0) as [Hn|Hn].
    + exfalso.
      assert (2 ^ 32 <= 2 ^ BITS_PER_LONG) by (apply Z.pow_le_mono_r; lia).
      assert (Hb : forall loop, 0 <= loop <= 20 -> below_num k loop = true).
      { intros loop Hl. unfold below_num. rewrite to_ulong_negative by lia. lia. }
      pose proof (Run_join_stuck k tr s Hb HR) as Hnj.
      rewrite Hv in Hnj. simpl in Hnj. destruct Hnj; discriminate.
    + destruct (Z_le_gt_dec (num k) 20) as [Hle|Hgt]; [lia|]. exfalso.
      assert (Hk' : 20 < num k < 2 ^ 31) by lia.
      pose proof (Run_never_joined k tr s Hk' HR) as Hnj.
      rewrite Hv in Hnj. simpl in Hnj. destruct Hnj; discriminate.
  - split; [apply (Run_stopped tr s HR); rewrite Hv; reflexivity|].
    split; [|split; [exact Hs|split; [exact Hr|exact Hw]]].
    intros i t Hi.
    pose proof (all_joined_exited s i t HI Hj Hi) as He.
    destruct (thread_spawned _ _ _ (inv_spawn _ HI) Hi) as (Hrg & _).
    assert (Hjd : joined (main s) (tkind t) (targ t) = true).
    { unfold joined. rewrite Hv. simpl. destruct (tkind t); simpl; lia. }
    split; [exact He|]. split; [exact Hjd|].
    rewrite (inv_comp _ (inv_join _ HI) _ _ Hi), He, Hjd. reflexivity.
Qed.

(** X18 — When the init function can return.  From every state the module
    can be in, a continuation of the run in which [rwsem_init_module] returns
    exists exactly when every count is within 0..20 (counts being [int]
    values); the value returned is then [-ENOANO]. *)
Theorem return_reachable tr s :
  Run tr s -> (forall k, - 2 ^ 31 <= num k < 2 ^ 31) ->
  ((forall k, 0 <= num k <= 20)
   <-> exists tr' s' v, Run (tr ++ tr') s' /\ main s' = M_returned v)
  /\ ((forall k, 0 <= num k <= 20) ->
      exists tr' s',
        Run (tr ++ tr') s' /\ main s' = M_returned (wrap_int (- ENOANO))).
Proof.
  intros HR Hint. split; [split|].
  - intros Hnum. destruct (can_return tr s HR Hnum) as (tr' & s' & HR' & Hv).
    exists tr', s', (wrap_int (- ENOANO)). split; assumption.
  - intros (tr' & s' & v & HR' & Hv) k.
    destruct (Z_lt_le_dec (num k) 0) as [Hn|Hn].
    + exfalso.
      assert (2 ^ 32 <= 2 ^ BITS_PER_LONG) by (apply Z.pow_le_mono_r; lia).
      assert (Hb : forall loop, 0 <= loop <= 20 -> below_num k loop = true).
      { intros loop Hl. unfold below_num. specialize (Hint k).
        rewrite to_ulong_negative by lia. lia. }
      pose proof (Run_join_stuck k _ s' Hb HR') as Hnj.
      rewrite Hv in Hnj. simpl in Hnj. destruct Hnj; discriminate.
    + destruct (Z_le_gt_dec (num k) 20) as [Hle|Hgt]; [lia|]. exfalso.
      assert (Hk' : 20 < num k < 2 ^ 31) by (specialize (Hint k); lia).
      pose proof (Run_never_joined k _ s' Hk' HR') as Hnj.
      rewrite Hv in Hnj. simpl in Hnj. destruct Hnj; discriminate.
  - intros Hnum. apply (can_return tr s HR Hnum).
Qed.

End Harness.

(** * The long run of a single reader *)

Lemma reader_start :
  exists tr, Run 64 55 cfg_reader tr (reader_looping 0) /\ completed Fdr tr = 0.
Proof.
  exists (fst (run_of 64 55 cfg_reader (repeat Main 91 ++ [Thr 0]))). split.
  - replace (reader_looping 0)
      with (snd (run_of 64 55 cfg_reader (repeat Main 91 ++ [Thr 0])))
      by (vm_compute; reflexivity).
    apply Run_run_of.
  - vm_compute. reflexivity.
Qed.

Lemma reader_pass r :
  exec 64 55 cfg_reader (repeat (Thr 0) 9) (reader_looping r)
  = Some (one_pass, reader_looping (wrap_int (r + 1))).
Proof. reflexivity. Qed.

Lemma reader_passes n tr :
  Run 64 55 cfg_reader tr (reader_looping 0) ->
  Run 64 55 cfg_reader (tr ++ concat (replicate n one_pass))
    (reader_looping (wrap_int (Z.of_nat n))).
Proof.
  intros HR. induction n as [|n IH].
  - simpl. rewrite app_nil_r. exact HR.
  - rewrite concat_replicate_S, app_assoc, Nat2Z.inj_succ.
    unfold Z.succ. rewrite <- wrap_int_succ.
    eapply Run_exec; [exact IH|apply reader_pass].
Qed.

Lemma all_actions_replicate n l :
  all_actions (concat (replicate n l)) = concat (replicate n (all_actions l)).
Proof.
  induction n as [|n IH]; [reflexivity|]. simpl.
  rewrite all_actions_app, IH. reflexivity.
Qed.

Lemma completed_passes tr n :
  completed Fdr (tr ++ concat (replicate n one_pass))
  = completed Fdr tr + Z.of_nat n.
Proof.
  unfold completed.
  rewrite all_actions_app, count_act_app, all_actions_replicate,
    count_act_replicate.
  replace (count_act (A_op (return_of Fdr)) (all_actions one_pass)) with 1
    by (vm_compute; reflexivity).
  lia.
Qed.

Lemma many_passes : exists n : nat, Z.of_nat n = 2 ^ 31 - 1.
Proof. exists (Z.to_nat (2 ^ 31 - 1)). apply Z2Nat.id. lia. Qed.

(** C3, as stated, fails on a long run: a single reader makes 2^31 passes
    through its loop before the timer fires; the run completes with 2^31
    completed calls of [dr] and [reads_taken] at -2^31, and the step that
    bumped the counter for the last time took it from 2^31 - 1 down to
    -2^31. *)
Lemma counters_wrap_around :
  (exists tr s,
      Run 64 55 cfg_reader tr s
      /\ main s = M_returned (-55)
      /\ completed Fdr tr = 2 ^ 31
      /\ reads_taken s = - 2 ^ 31
      /\ reads_taken s <> completed Fdr tr)
  /\ (exists tr s e s',
         Run 64 55 cfg_reader tr s
         /\ step 64 55 cfg_reader (Thr 0) s = Ok (e, s')
         /\ reads_taken s = 2 ^ 31 - 1
         /\ reads_taken s' = - 2 ^ 31
         /\ reads_taken s' < reads_taken s).
Proof.
  destruct reader_start as (tr0 & HR0 & Hc0).
  destruct many_passes as (n & Hn).
  split.
  - pose proof (reader_passes (S n) tr0 HR0) as HR.
    rewrite Nat2Z.inj_succ, Hn in HR.
    replace (wrap_int (Z.succ (2 ^ 31 - 1))) with (-2147483648) in HR
      by (vm_compute; reflexivity).
    destruct (exec 64 55 cfg_reader ([Timer; Thr 0; Thr 0; Thr 0] ++ repeat Main 11)
                (reader_looping (-2147483648))) as [[tr1 s1]|] eqn:He;
      [|vm_compute in He; discriminate].
    pose proof (Run_exec 64 55 cfg_reader _ _ _ _ _ HR He) as HR1.
    vm_compute in He. injection He as <- <-.
    eexists. eexists. split; [exact HR1|].
    assert (Hc : completed Fdr (tr0 ++ concat (replicate (S n) one_pass)) = 2 ^ 31)
      by (rewrite completed_passes, Hc0, Nat2Z.inj_succ, Hn; lia).
    split; [reflexivity|]. split; [|split; [reflexivity|]].
    + unfold completed in *. rewrite all_actions_app, count_act_app, Hc.
      vm_compute. reflexivity.
    + unfold completed in *. rewrite all_actions_app, count_act_app, Hc.
      vm_compute. discriminate.
  - pose proof (reader_passes n tr0 HR0) as HR. rewrite Hn in HR.
    replace (wrap_int (2 ^ 31 - 1)) with 2147483647 in HR
      by (vm_compute; reflexivity).
    destruct (exec 64 55 cfg_reader (repeat (Thr 0) 3)
                (reader_looping 2147483647)) as [[tr1 s1]|] eqn:He;
      [|vm_compute in He; discriminate].
    pose proof (Run_exec 64 55 cfg_reader _ _ _ _ _ HR He) as HR1.
    vm_compute in He. injection He as <- <-.
    eexists. eexists. eexists. eexists. split; [exact HR1|].
    split; [vm_compute; reflexivity|].
    split; [reflexivity|]. split; [reflexivity|]. vm_compute. reflexivity.
Qed.

(** * The theorems at work on concrete runs *)

(** C1 at work: the writer of [cfg111] is inside [dw], about to check
    [writers]. *)
Lemma mutual_exclusion_witness :
  32 <= 64
  /\ Run 64 55 cfg111 (fst (run_of 64 55 cfg111 sched_writing))
       (snd (run_of 64 55 cfg111 sched_writing))
  /\ count_pc holds_write (threads (snd (run_of 64 55 cfg111 sched_writing))) <= 1
  /\ writers (snd (run_of 64 55 cfg111 sched_writing)) = 1
  /\ readers (snd (run_of 64 55 cfg111 sched_writing)) = 0
  /\ Forall (fun m => is_check_failed m = false)
       (klog (snd (run_of 64 55 cfg111 sched_writing))).
Proof.
  assert (H32 : 32 <= 64) by lia.
  pose proof (Run_run_of 64 55 cfg111 sched_writing) as HR.
  destruct (mutual_exclusion 64 55 cfg111 H32 _ _ HR) as (A & B & C & D & E & F).
  split; [exact H32|]. split; [exact HR|]. split; [exact A|].
  assert (Hw : writers (snd (run_of 64 55 cfg111 sched_writing)) = 1).
  { eapply (E 1%nat _ Fdw a_writers 1); [vm_compute; reflexivity|reflexivity]. }
  split; [exact Hw|]. split; [|exact F].
  vm_compute. reflexivity.
Defined.

(** C2 at work: the downgrader of [cfg111] stands at [downgrade_write]; the
    semaphore is write-held before the step and read-held by one after. *)
Lemma downgrade_atomic_witness :
  let r := run_of 64 55 cfg111 sched_downgrading in
  32 <= 64
  /\ Run 64 55 cfg111 (fst r) (snd r)
  /\ threads (snd r) !! 2%nat
     = Some (Thread Down 0 (T_run (drop 4 dgw ++ ur ++ sched)))
  /\ dgw = take 4 dgw ++ drop 4 dgw
  /\ rwsem_sem (snd r) = -1
  /\ writers (snd r) = 0 /\ readers (snd r) = 1
  /\ exists s',
       step 64 55 cfg111 (Thr 2) (snd r)
       = Ok (E_thread 2 (A_op (Fdgw, DowngradeWrite)), s')
       /\ rwsem_sem s' = 1 /\ writers s' = 0 /\ readers s' = 1.
Proof.
  intros r.
  assert (H32 : 32 <= 64) by lia.
  assert (HR : Run 64 55 cfg111 (fst r) (snd r)) by apply Run_run_of.
  assert (Ht : threads (snd r) !! 2%nat
               = Some (Thread Down 0 (T_run (drop 4 dgw ++ ur ++ sched))))
    by (vm_compute; reflexivity).
  clearbody r.
  destruct (downgrade_atomic 64 55 cfg111 H32 _ _ 2%nat _ (take 4 dgw) (drop 4 dgw)
              HR Ht eq_refl eq_refl) as (A & B & C & D & _ & E & F).
  destruct (C ltac:(simpl; tauto)) as [Hm _].
  destruct (E _ eq_refl) as (s' & Hs & H1 & H2 & H3 & H4 & H5).
  split; [exact H32|]. split; [exact HR|]. split; [exact Ht|].
  split; [reflexivity|]. split; [exact Hm|]. split; [exact H2|].
  split; [exact H3|]. exists s'.
  split; [exact Hs|]. split; [exact H1|]. split; [exact H4|exact H5].
Defined.

(** C3 (as amended) at work: the full run of [cfg111], where each counter
    equals the number of completed calls. *)
Lemma counters_conserved_witness :
  let r := run_of 64 55 cfg111 sched_full in
  32 <= 64
  /\ Run 64 55 cfg111 (fst r) (snd r)
  /\ all_joined (snd r)
  /\ completed Fdr (fst r) < 2 ^ 31
  /\ completed Fdr (fst r) = 1
  /\ reads_taken (snd r) = completed Fdr (fst r)
  /\ writes_taken (snd r) = wrap_int (completed Fdw (fst r))
  /\ downgrades_taken (snd r) = wrap_int (completed Fdgw (fst r)).
Proof.
  intros r.
  assert (H32 : 32 <= 64) by lia.
  assert (HR : Run 64 55 cfg111 (fst r) (snd r)) by apply Run_run_of.
  assert (Hj : all_joined (snd r)) by (vm_compute; reflexivity).
  assert (Hlt : completed Fdr (fst r) < 2 ^ 31) by (vm_compute; reflexivity).
  assert (H1 : completed Fdr (fst r) = 1) by (vm_compute; reflexivity).
  clearbody r.
  destruct (counters_conserved 64 55 cfg111 H32 _ _ HR) as (_ & A & _).
  destruct (A Hj Fdr ltac:(tauto)) as [_ A1].
  destruct (A Hj Fdw ltac:(tauto)) as [A2 _].
  destruct (A Hj Fdgw ltac:(tauto)) as [A3 _].
  split; [exact H32|]. split; [exact HR|]. split; [exact Hj|].
  split; [exact Hlt|]. split; [exact H1|]. split; [exact (A1 Hlt)|].
  split; [exact A2|exact A3].
Defined.

(** The full run of [cfg111] ends idle with the report in the log. *)
Lemma final_report_witness :
  let r := run_of 64 55 cfg111 sched_full in
  32 <= 64
  /\ Run 64 55 cfg111 (fst r) (snd r)
  /\ all_joined (snd r)
  /\ main (snd r) = M_returned (-55)
  /\ rwsem_sem (snd r) = 0
  /\ (exists l, klog (snd r)
                = l ++ [ msg_counter (rwsem_sem (snd r));
                         msg_reads_taken (reads_taken (snd r));
                         msg_writes_taken (writes_taken (snd r));
                         msg_downgrades_taken (downgrades_taken (snd r)) ])
  /\ reads_taken (snd r) = 1
  /\ writes_taken (snd r) = 2
  /\ downgrades_taken (snd r) = 1.
Proof.
  intros r.
  assert (H32 : 32 <= 64) by lia.
  assert (HR : Run 64 55 cfg111 (fst r) (snd r)) by apply Run_run_of.
  assert (Hj : all_joined (snd r)) by (vm_compute; reflexivity).
  assert (Hm : main (snd r) = M_returned (-55)) by (vm_compute; reflexivity).
  assert (H1 : reads_taken (snd r) = 1) by (vm_compute; reflexivity).
  assert (H2 : writes_taken (snd r) = 2) by (vm_compute; reflexivity).
  assert (H3 : downgrades_taken (snd r) = 1) by (vm_compute; reflexivity).
  clearbody r.
  destruct (final_report 64 55 cfg111 H32 _ _ HR Hj)
    as (_ & A & _ & _ & _ & _ & _ & B & _).
  split; [exact H32|]. split; [exact HR|]. split; [exact Hj|].
  split; [exact Hm|]. split; [exact A|]. split; [exact (B _ Hm)|].
  split; [exact H1|]. split; [exact H2|exact H3].
Defined.

(** C5 at work: the reader of [cfg111] over the full run. *)
Lemma loop_structure_witness :
  let r := run_of 64 55 cfg111 sched_full in
  32 <= 64
  /\ Run 64 55 cfg111 (fst r) (snd r)
  /\ threads (snd r) !! 0%nat = Some (Thread Read 0 T_exited)
  /\ body Read = cycle Read ++ sched
  /\ exists n, thread_actions 0 (fst r) = history cfg111 Read n T_exited.
Proof.
  intros r.
  assert (H32 : 32 <= 64) by lia.
  assert (HR : Run 64 55 cfg111 (fst r) (snd r)) by apply Run_run_of.
  assert (Ht : threads (snd r) !! 0%nat = Some (Thread Read 0 T_exited))
    by (vm_compute; reflexivity).
  clearbody r.
  destruct (loop_structure 64 55 cfg111 H32 _ _ 0%nat _ HR Ht) as (A & B & _).
  split; [exact H32|]. split; [exact HR|]. split; [exact Ht|].
  split; [exact A|exact B].
Defined.

(** C6 at work: the end of the full run of [cfg111]. *)
Lemma shutdown_idempotent_witness :
  let r := run_of 64 55 cfg111 sched_full in
  32 <= 64
  /\ Run 64 55 cfg111 (fst r) (snd r)
  /\ all_joined (snd r)
  /\ after_clear (main (snd r)) = true
  /\ Nat.iter 3 stop_test (snd r) = stop_test (snd r)
  /\ rwsem_sem (snd r) = 0
  /\ rwsem_sem (stop_test (snd r)) = 0
  /\ do_stuff (snd r) = 0.
Proof.
  intros r.
  assert (H32 : 32 <= 64) by lia.
  assert (HR : Run 64 55 cfg111 (fst r) (snd r)) by apply Run_run_of.
  assert (Hj : all_joined (snd r)) by (vm_compute; reflexivity).
  assert (Hc : after_clear (main (snd r)) = true) by (vm_compute; reflexivity).
  clearbody r.
  destruct (shutdown_idempotent 64 55 cfg111 H32 _ _ HR) as (A & _ & _ & _ & B).
  destruct (B Hj) as (B1 & B2 & B3).
  split; [exact H32|]. split; [exact HR|]. split; [exact Hj|].
  split; [exact Hc|]. split; [exact (A (snd r) 2%nat)|].
  split; [exact B1|]. split; [exact B2|exact (B3 Hc)].
Defined.

(** C7 at work: a reader releasing while [writers] is 1; the line names
    [ur] and [writers], and no other function or counter has these names. *)
Lemma misuse_reported_witness :
  threads misuse_state !! 0%nat = Some (Thread Read 0 (T_run (ur ++ sched)))
  /\ atomic_read a_writers misuse_state = 1
  /\ exists s',
       step 64 55 cfg111 (Thr 0) misuse_state
       = Ok (E_thread 0 (A_op (Fur, CheckA a_writers 0)), s')
       /\ klog s' = klog misuse_state ++ [msg_check_failed "writers" 0 1 "ur"]
       /\ In (Fur, CheckA a_writers 0) (func_body Fur)
       /\ forall f' v' val' x',
            msg_check_failed "writers" 0 1 "ur"
            = msg_check_failed (var_name v') val' x' (func_name f') ->
            f' = Fur /\ v' = a_writers /\ val' = 0 /\ x' = 1.
Proof.
  split; [reflexivity|]. split; [reflexivity|].
  destruct (misuse_reported 64 55 cfg111 misuse_state 0%nat
              (Thread Read 0 (T_run (ur ++ sched))) Fur a_writers 0
              (tail ur ++ sched) eq_refl eq_refl)
    as (s' & Hs & Hl & _ & Hid & Hin & _).
  exists s'. split; [exact Hs|].
  split; [exact (Hl ltac:(discriminate))|].
  split; [exact (proj1 (Hin ltac:(simpl; tauto)))|exact Hid].
Defined.

(** C8 at work: the reader of [cfg_yield] after one full pass. *)
Lemma yield_toggle_witness :
  let r := run_of 64 55 cfg_yield sched_yield in
  32 <= 64
  /\ Run 64 55 cfg_yield (fst r) (snd r)
  /\ threads (snd r) !! 0%nat = Some (Thread Read 0 (T_run []))
  /\ do_sched cfg_yield = 1
  /\ count_act (A_op (Fur, UpRead)) (thread_actions 0 (fst r)) = 1
  /\ count_act (A_op (Fsched, Schedule)) (thread_actions 0 (fst r)) + 0
     = count_act (A_op (Fur, UpRead)) (thread_actions 0 (fst r)).
Proof.
  intros r.
  assert (H32 : 32 <= 64) by lia.
  assert (HR : Run 64 55 cfg_yield (fst r) (snd r)) by apply Run_run_of.
  assert (Ht : threads (snd r) !! 0%nat = Some (Thread Read 0 (T_run [])))
    by (vm_compute; reflexivity).
  assert (H1 : count_act (A_op (Fur, UpRead)) (thread_actions 0 (fst r)) = 1)
    by (vm_compute; reflexivity).
  clearbody r.
  destruct (yield_toggle 64 55 cfg_yield H32 _ _ 0%nat _ HR Ht) as (_ & A & _).
  split; [exact H32|]. split; [exact HR|]. split; [exact Ht|].
  split; [reflexivity|]. split; [exact H1|].
  exact (A ltac:(discriminate)).
Defined.

(** C9 at work: with 21 readers asked for, 20 are spawned and joined, and
    the next wait is out of bounds. *)
Lemma thread_cap_witness :
  let r := run_of 64 55 cfg21 sched_21 in
  32 <= 64
  /\ Run 64 55 cfg21 (fst r) (snd r)
  /\ 20 < num cfg21 Read < 2 ^ 31
  /\ main (snd r) = M_wait Read 20
  /\ length (threads (snd r)) = 20%nat
  /\ (length (filter (fun t => tkind t = Read) (threads (snd r))) <= 20)%nat
  /\ comp Read (snd r) !! Z.to_nat 20 = None
  /\ step 64 55 cfg21 Main (snd r) = Fault.
Proof.
  intros r.
  assert (H32 : 32 <= 64) by lia.
  assert (HR : Run 64 55 cfg21 (fst r) (snd r)) by apply Run_run_of.
  assert (Hk : 20 < num cfg21 Read < 2 ^ 31) by (simpl; lia).
  assert (Hm : main (snd r) = M_wait Read 20) by (vm_compute; reflexivity).
  assert (Hl : length (threads (snd r)) = 20%nat) by (vm_compute; reflexivity).
  clearbody r.
  destruct (thread_cap 64 55 cfg21 H32 _ _ Read HR) as (_ & A & _ & _ & B).
  destruct (B Hk) as (_ & B1 & B2 & _).
  split; [exact H32|]. split; [exact HR|]. split; [exact Hk|].
  split; [exact Hm|]. split; [exact Hl|]. split; [exact A|].
  split; [exact B1|exact (B2 Hm)].
Defined.

(** C10 at work: the same run; the init function has not returned and its
    next step is outside the completion array. *)
Lemma init_never_returns_witness :
  let r := run_of 64 55 cfg21 sched_21 in
  32 <= 64
  /\ Run 64 55 cfg21 (fst r) (snd r)
  /\ 20 < num cfg21 Read < 2 ^ 31
  /\ main (snd r) = M_wait Read 20
  /\ step 64 55 cfg21 Main (snd r) = Fault
  /\ forall v, main (snd r) <> M_returned v.
Proof.
  intros r.
  assert (H32 : 32 <= 64) by lia.
  assert (HR : Run 64 55 cfg21 (fst r) (snd r)) by apply Run_run_of.
  assert (Hk : 20 < num cfg21 Read < 2 ^ 31) by (simpl; lia).
  assert (Hm : main (snd r) = M_wait Read 20) by (vm_compute; reflexivity).
  clearbody r.
  destruct (init_never_returns 64 55 cfg21 H32 _ _ Read HR Hk) as (A & B).
  split; [exact H32|]. split; [exact HR|]. split; [exact Hk|].
  split; [exact Hm|]. split; [exact (B Hm)|exact A].
Defined.

(** * The further properties at work on concrete runs *)

(** X1 at work: the writer of [cfg111] stands at [up_write]; the semaphore
    is write-held before the step and free after it. *)
Lemma releases_held_witness :
  let r := run_of 64 55 cfg111 sched_unlocking in
  32 <= 64
  /\ Run 64 55 cfg111 (fst r) (snd r)
  /\ threads (snd r) !! 1%nat
     = Some (Thread Write 0 (T_run ((Fuw, UpWrite) :: sched)))
  /\ rwsem_sem (snd r) = -1 /\ writers (snd r) = 0 /\ readers (snd r) = 0
  /\ exists s',
       step 64 55 cfg111 (Thr 1) (snd r)
       = Ok (E_thread 1 (A_op (Fuw, UpWrite)), s')
       /\ rwsem_sem s' = 0.
Proof.
  intros r.
  assert (H32 : 32 <= 64) by lia.
  assert (HR : Run 64 55 cfg111 (fst r) (snd r)) by apply Run_run_of.
  assert (Ht : threads (snd r) !! 1%nat
               = Some (Thread Write 0 (T_run ((Fuw, UpWrite) :: sched))))
    by (vm_compute; reflexivity).
  clearbody r.
  destruct (releases_held 64 55 cfg111 H32 _ _ 1%nat _ Fuw UpWrite sched
              HR Ht eq_refl) as [_ A].
  destruct (A eq_refl) as (_ & A1 & A2 & A3 & s' & A4 & A5 & _).
  split; [exact H32|]. split; [exact HR|]. split; [exact Ht|].
  split; [exact A1|]. split; [exact A2|]. split; [exact A3|].
  exists s'. split; [exact A4|exact A5].
Defined.

(** X2 at work: the reader of [cfg111] holds the semaphore and has left the
    [readers] counter already. *)
Lemma counters_within_occupancy_witness :
  let r := run_of 64 55 cfg111 sched_releasing in
  32 <= 64
  /\ Run 64 55 cfg111 (fst r) (snd r)
  /\ rwsem_sem (snd r) = 1
  /\ rwsem_sem (snd r) = count_pc holds_read (threads (snd r))
  /\ writers (snd r) = 0 /\ readers (snd r) <= rwsem_sem (snd r).
Proof.
  intros r.
  assert (H32 : 32 <= 64) by lia.
  assert (HR : Run 64 55 cfg111 (fst r) (snd r)) by apply Run_run_of.
  assert (Hs : rwsem_sem (snd r) = 1) by (vm_compute; reflexivity).
  clearbody r.
  destruct (counters_within_occupancy 64 55 cfg111 H32 _ _ HR)
    as (_ & _ & _ & A & _).
  assert (H0 : 0 <= rwsem_sem (snd r)) by lia.
  destruct (A H0) as (A1 & A2 & A3).
  split; [exact H32|]. split; [exact HR|]. split; [exact Hs|].
  split; [exact A1|]. split; [exact A2|exact A3].
Defined.

(** X3 at work: in [cfg111] the init function waits at slot 0 of
    [rd_comp], inside the array. *)
Lemma accesses_in_bounds_witness :
  let r := run_of 64 55 cfg111 sched_spawn in
  32 <= 64
  /\ Run 64 55 cfg111 (fst r) (snd r)
  /\ (forall k, 0 <= num cfg111 k <= 20)
  /\ main (snd r) = M_wait Read 0
  /\ length (comp Read (snd r)) = 20%nat
  /\ is_Some (comp Read (snd r) !! Z.to_nat 0)
  /\ step 64 55 cfg111 Main (snd r) <> Fault.
Proof.
  intros r.
  assert (H32 : 32 <= 64) by lia.
  assert (HR : Run 64 55 cfg111 (fst r) (snd r)) by apply Run_run_of.
  assert (Hn : forall k, 0 <= num cfg111 k <= 20) by (intros []; simpl; lia).
  assert (Hm : main (snd r) = M_wait Read 0) by (vm_compute; reflexivity).
  clearbody r.
  destruct (accesses_in_bounds 64 55 cfg111 H32 _ _ HR) as (A & _ & _ & B).
  destruct (B Hn Read 0 Hm) as (_ & B1 & B2).
  split; [exact H32|]. split; [exact HR|]. split; [exact Hn|].
  split; [exact Hm|]. split; [exact (A Read)|]. split; [exact B1|exact B2].
Defined.

(** X4 at work: in [cfg111], with the init function at its first wait, a
    thread can move. *)
Lemma never_stuck_witness :
  let r := run_of 64 55 cfg111 sched_spawn in
  32 <= 64
  /\ Run 64 55 cfg111 (fst r) (snd r)
  /\ (forall k, 0 <= num cfg111 k <= 20)
  /\ main (snd r) = M_wait Read 0
  /\ ((exists e s', step 64 55 cfg111 Main (snd r) = Ok (e, s'))
      \/ (exists j e s', step 64 55 cfg111 (Thr j) (snd r) = Ok (e, s'))).
Proof.
  intros r.
  assert (H32 : 32 <= 64) by lia.
  assert (HR : Run 64 55 cfg111 (fst r) (snd r)) by apply Run_run_of.
  assert (Hn : forall k, 0 <= num cfg111 k <= 20) by (intros []; simpl; lia).
  assert (Hm : main (snd r) = M_wait Read 0) by (vm_compute; reflexivity).
  clearbody r.
  assert (Hret : forall v, main (snd r) <> M_returned v)
    by (intros v E; rewrite Hm in E; discriminate E).
  split; [exact H32|]. split; [exact HR|]. split; [exact Hn|].
  split; [exact Hm|].
  exact (never_stuck 64 55 cfg111 H32 _ _ HR Hn Hret).
Defined.

(** X5 at work: in the full run of [cfg111] the timer has fired once and
    cannot fire again. *)
Lemma timer_one_shot_witness :
  let r := run_of 64 55 cfg111 sched_full in
  Run 64 55 cfg111 (fst r) (snd r)
  /\ timer_events (fst r) = 1
  /\ timer_pending (snd r) = false
  /\ step 64 55 cfg111 Timer (snd r) = Blocked.
Proof.
  intros r.
  assert (HR : Run 64 55 cfg111 (fst r) (snd r)) by apply Run_run_of.
  assert (He : timer_events (fst r) = 1) by (vm_compute; reflexivity).
  assert (Hp : timer_pending (snd r) = false) by (vm_compute; reflexivity).
  clearbody r.
  destruct (timer_one_shot 64 55 cfg111 _ _ HR) as (_ & _ & A & _).
  split; [exact HR|]. split; [exact He|]. split; [exact Hp|].
  exact (A (or_intror (or_intror He))).
Defined.

(** X6 at work: in [cfg111], once the timer has fired the flag is clear. *)
Lemma flag_lifecycle_witness :
  let r := run_of 64 55 cfg111 sched_stopped in
  32 <= 64
  /\ Run 64 55 cfg111 (fst r) (snd r)
  /\ timer_events (fst r) = 1
  /\ do_stuff (snd r)
     = b2z (started (main (snd r)) && negb (after_clear (main (snd r)))
            && (timer_events (fst r) =? 0))
  /\ do_stuff (snd r) = 0.
Proof.
  intros r.
  assert (H32 : 32 <= 64) by lia.
  assert (HR : Run 64 55 cfg111 (fst r) (snd r)) by apply Run_run_of.
  assert (He : timer_events (fst r) = 1) by (vm_compute; reflexivity).
  assert (H0 : do_stuff (snd r) = 0) by (vm_compute; reflexivity).
  clearbody r.
  destruct (flag_lifecycle 64 55 cfg111 H32 _ _ HR) as (A & _).
  split; [exact H32|]. split; [exact HR|]. split; [exact He|].
  split; [exact A|exact H0].
Defined.

(** X7 at work: in [cfg111] the reader has exited, so the timer has
    fired. *)
Lemma stopped_by_timer_witness :
  let r := run_of 64 55 cfg111 sched_exited in
  32 <= 64
  /\ Run 64 55 cfg111 (fst r) (snd r)
  /\ threads (snd r) !! 0%nat = Some (Thread Read 0 T_exited)
  /\ timer_events (fst r) = 1 /\ do_stuff (snd r) = 0.
Proof.
  intros r.
  assert (H32 : 32 <= 64) by lia.
  assert (HR : Run 64 55 cfg111 (fst r) (snd r)) by apply Run_run_of.
  assert (Ht : threads (snd r) !! 0%nat = Some (Thread Read 0 T_exited))
    by (vm_compute; reflexivity).
  clearbody r.
  destruct (stopped_by_timer 64 55 cfg111 H32 _ _ 0%nat _ HR Ht) as (A & _).
  split; [exact H32|]. split; [exact HR|]. split; [exact Ht|].
  exact (A eq_refl).
Defined.

(** X8 at work: [cfg111] asks for one reader and gets one. *)
Lemma spawn_count_witness :
  let r := run_of 64 55 cfg111 sched_spawn in
  32 <= 64
  /\ Run 64 55 cfg111 (fst r) (snd r)
  /\ spawn_progress (main (snd r)) = 60
  /\ Z.of_nat (length (filter (fun t => tkind t = Read) (threads (snd r))))
     = num cfg111 Read.
Proof.
  intros r.
  assert (H32 : 32 <= 64) by lia.
  assert (HR : Run 64 55 cfg111 (fst r) (snd r)) by apply Run_run_of.
  assert (Hs : spawn_progress (main (snd r)) = 60) by (vm_compute; reflexivity).
  clearbody r.
  destruct (spawn_count 64 55 cfg111 H32 _ _ Read HR Hs) as (_ & A & _).
  split; [exact H32|]. split; [exact HR|]. split; [exact Hs|].
  apply A. simpl. lia.
Defined.

(** X9 at work: with -1 readers asked for, twenty are spawned and joined and
    the next wait is out of bounds. *)
Lemma negative_count_witness :
  let r := run_of 64 55 cfg_neg sched_21 in
  32 <= 64
  /\ Run 64 55 cfg_neg (fst r) (snd r)
  /\ - 2 ^ 31 <= num cfg_neg Read < 0
  /\ main (snd r) = M_wait Read 20
  /\ length (filter (fun t => tkind t = Read) (threads (snd r))) = 20%nat
  /\ step 64 55 cfg_neg Main (snd r) = Fault
  /\ forall v, main (snd r) <> M_returned v.
Proof.
  intros r.
  assert (H32 : 32 <= 64) by lia.
  assert (HR : Run 64 55 cfg_neg (fst r) (snd r)) by apply Run_run_of.
  assert (Hk : - 2 ^ 31 <= num cfg_neg Read < 0) by (simpl; lia).
  assert (Hm : main (snd r) = M_wait Read 20) by (vm_compute; reflexivity).
  assert (Hs : spawn_progress (main (snd r)) = 60) by (vm_compute; reflexivity).
  clearbody r.
  destruct (negative_count 64 55 cfg_neg H32 _ _ Read HR Hk)
    as (_ & A & B & _ & _ & C).
  split; [exact H32|]. split; [exact HR|]. split; [exact Hk|].
  split; [exact Hm|]. split; [exact (A Hs)|]. split; [exact (B Hm)|exact C].
Defined.

(** X10 at work: in [cfg111] the reader has exited and its completion is
    pending; the wait of the init function for it returns. *)
Lemma completion_protocol_witness :
  let r := run_of 64 55 cfg111 sched_exited in
  32 <= 64
  /\ Run 64 55 cfg111 (fst r) (snd r)
  /\ threads (snd r) !! 0%nat = Some (Thread Read 0 T_exited)
  /\ main (snd r) = M_wait Read 0
  /\ comp Read (snd r) !! Z.to_nat 0 = Some 1
  /\ exists s', step 64 55 cfg111 Main (snd r) = Ok (E_main (main (snd r)), s')
                /\ main s' = M_join Read (0 + 1)
                /\ comp Read s' !! Z.to_nat 0 = Some 0.
Proof.
  intros r.
  assert (H32 : 32 <= 64) by lia.
  assert (HR : Run 64 55 cfg111 (fst r) (snd r)) by apply Run_run_of.
  assert (Ht : threads (snd r) !! 0%nat = Some (Thread Read 0 T_exited))
    by (vm_compute; reflexivity).
  assert (Hm : main (snd r) = M_wait Read 0) by (vm_compute; reflexivity).
  assert (Hc : comp Read (snd r) !! Z.to_nat 0 = Some 1)
    by (vm_compute; reflexivity).
  clearbody r.
  destruct (completion_protocol 64 55 cfg111 H32 _ _ HR) as (_ & A).
  destruct (A 0%nat _ Ht) as (_ & _ & B).
  split; [exact H32|]. split; [exact HR|]. split; [exact Ht|].
  split; [exact Hm|]. split; [exact Hc|]. exact (B Hm).
Defined.

(** X11 at work: the log of the full run of [cfg111]. *)
Lemma log_contents_witness :
  let r := run_of 64 55 cfg111 sched_full in
  32 <= 64
  /\ Run 64 55 cfg111 (fst r) (snd r)
  /\ done_lines (keys (snd r)) (fst r)
     = [msg_done Read 0; msg_done Write 0; msg_done Down 0]
  /\ klog (snd r)
     = banner (main (snd r)) ++ done_lines (keys (snd r)) (fst r)
       ++ report (snd r)
  /\ klog (snd r)
     = [msg_starting; msg_done Read 0; msg_done Write 0; msg_done Down 0;
        msg_counter 0; msg_reads_taken 1; msg_writes_taken 2;
        msg_downgrades_taken 1].
Proof.
  intros r.
  assert (H32 : 32 <= 64) by lia.
  assert (HR : Run 64 55 cfg111 (fst r) (snd r)) by apply Run_run_of.
  assert (Hd : done_lines (keys (snd r)) (fst r)
               = [msg_done Read 0; msg_done Write 0; msg_done Down 0])
    by (vm_compute; reflexivity).
  assert (Hl : klog (snd r)
     = [msg_starting; msg_done Read 0; msg_done Write 0; msg_done Down 0;
        msg_counter 0; msg_reads_taken 1; msg_writes_taken 2;
        msg_downgrades_taken 1]) by (vm_compute; reflexivity).
  clearbody r.
  destruct (log_contents 64 55 cfg111 H32 _ _ HR) as (A & _).
  split; [exact H32|]. split; [exact HR|]. split; [exact Hd|].
  split; [exact A|exact Hl].
Defined.

(** X12 at work: after the full run of [cfg111] every acquisition has been
    released. *)
Lemma acquisitions_released_witness :
  let r := run_of 64 55 cfg111 sched_full in
  32 <= 64
  /\ Run 64 55 cfg111 (fst r) (snd r)
  /\ all_joined (snd r)
  /\ count_stmt DownWrite (fst r) = 2
  /\ count_stmt DownRead (fst r) + count_stmt DowngradeWrite (fst r)
     - count_stmt UpRead (fst r) = 0
  /\ count_stmt DownWrite (fst r) - count_stmt UpWrite (fst r)
     - count_stmt DowngradeWrite (fst r) = 0.
Proof.
  intros r.
  assert (H32 : 32 <= 64) by lia.
  assert (HR : Run 64 55 cfg111 (fst r) (snd r)) by apply Run_run_of.
  assert (Hj : all_joined (snd r)) by (vm_compute; reflexivity).
  assert (Hw : count_stmt DownWrite (fst r) = 2) by (vm_compute; reflexivity).
  clearbody r.
  destruct (acquisitions_released 64 55 cfg111 H32 _ _ HR)
    as (_ & _ & _ & _ & _ & A).
  split; [exact H32|]. split; [exact HR|]. split; [exact Hj|].
  split; [exact Hw|]. exact (A Hj).
Defined.

(** X13 at work: the full run of [cfg111] ends with one downgrade and two
    writes taken. *)
Lemma downgrades_le_writes_witness :
  let r := run_of 64 55 cfg111 sched_full in
  32 <= 64
  /\ Run 64 55 cfg111 (fst r) (snd r)
  /\ completed Fdgw (fst r) = 1 /\ completed Fdw (fst r) = 2
  /\ 0 <= downgrades_taken (snd r) <= writes_taken (snd r).
Proof.
  intros r.
  assert (H32 : 32 <= 64) by lia.
  assert (HR : Run 64 55 cfg111 (fst r) (snd r)) by apply Run_run_of.
  assert (H1 : completed Fdgw (fst r) = 1) by (vm_compute; reflexivity).
  assert (H2 : completed Fdw (fst r) = 2) by (vm_compute; reflexivity).
  assert (H3 : completed Fdw (fst r)
               + count_pc (in_flight Fdw a_writes_taken) (threads (snd r))
               < 2 ^ 31) by (vm_compute; reflexivity).
  clearbody r.
  destruct (downgrades_le_writes 64 55 cfg111 H32 _ _ HR) as (_ & _ & _ & A).
  split; [exact H32|]. split; [exact HR|]. split; [exact H1|].
  split; [exact H2|exact (A H3)].
Defined.

(** X14 at work: in [cfg111] the timer has fired; the reader tests the flag
    and leaves its loop. *)
Lemma prompt_shutdown_witness :
  let r := run_of 64 55 cfg111 sched_stopped in
  let s' := set_pc 0 (Thread Read 0 (T_run [])) T_printk (snd r) in
  32 <= 64
  /\ Run 64 55 cfg111 (fst r) (snd r)
  /\ do_stuff (snd r) = 0
  /\ threads (snd r) !! 0%nat = Some (Thread Read 0 (T_run []))
  /\ step 64 55 cfg111 (Thr 0) (snd r) = Ok (E_thread 0 (A_test false), s')
  /\ do_stuff s' = 0
  /\ 0 <= sum_pc thread_left (threads s') < sum_pc thread_left (threads (snd r)).
Proof.
  intros r s'.
  assert (H32 : 32 <= 64) by lia.
  assert (HR : Run 64 55 cfg111 (fst r) (snd r)) by apply Run_run_of.
  assert (H0 : do_stuff (snd r) = 0) by (vm_compute; reflexivity).
  assert (Ht : threads (snd r) !! 0%nat = Some (Thread Read 0 (T_run [])))
    by (vm_compute; reflexivity).
  clearbody r.
  assert (Hs : step 64 55 cfg111 (Thr 0) (snd r)
               = Ok (E_thread 0 (A_test false), s')).
  { subst s'. simpl. unfold step_thread. rewrite Ht. simpl. rewrite H0.
    reflexivity. }
  destruct (prompt_shutdown 64 55 cfg111 H32 _ _ 0%nat _ _ _ HR H0 Ht Hs)
    as (A & _ & B & _).
  split; [exact H32|]. split; [exact HR|]. split; [exact H0|].
  split; [exact Ht|]. split; [exact Hs|]. split; [exact A|exact B].
Defined.

(** X15 at work: with no thread asked for the init function runs straight
    to its return. *)
Lemma no_threads_witness :
  let r := run_of 64 55 cfg000 sched_alone in
  32 <= 64
  /\ Run 64 55 cfg000 (fst r) (snd r)
  /\ (forall k, num cfg000 k = 0)
  /\ main (snd r) = M_returned (-55)
  /\ timer_events (fst r) = 0
  /\ threads (snd r) = []
  /\ klog (snd r) = [msg_starting; msg_counter 0; msg_reads_taken 0;
                     msg_writes_taken 0; msg_downgrades_taken 0].
Proof.
  intros r.
  assert (H32 : 32 <= 64) by lia.
  assert (HR : Run 64 55 cfg000 (fst r) (snd r)) by apply Run_run_of.
  assert (Hn : forall k, num cfg000 k = 0) by (intros []; reflexivity).
  assert (Hm : main (snd r) = M_returned (-55)) by (vm_compute; reflexivity).
  assert (He : timer_events (fst r) = 0) by (vm_compute; reflexivity).
  clearbody r.
  destruct (no_threads 64 55 cfg000 H32 _ _ HR Hn)
    as (A & _ & _ & _ & _ & _ & _ & _ & _ & _ & B).
  split; [exact H32|]. split; [exact HR|]. split; [exact Hn|].
  split; [exact Hm|]. split; [exact He|]. split; [exact A|exact (B _ Hm)].
Defined.

(** X16 at work: in [cfg111] the writer holds the semaphore while the
    reader stands at [down_read]; the writer can go on. *)
Lemma holders_never_wait_witness :
  let r := run_of 64 55 cfg111 sched_waiting in
  32 <= 64
  /\ Run 64 55 cfg111 (fst r) (snd r)
  /\ threads (snd r) !! 0%nat = Some (Thread Read 0 (T_run (body Read)))
  /\ threads (snd r) !! 1%nat
     = Some (Thread Write 0 (T_run (drop 3 (body Write))))
  /\ holds_write (T_run (drop 3 (body Write))) = true
  /\ exists e s', step 64 55 cfg111 (Thr 1) (snd r) = Ok (e, s').
Proof.
  intros r.
  assert (H32 : 32 <= 64) by lia.
  assert (HR : Run 64 55 cfg111 (fst r) (snd r)) by apply Run_run_of.
  assert (Ht0 : threads (snd r) !! 0%nat
                = Some (Thread Read 0 (T_run (body Read))))
    by (vm_compute; reflexivity).
  assert (Ht : threads (snd r) !! 1%nat
               = Some (Thread Write 0 (T_run (drop 3 (body Write)))))
    by (vm_compute; reflexivity).
  clearbody r.
  destruct (holders_never_wait 64 55 cfg111 H32 _ _ 1%nat _ HR Ht) as (A & _).
  split; [exact H32|]. split; [exact HR|]. split; [exact Ht0|].
  split; [exact Ht|]. split; [reflexivity|]. exact (A eq_refl).
Defined.

(** X17 at work: the state in which the full run of [cfg111] returns. *)
Lemma return_state_witness :
  let r := run_of 64 55 cfg111 sched_full in
  32 <= 64
  /\ Run 64 55 cfg111 (fst r) (snd r)
  /\ main (snd r) = M_returned (-55)
  /\ -55 = wrap_int (- (55))
  /\ timer_pending (snd r) = false /\ do_stuff (snd r) = 0
  /\ rwsem_sem (snd r) = 0 /\ readers (snd r) = 0 /\ writers (snd r) = 0.
Proof.
  intros r.
  assert (H32 : 32 <= 64) by lia.
  assert (HR : Run 64 55 cfg111 (fst r) (snd r)) by apply Run_run_of.
  assert (Hm : main (snd r) = M_returned (-55)) by (vm_compute; reflexivity).
  clearbody r.
  destruct (return_state 64 55 cfg111 H32 _ _ _ HR Hm)
    as (A & _ & B & C & _ & D).
  split; [exact H32|]. split; [exact HR|]. split; [exact Hm|].
  split; [exact A|]. split; [exact B|]. split; [exact C|exact D].
Defined.

(** X18 at work: from the moment [cfg111] is loaded a run to the return
    exists. *)
Lemma return_reachable_witness :
  32 <= 64
  /\ Run 64 55 cfg111 [] loaded
  /\ (forall k, - 2 ^ 31 <= num cfg111 k < 2 ^ 31)
  /\ (forall k, 0 <= num cfg111 k <= 20)
  /\ exists tr' s',
       Run 64 55 cfg111 ([] ++ tr') s' /\ main s' = M_returned (wrap_int (- (55))).
Proof.
  assert (H32 : 32 <= 64) by lia.
  assert (HR : Run 64 55 cfg111 [] loaded) by constructor.
  assert (Hi : forall k, - 2 ^ 31 <= num cfg111 k < 2 ^ 31)
    by (intros []; simpl; lia).
  assert (Hn : forall k, 0 <= num cfg111 k <= 20) by (intros []; simpl; lia).
  split; [exact H32|]. split; [exact HR|]. split; [exact Hi|].
  split; [exact Hn|].
  exact (proj2 (return_reachable 64 55 cfg111 H32 _ _ HR Hi) Hn).
Defined.


(** C4 at work: with 21 readers asked for, the twenty spawned readers have
    exited and been waited for, the log holds no report line, and the next
    statement of the init function is the wait outside the array. *)
Lemma report_never_printed_witness :
  let r := run_of 64 55 cfg21 sched_21 in
  32 <= 64
  /\ Run 64 55 cfg21 (fst r) (snd r)
  /\ 20 < num cfg21 Read < 2 ^ 31
  /\ main (snd r) = M_wait Read 20
  /\ tkind <$> threads (snd r) = replicate 20 Read
  /\ tpc_of <$> threads (snd r) = replicate 20 T_exited
  /\ length (klog (snd r)) = 21%nat
  /\ Forall (fun m => is_report m = false) (klog (snd r))
  /\ step 64 55 cfg21 Main (snd r) = Fault
  /\ forall v, main (snd r) <> M_returned v.
Proof.
  intros r.
  assert (H32 : 32 <= 64) by lia.
  assert (HR : Run 64 55 cfg21 (fst r) (snd r)) by apply Run_run_of.
  assert (Hk : 20 < num cfg21 Read < 2 ^ 31) by (simpl; lia).
  assert (Hm : main (snd r) = M_wait Read 20) by (vm_compute; reflexivity).
  assert (Hkd : tkind <$> threads (snd r) = replicate 20 Read)
    by (vm_compute; reflexivity).
  assert (Hpc : tpc_of <$> threads (snd r) = replicate 20 T_exited)
    by (vm_compute; reflexivity).
  assert (Hl : length (klog (snd r)) = 21%nat) by (vm_compute; reflexivity).
  clearbody r.
  destruct (report_never_printed 64 55 cfg21 H32 _ _ Read HR Hk)
    as (_ & _ & A & B & C).
  split; [exact H32|]. split; [exact HR|]. split; [exact Hk|].
  split; [exact Hm|]. split; [exact Hkd|]. split; [exact Hpc|].
  split; [exact Hl|]. split; [exact A|]. split; [exact (proj1 (C Hm))|exact B].
Defined.
